(** * nba-score-winpred: feature extraction, sequence windowing, matchup assembly

    A shallow embedding of

      - [src/nba_score_winpred/features/extract_features.py]
      - [src/nba_score_winpred/features/build_sequences.py]
      - [src/nba_score_winpred/dataset/dataset_builder.py]

    together with the small part of Python, sqlite3 and numpy these files
    rely on.  Python floats are IEEE binary64 numbers and are modelled by
    Rocq's primitive floats, whose operations are the same; Python integers
    are [Z]; an exception is a value of an error monad.  The second half of
    the file states and proves the properties of the pipeline. *)

From Stdlib Require Import ZArith List Ascii String Bool Lia Floats.
From Stdlib Require Import Sorting.Sorted Sorting.Permutation.
From Stdlib Require OrderedTypeEx.
Import ListNotations.

Set Warnings "-inexact-float,-register-all".
Local Open Scope Z_scope.

(* ================================================================== *)
(** * Python values, exceptions and the builtins the sources call *)
(* ================================================================== *)

Module Py.

(** The exceptions that the modelled calls raise. *)
Inductive exn : Type :=
| TypeError
| ValueError
| OverflowError
| AttributeError
| IndexError
| OSError.

(** A Python expression either evaluates to a value or raises. *)
Inductive result (A : Type) : Type :=
| Ok (a : A)
| Raise (e : exn).

Arguments Ok {A} a.
Arguments Raise {A} e.

Definition bind {A B : Type} (m : result A) (k : A -> result B) : result B :=
  match m with
  | Ok a => k a
  | Raise e => Raise e
  end.

Notation "x <- m ;; k" := (bind m (fun x => k))
  (at level 61, m at next level, right associativity).

(** [try: ... except Exception: return None] *)
Definition catch_all {A : Type} (m : result (option A)) : option A :=
  match m with
  | Ok r => r
  | Raise _ => None
  end.

(** What [json.loads] returns: [None], a bool, an int, a float (the
    decoder also reads [NaN] and [Infinity]), a str, a list, or a dict with
    str keys.  A dict is kept as its items, one per key; a lookup takes the
    first item of that key. *)
Inductive value : Type :=
| VNone
| VBool (b : bool)
| VInt (z : Z)
| VFloat (f : float)
| VStr (s : string)
| VList (items : list value)
| VDict (items : list (string * value)).

Definition dict : Type := list (string * value).

(** A TEXT cell that holds JSON is modelled by what [json.loads] makes of
    it: [Some v], or [None] when [json.loads] raises on the cell.
    [json.dumps] of a value that came from lists, floats and ints writes a
    text that [json.loads] reads back as that value. *)
Definition json_text : Type := option value.

Definition json_loads (t : json_text) : option value := t.
Definition json_dumps (v : value) : json_text := Some v.

(** [d.get(key, default)] on a dict. *)
Fixpoint dict_get (d : dict) (key : string) (default : value) : value :=
  match d with
  | [] => default
  | (k, v) :: rest => if String.eqb k key then v else dict_get rest key default
  end.

(** [entry.get(key, default)]: only a dict has the method. *)
Definition get (entry : value) (key : string) (default : value) : result value :=
  match entry with
  | VDict d => Ok (dict_get d key default)
  | _ => Raise AttributeError
  end.

Fixpoint chars (s : string) : list value :=
  match s with
  | EmptyString => []
  | String c rest => VStr (String c EmptyString) :: chars rest
  end.

(** [len(x)] *)
Definition len (x : value) : result Z :=
  match x with
  | VStr s => Ok (Z.of_nat (String.length s))
  | VList l => Ok (Z.of_nat (List.length l))
  | VDict d => Ok (Z.of_nat (List.length d))
  | _ => Raise TypeError
  end.

(** [for entry in x]: the items the loop visits. *)
Definition iter (x : value) : result (list value) :=
  match x with
  | VStr s => Ok (chars s)
  | VList l => Ok l
  | VDict d => Ok (map (fun kv => VStr (fst kv)) d)
  | _ => Raise TypeError
  end.

(** [float(z)] for an int: the nearest binary64 number, ties to even;
    [OverflowError] when that would be infinite. *)
Definition float_of_Z (z : Z) : result float :=
  match binary_normalize 53 1024 z 0 false with
  | S754_infinity _ => Raise OverflowError
  | sf => Ok (SF2Prim sf)
  end.

(** [int(f)] for a float: truncation towards zero. *)
Definition Z_of_float (f : float) : result Z :=
  match Prim2SF f with
  | S754_zero _ => Ok 0
  | S754_finite s m e =>
      let a := Z.shiftl (Z.pos m) e in
      Ok (if s then - a else a)
  | S754_infinity _ => Raise OverflowError
  | S754_nan => Raise ValueError
  end.

(** The library calls whose behaviour the sources do not fix: how Python
    reads a str as an int or as a float, and how numpy casts one element
    (a number, a bool, [None], a str, a dict) to [float32]. *)
Record externals : Type := {
  int_of_str : string -> result Z;
  float_of_str : string -> result float;
  np_float32 : value -> result float
}.

Section Builtins.
Variable E : externals.

(** [int(x)] *)
Definition py_int (x : value) : result Z :=
  match x with
  | VInt z => Ok z
  | VBool b => Ok (if b then 1 else 0)
  | VFloat f => Z_of_float f
  | VStr s => int_of_str E s
  | VNone | VList _ | VDict _ => Raise TypeError
  end.

(** [float(x)] *)
Definition py_float (x : value) : result float :=
  match x with
  | VFloat f => Ok f
  | VInt z => float_of_Z z
  | VBool b => Ok (if b then 1%float else 0%float)
  | VStr s => float_of_str E s
  | VNone | VList _ | VDict _ => Raise TypeError
  end.
End Builtins.

(** [np.isnan(x) or np.isinf(x)] on a float. *)
Definition isnan (x : float) : bool := PrimFloat.is_nan x.
Definition isinf (x : float) : bool := PrimFloat.is_infinity x.

(** [x > y] and [x == y] on floats. *)
Definition fgt (x y : float) : bool := PrimFloat.ltb y x.
Definition feq (x y : float) : bool := PrimFloat.eqb x y.

(** [l[a:b]] with Python's reading of negative and out-of-range bounds. *)
Definition clamp_index (n i : Z) : Z :=
  if i <? 0 then Z.max (i + n) 0 else Z.min i n.

Definition slice {A : Type} (l : list A) (a b : Z) : list A :=
  let n := Z.of_nat (List.length l) in
  let lo := clamp_index n a in
  let hi := clamp_index n b in
  firstn (Z.to_nat (hi - lo)) (skipn (Z.to_nat lo) l).

(** [range(a, b)] *)
Definition range (a b : Z) : list Z :=
  map (fun k => a + Z.of_nat k) (seq 0 (Z.to_nat (b - a))).

(** [l[-1]] *)
Definition last_item {A : Type} (l : list A) : result A :=
  match rev l with
  | [] => Raise IndexError
  | x :: _ => Ok x
  end.

End Py.

(* ================================================================== *)
(** * The sqlite store ([database/db.py] and the tables the queries name) *)
(* ================================================================== *)

Module db.

(** Modelled from the spec: [schema.sql] is not among the sources.  The
    columns are the ones the SQL statements of the sources name; the
    identifiers and scores are integers, dates and game identifiers are
    text.  [INSERT OR REPLACE] is an upsert "keyed by (team_id, game_id)"
    for the two derived tables. *)
Record game_row : Type := {
  game_id : string;
  game_date : string;
  season : string;
  home_team_id : Z;
  away_team_id : Z;
  home_team_abbr : string;
  away_team_abbr : string;
  home_score : Z;
  away_score : Z;
  raw_json : Py.json_text
}.

Record feature_row : Type := {
  f_team_id : Z;
  f_game_id : string;
  f_game_date : string;
  feature_vector_json : Py.json_text
}.

Record sequence_row : Type := {
  s_team_id : Z;
  s_game_id : string;
  sequence_json : Py.json_text
}.

Record database : Type := {
  games : list game_row;
  team_features : list feature_row;
  team_sequences : list sequence_row
}.

(** [ORDER BY game_date, game_id]: text compares byte by byte. *)
Definition date_id_leb (k1 k2 : string * string) : bool :=
  match String.compare (fst k1) (fst k2) with
  | Lt => true
  | Eq => String.leb (snd k1) (snd k2)
  | Gt => false
  end.

Section OrderBy.
Context {A K : Type} (key : A -> K) (leb : K -> K -> bool).

Fixpoint insert (x : A) (l : list A) : list A :=
  match l with
  | [] => [x]
  | y :: rest =>
      if leb (key x) (key y) then x :: l else y :: insert x rest
  end.

(** Rows in ascending key order; rows of equal key keep their order. *)
Definition order_by (l : list A) : list A := fold_right insert [] l.
End OrderBy.

Definition game_key (g : game_row) : string * string :=
  (game_date g, game_id g).

Definition feature_key (r : feature_row) : string * string :=
  (f_game_date r, f_game_id r).

(** [SELECT ... FROM games ORDER BY game_date, game_id] *)
Definition select_games (d : database) : list game_row :=
  order_by game_key date_id_leb (games d).

(** [SELECT game_id, game_date, feature_vector_json FROM team_features
     WHERE team_id = ? ORDER BY game_date, game_id] *)
Definition select_team_features (d : database) (team_id : Z) : list feature_row :=
  order_by feature_key date_id_leb
    (filter (fun r => f_team_id r =? team_id) (team_features d)).

(** [SELECT DISTINCT team_id FROM team_features ORDER BY team_id] *)
Definition select_team_ids (d : database) : list Z :=
  order_by (fun z => z) Z.leb (nodup Z.eq_dec (map f_team_id (team_features d))).

Definition same_sequence_key (team_id : Z) (gid : string) (r : sequence_row) : bool :=
  (s_team_id r =? team_id) && String.eqb (s_game_id r) gid.

Definition same_feature_key (team_id : Z) (gid : string) (r : feature_row) : bool :=
  (f_team_id r =? team_id) && String.eqb (f_game_id r) gid.

(** [SELECT sequence_json FROM team_sequences WHERE team_id = ? AND
     game_id = ?] followed by [fetchone()]. *)
Definition select_sequence (d : database) (team_id : Z) (gid : string)
  : option sequence_row :=
  find (same_sequence_key team_id gid) (team_sequences d).

(** [INSERT OR REPLACE INTO team_features ...] *)
Definition upsert_feature (r : feature_row) (t : list feature_row) : list feature_row :=
  filter (fun r' => negb (same_feature_key (f_team_id r) (f_game_id r) r')) t ++ [r].

(** [INSERT OR REPLACE INTO team_sequences ...] *)
Definition upsert_sequence (r : sequence_row) (t : list sequence_row) : list sequence_row :=
  filter (fun r' => negb (same_sequence_key (s_team_id r) (s_game_id r) r')) t ++ [r].

(** [initialize_db()]: the three tables are dropped and created again by
    the schema script, so they are empty. *)
Definition initialize_db : database :=
  {| games := []; team_features := []; team_sequences := [] |}.

End db.

(* ================================================================== *)
(** * [features/extract_features.py] *)
(* ================================================================== *)

Module extract_features.
Import Py db.

(** [safe_divide(numerator, denominator, default=0.0)] *)
Definition safe_divide (numerator denominator default : float) : float :=
  if feq denominator 0 || isnan denominator || isnan numerator
  then default
  else (numerator / denominator)%float.

(** [int(entry.get("TEAM_ID", 0))] *)
Definition entry_team_id (E : externals) (entry : value) : result Z :=
  v <- get entry "TEAM_ID" (VInt 0) ;; py_int E v.

(** The loop of lines 46-50: the last entry whose id is [team_id] becomes
    [team_entry]; an entry of another id equal to [opponent_id] becomes
    [opp_entry]. *)
Fixpoint find_entries (E : externals) (entries : list value)
    (team_id opponent_id : Z) (team_entry opp_entry : option value)
  : result (option value * option value) :=
  match entries with
  | [] => Ok (team_entry, opp_entry)
  | entry :: rest =>
      tid <- entry_team_id E entry ;;
      if tid =? team_id
      then find_entries E rest team_id opponent_id (Some entry) opp_entry
      else
        tid' <- entry_team_id E entry ;;
        if tid' =? opponent_id
        then find_entries E rest team_id opponent_id team_entry (Some entry)
        else find_entries E rest team_id opponent_id team_entry opp_entry
  end.

(** [float(entry.get(key, default))] *)
Definition stat (E : externals) (entry : value) (key : string) (default : Z)
  : result float :=
  v <- get entry key (VInt default) ;; py_float E v.

(** The local variables that lines 56-82 read from the two entries;
    [min_read] is [float(team_entry.get("MIN", 48))] before its default is
    applied. *)
Record locals : Type := {
  pts : float; fgm : float; fga : float; fg3m : float; fg3a : float;
  ftm : float; fta : float; ast : float; tov : float; oreb : float;
  dreb : float; reb : float; stl : float; blk : float; pf : float;
  plus_minus : float;
  opp_fgm : float; opp_fga : float; opp_fta : float; opp_oreb : float;
  opp_tov : float; opp_pts : float;
  min_read : float
}.

Definition read_locals (E : externals) (team_entry opp_entry : value)
  : result locals :=
  pts <- stat E team_entry "PTS" 0 ;;
  fgm <- stat E team_entry "FGM" 0 ;;
  fga <- stat E team_entry "FGA" 0 ;;
  fg3m <- stat E team_entry "FG3M" 0 ;;
  fg3a <- stat E team_entry "FG3A" 0 ;;
  ftm <- stat E team_entry "FTM" 0 ;;
  fta <- stat E team_entry "FTA" 0 ;;
  ast <- stat E team_entry "AST" 0 ;;
  tov <- stat E team_entry "TOV" 0 ;;
  oreb <- stat E team_entry "OREB" 0 ;;
  dreb <- stat E team_entry "DREB" 0 ;;
  reb <- stat E team_entry "REB" 0 ;;
  stl <- stat E team_entry "STL" 0 ;;
  blk <- stat E team_entry "BLK" 0 ;;
  pf <- stat E team_entry "PF" 0 ;;
  plus_minus <- stat E team_entry "PLUS_MINUS" 0 ;;
  opp_fgm <- stat E opp_entry "FGM" 0 ;;
  opp_fga <- stat E opp_entry "FGA" 0 ;;
  opp_fta <- stat E opp_entry "FTA" 0 ;;
  opp_oreb <- stat E opp_entry "OREB" 0 ;;
  opp_tov <- stat E opp_entry "TOV" 0 ;;
  opp_pts <- stat E opp_entry "PTS" 0 ;;
  min_read <- stat E team_entry "MIN" 48 ;;
  Ok {| pts := pts; fgm := fgm; fga := fga; fg3m := fg3m; fg3a := fg3a;
        ftm := ftm; fta := fta; ast := ast; tov := tov; oreb := oreb;
        dreb := dreb; reb := reb; stl := stl; blk := blk; pf := pf;
        plus_minus := plus_minus;
        opp_fgm := opp_fgm; opp_fga := opp_fga; opp_fta := opp_fta;
        opp_oreb := opp_oreb; opp_tov := opp_tov; opp_pts := opp_pts;
        min_read := min_read |}.

Section Derived.
Local Open Scope float_scope.
Variable s : locals.

(** Lines 83-84. *)
Definition min_played : float :=
  if feq (min_read s) 0 || isnan (min_read s) then 48 else min_read s.

(** Lines 87-91. *)
Definition fg_pct : float := safe_divide (fgm s) (fga s) 0.
Definition fg3_pct : float := safe_divide (fg3m s) (fg3a s) 0.
Definition ft_pct : float := safe_divide (ftm s) (fta s) 0.
Definition efg_pct : float :=
  if fgt (fga s) 0 then safe_divide (fgm s + 0.5 * fg3m s) (fga s) 0 else 0.
Definition ts_pct : float :=
  if fgt (fga s + 0.44 * fta s) 0
  then safe_divide (pts s) (2 * (fga s + 0.44 * fta s)) 0
  else 0.

(** Lines 103-106. *)
Definition team_poss : float := fga s + 0.4 * fta s - oreb s + tov s.
Definition opp_poss : float :=
  opp_fga s + 0.4 * opp_fta s - opp_oreb s + opp_tov s.
Definition poss : float := 0.5 * (team_poss + opp_poss).
Definition pace : float :=
  if fgt min_played 0 then poss * (48 / min_played) else 0.

(** Line 143: [0.0 if (np.isnan(x) or np.isinf(x)) else float(x)] *)
Definition sanitize (x : float) : float :=
  if isnan x || isinf x then 0 else x.

(** Lines 113-143: the 20 base features. *)
Definition feature_vector_of : list float :=
  map sanitize
    [ pts s; fg_pct; fg3_pct; ft_pct; efg_pct; ts_pct;
      fga s; fg3a s; fta s; ast s; tov s;
      oreb s; dreb s; reb s;
      stl s; blk s; pf s;
      poss; pace;
      plus_minus s ].
End Derived.

(** The dict the function returns. *)
Record extracted : Type := {
  feature_vector : list float;
  x_pts : float;
  x_opp_pts : float
}.

Definition extract_body (E : externals) (raw_json_str : json_text)
    (team_id opponent_id : Z) : result (option extracted) :=
  match json_loads raw_json_str with
  | None => Raise ValueError
  | Some entries =>
      n <- len entries ;;
      if negb (n =? 2) then Ok None
      else
        items <- iter entries ;;
        found <- find_entries E items team_id opponent_id None None ;;
        match found with
        | (Some team_entry, Some opp_entry) =>
            s <- read_locals E team_entry opp_entry ;;
            Ok (Some {| feature_vector := feature_vector_of s;
                        x_pts := pts s;
                        x_opp_pts := opp_pts s |})
        | _ => Ok None
        end
  end.

(** [extract_features_from_raw_json(raw_json_str, team_id, opponent_id)]:
    every exception of the body is caught and turned into [None]. *)
Definition extract_features_from_raw_json (E : externals)
    (raw_json_str : json_text) (team_id opponent_id : Z) : option extracted :=
  catch_all (extract_body E raw_json_str team_id opponent_id).

(** [1.0 if a > b else 0.0] on two scores. *)
Definition win_flag (a b : Z) : float :=
  if a >? b then 1%float else 0%float.

(** The row the loop body stores for the home team (lines 186-204), when
    extraction gives a result. *)
Definition home_feature_row (E : externals) (g : game_row) : option feature_row :=
  match extract_features_from_raw_json E (raw_json g) (home_team_id g) (away_team_id g) with
  | Some home_features =>
      let home_feature_vec :=
        feature_vector home_features
          ++ [1%float; win_flag (home_score g) (away_score g)] in
      Some {| f_team_id := home_team_id g;
              f_game_id := game_id g;
              f_game_date := game_date g;
              feature_vector_json := json_dumps (VList (map VFloat home_feature_vec)) |}
  | None => None
  end.

(** The row stored for the away team (lines 209-227). *)
Definition away_feature_row (E : externals) (g : game_row) : option feature_row :=
  match extract_features_from_raw_json E (raw_json g) (away_team_id g) (home_team_id g) with
  | Some away_features =>
      let away_feature_vec :=
        feature_vector away_features
          ++ [0%float; win_flag (away_score g) (home_score g)] in
      Some {| f_team_id := away_team_id g;
              f_game_id := game_id g;
              f_game_date := game_date g;
              feature_vector_json := json_dumps (VList (map VFloat away_feature_vec)) |}
  | None => None
  end.

(** The state of the loop of [extract_all_features]: the table inside the
    open transaction and the two counters. *)
Record extraction_state : Type := {
  features_table : list feature_row;
  inserted : Z;
  skipped : Z
}.

Definition store_or_skip (r : option feature_row) (st : extraction_state)
  : extraction_state :=
  match r with
  | Some row =>
      {| features_table := upsert_feature row (features_table st);
         inserted := inserted st + 1;
         skipped := skipped st |}
  | None =>
      {| features_table := features_table st;
         inserted := inserted st;
         skipped := skipped st + 1 |}
  end.

Definition extract_game (E : externals) (st : extraction_state) (g : game_row)
  : extraction_state :=
  store_or_skip (away_feature_row E g) (store_or_skip (home_feature_row E g) st).

(** [extract_all_features()]: the store after the commit, and the counters
    the function prints. *)
Definition extract_all_features (E : externals) (d : database)
  : database * (Z * Z) :=
  let st :=
    fold_left (extract_game E) (select_games d)
      {| features_table := team_features d; inserted := 0; skipped := 0 |} in
  ({| games := games d;
      team_features := features_table st;
      team_sequences := team_sequences d |},
   (inserted st, skipped st)).

End extract_features.

(* ================================================================== *)
(** * [features/build_sequences.py] *)
(* ================================================================== *)

Module build_sequences.
Import Py db.

(** What one call of [build_sequences_for_team] did: the value it returned
    or the exception that left it, the [INSERT OR REPLACE] statements it
    executed, in order, and whether it reached [conn.commit()].  A
    connection closed or dropped before the commit loses its inserts. *)
Record run : Type := {
  returned : result Z;
  executed : list sequence_row;
  committed : bool
}.

(** The loop of lines 52-60 over the games of one window; [None] when a
    [json.loads] raises and the [except] branch is taken. *)
Fixpoint parse_window (window_games : list feature_row)
    (sequence : list value) (game_ids_in_sequence : list string)
  : option (list value * list string) :=
  match window_games with
  | [] => Some (sequence, game_ids_in_sequence)
  | g :: rest =>
      match json_loads (feature_vector_json g) with
      | Some feature_vec =>
          parse_window rest (sequence ++ [feature_vec])
            (game_ids_in_sequence ++ [f_game_id g])
      | None => None
      end
  end.

(** [[len(fv) for fv in sequence]] *)
Fixpoint feature_lengths (sequence : list value) : result (list Z) :=
  match sequence with
  | [] => Ok []
  | fv :: rest =>
      n <- len fv ;;
      ns <- feature_lengths rest ;;
      Ok (n :: ns)
  end.

(** [len(set(ns))] *)
Definition distinct_count (ns : list Z) : Z :=
  Z.of_nat (List.length (nodup Z.eq_dec ns)).

(** The loop of lines 44-85 over the remaining values of [i]. *)
Fixpoint windows_loop (team_id window_size : Z) (games : list feature_row)
    (indices : list Z) (sequences_created : Z) (done : list sequence_row)
  : run :=
  match indices with
  | [] =>
      {| returned := Ok sequences_created; executed := done; committed := true |}
  | i :: rest =>
      let window_games := slice games (i - window_size + 1) (i + 1) in
      match parse_window window_games [] [] with
      | None =>
          (* except: conn.close(); return sequences_created *)
          {| returned := Ok sequences_created; executed := done; committed := false |}
      | Some (sequence, game_ids_in_sequence) =>
          if negb (Z.of_nat (List.length sequence) =? window_size)
          then windows_loop team_id window_size games rest sequences_created done
          else
            match feature_lengths sequence with
            | Raise e =>
                {| returned := Raise e; executed := done; committed := false |}
            | Ok lengths =>
                if negb (distinct_count lengths =? 1)
                then
                  (* the warning prints game_ids_in_sequence[-1] *)
                  match last_item game_ids_in_sequence with
                  | Raise e =>
                      {| returned := Raise e; executed := done; committed := false |}
                  | Ok _ =>
                      windows_loop team_id window_size games rest sequences_created done
                  end
                else
                  match last_item game_ids_in_sequence with
                  | Raise e =>
                      {| returned := Raise e; executed := done; committed := false |}
                  | Ok current_game_id =>
                      windows_loop team_id window_size games rest
                        (sequences_created + 1)
                        (done ++ [ {| s_team_id := team_id;
                                      s_game_id := current_game_id;
                                      sequence_json := json_dumps (VList sequence) |} ])
                  end
            end
      end
  end.

(** [build_sequences_for_team(team_id, window_size)] on the store [d]. *)
Definition build_sequences_for_team (d : database) (team_id window_size : Z) : run :=
  let games := select_team_features d team_id in
  if Z.of_nat (List.length games) <? window_size
  then {| returned := Ok 0; executed := []; committed := false |}
  else
    windows_loop team_id window_size games
      (range (window_size - 1) (Z.of_nat (List.length games))) 0 [].

(** The store a call leaves behind. *)
Definition store_after (d : database) (r : run) : database :=
  if committed r
  then {| games := games d;
          team_features := team_features d;
          team_sequences :=
            fold_left (fun t row => upsert_sequence row t) (executed r)
              (team_sequences d) |}
  else d.

(** The counters of [build_all_sequences]. *)
Record totals : Type := {
  total_sequences : Z;
  teams_with_sequences : Z;
  teams_skipped : Z
}.

(** The loop of lines 114-124: an exception of a call leaves the loop. *)
Fixpoint teams_loop (window_size : Z) (team_ids : list Z) (d : database)
    (acc : totals) : database * result totals :=
  match team_ids with
  | [] => (d, Ok acc)
  | team_id :: rest =>
      let r := build_sequences_for_team d team_id window_size in
      match returned r with
      | Raise e => (store_after d r, Raise e)
      | Ok sequences =>
          teams_loop window_size rest (store_after d r)
            (if sequences >? 0
             then {| total_sequences := total_sequences acc + sequences;
                     teams_with_sequences := teams_with_sequences acc + 1;
                     teams_skipped := teams_skipped acc |}
             else {| total_sequences := total_sequences acc;
                     teams_with_sequences := teams_with_sequences acc;
                     teams_skipped := teams_skipped acc + 1 |})
      end
  end.

(** [build_all_sequences(window_size)] *)
Definition build_all_sequences (d : database) (window_size : Z)
  : database * result totals :=
  teams_loop window_size (select_team_ids d) d
    {| total_sequences := 0; teams_with_sequences := 0; teams_skipped := 0 |}.

End build_sequences.

(* ================================================================== *)
(** * [dataset/dataset_builder.py] *)
(* ================================================================== *)

Module dataset_builder.
Import Py db.

(** A numpy array of [float32]: its shape and its elements in row order. *)
Record ndarray : Type := {
  shape : list Z;
  data : list float
}.

Definition shape_eqb (s1 s2 : list Z) : bool :=
  if list_eq_dec Z.eq_dec s1 s2 then true else false.

(** [np.array(v, dtype=np.float32)] on a decoded JSON value: a list is an
    axis, whose items must all have one shape; anything else is one
    element.  numpy's limit on the number of axes is not modelled. *)
Fixpoint np_array (E : externals) (v : value) : result ndarray :=
  match v with
  | VList items =>
      arrays <-
        (fix each (l : list value) : result (list ndarray) :=
           match l with
           | [] => Ok []
           | x :: rest =>
               a <- np_array E x ;;
               others <- each rest ;;
               Ok (a :: others)
           end) items ;;
      match arrays with
      | [] => Ok {| shape := [0]; data := [] |}
      | a :: others =>
          if forallb (fun b => shape_eqb (shape b) (shape a)) others
          then Ok {| shape := Z.of_nat (List.length arrays) :: shape a;
                     data := List.concat (map data arrays) |}
          else Raise ValueError
      end
  | _ =>
      x <- np_float32 E v ;;
      Ok {| shape := []; data := [x] |}
  end.

(** [load_sequence(team_id, game_id)] *)
Definition load_sequence (E : externals) (d : database) (team_id : Z)
    (gid : string) : option ndarray :=
  match select_sequence d team_id gid with
  | None => None
  | Some row =>
      match json_loads (sequence_json row) with
      | None => None
      | Some sequence =>
          match np_array E sequence with
          | Ok a => Some a
          | Raise _ => None
          end
      end
  end.

(** One training sample (the dict of lines 115-126). *)
Record sample : Type := {
  sample_game_id : string;
  sample_game_date : string;
  sample_season : string;
  teamA_id : Z;
  teamB_id : Z;
  sequenceA : ndarray;
  sequenceB : ndarray;
  scoreA : Z;
  scoreB : Z;
  winA : Z
}.

(** The dict [skipped_reasons]. *)
Record skipped_reasons : Type := {
  no_home_sequence : Z;
  no_away_sequence : Z;
  invalid_sequence : Z
}.

(** The accumulator of the loop of lines 82-131. *)
Record batch : Type := {
  samples : list sample;
  skipped : Z;
  reasons : skipped_reasons
}.

Definition skip_no_home (b : batch) : batch :=
  {| samples := samples b;
     skipped := skipped b + 1;
     reasons := {| no_home_sequence := no_home_sequence (reasons b) + 1;
                   no_away_sequence := no_away_sequence (reasons b);
                   invalid_sequence := invalid_sequence (reasons b) |} |}.

Definition skip_no_away (b : batch) : batch :=
  {| samples := samples b;
     skipped := skipped b + 1;
     reasons := {| no_home_sequence := no_home_sequence (reasons b);
                   no_away_sequence := no_away_sequence (reasons b) + 1;
                   invalid_sequence := invalid_sequence (reasons b) |} |}.

Definition skip_invalid (b : batch) : batch :=
  {| samples := samples b;
     skipped := skipped b + 1;
     reasons := {| no_home_sequence := no_home_sequence (reasons b);
                   no_away_sequence := no_away_sequence (reasons b);
                   invalid_sequence := invalid_sequence (reasons b) + 1 |} |}.

(** [a.shape[0]] *)
Definition axis0 (a : ndarray) : Z := hd 0 (shape a).

(** [len(a.shape)] *)
Definition ndim (a : ndarray) : Z := Z.of_nat (List.length (shape a)).

(** The body of the loop for one game (lines 83-128). *)
Definition assemble (E : externals) (d : database) (b : batch) (g : game_row)
  : batch :=
  let home_sequence := load_sequence E d (home_team_id g) (game_id g) in
  let away_sequence := load_sequence E d (away_team_id g) (game_id g) in
  match home_sequence with
  | None => skip_no_home b
  | Some home_sequence =>
      match away_sequence with
      | None => skip_no_away b
      | Some away_sequence =>
          if negb (ndim home_sequence =? 2) || negb (ndim away_sequence =? 2)
          then skip_invalid b
          else if negb (axis0 home_sequence =? axis0 away_sequence)
          then skip_invalid b
          else
            let win_home := if home_score g >? away_score g then 1 else 0 in
            {| samples :=
                 samples b ++
                 [ {| sample_game_id := game_id g;
                      sample_game_date := game_date g;
                      sample_season := season g;
                      teamA_id := home_team_id g;
                      teamB_id := away_team_id g;
                      sequenceA := home_sequence;
                      sequenceB := away_sequence;
                      scoreA := home_score g;
                      scoreB := away_score g;
                      winA := win_home |} ];
               skipped := skipped b;
               reasons := reasons b |}
      end
  end.

Definition empty_batch : batch :=
  {| samples := [];
     skipped := 0;
     reasons := {| no_home_sequence := 0;
                   no_away_sequence := 0;
                   invalid_sequence := 0 |} |}.

(** [build_matchup_samples()]: the list it returns together with the
    counters it prints. *)
Definition build_matchup_samples (E : externals) (d : database) : batch :=
  fold_left (assemble E d) (select_games d) empty_batch.

(** *** The export step *)

(** [np.array(arrays, dtype=np.float32)] on a list of arrays: a new first
    axis when all the arrays have one shape. *)
Definition np_stack (arrays : list ndarray) : result ndarray :=
  match arrays with
  | [] => Ok {| shape := [0]; data := [] |}
  | a :: others =>
      if forallb (fun b => shape_eqb (shape b) (shape a)) others
      then Ok {| shape := Z.of_nat (List.length arrays) :: shape a;
                 data := List.concat (map data arrays) |}
      else Raise ValueError
  end.

Fixpoint cast_ints (E : externals) (zs : list Z) : result (list float) :=
  match zs with
  | [] => Ok []
  | z :: rest =>
      x <- np_float32 E (VInt z) ;;
      xs <- cast_ints E rest ;;
      Ok (x :: xs)
  end.

(** [np.array(zs, dtype=np.float32).reshape(-1, 1)] on a list of ints. *)
Definition np_column (E : externals) (zs : list Z) : result ndarray :=
  xs <- cast_ints E zs ;;
  Ok {| shape := [Z.of_nat (List.length zs); 1]; data := xs |}.

(** [np.nan_to_num(a, nan=0.0, posinf=0.0, neginf=0.0)] *)
Definition nan_to_num (a : ndarray) : ndarray :=
  {| shape := shape a;
     data := map (fun x => if isnan x || isinf x then 0%float else x) (data a) |}.

(** [a.shape[i]] *)
Definition shape_at (a : ndarray) (i : nat) : result Z :=
  match nth_error (shape a) i with
  | Some n => Ok n
  | None => Raise IndexError
  end.

(** The dict [convert_to_tensors] returns; [torch.from_numpy] keeps the
    shape and the elements of an array. *)
Record tensor_dict : Type := {
  t_sequenceA : ndarray;
  t_sequenceB : ndarray;
  t_scoreA : ndarray;
  t_scoreB : ndarray;
  t_winA : ndarray;
  num_samples : Z;
  sequence_shape : list Z;
  num_features : Z
}.

(** [convert_to_tensors(samples)] *)
Definition convert_to_tensors (E : externals) (l : list sample)
  : result tensor_dict :=
  sequences_a <- np_stack (map sequenceA l) ;;
  sequences_b <- np_stack (map sequenceB l) ;;
  scores_a <- np_column E (map scoreA l) ;;
  scores_b <- np_column E (map scoreB l) ;;
  wins_a <- np_column E (map winA l) ;;
  let sequences_a := nan_to_num sequences_a in
  let sequences_b := nan_to_num sequences_b in
  features <- shape_at sequences_a 2 ;;
  Ok {| t_sequenceA := sequences_a;
        t_sequenceB := sequences_b;
        t_scoreA := scores_a;
        t_scoreB := scores_b;
        t_winA := wins_a;
        num_samples := Z.of_nat (List.length l);
        sequence_shape := tl (shape sequences_a);
        num_features := features |}.

(** *** Saving *)

(** The file-system calls of [save_dataset], whose outcome the sources do
    not fix; each returns or raises ([OSError] stands for the class and its
    subclasses, such as [FileNotFoundError]).  [dirname] is
    [os.path.dirname], [makedirs p] is [os.makedirs(p, exist_ok=True)],
    [torch_save t p] is [torch.save(t, p)] and [getsize] is
    [os.path.getsize]. *)
Record file_system : Type := {
  dirname : string -> string;
  makedirs : string -> result unit;
  torch_save : tensor_dict -> string -> result unit;
  getsize : string -> result Z
}.

(** [save_dataset(tensor_dict, output_path)] *)
Definition save_dataset (F : file_system) (t : tensor_dict)
    (output_path : string) : result unit :=
  made <- makedirs F (dirname F output_path) ;;
  saved <- torch_save F t output_path ;;
  size <- getsize F output_path ;;
  Ok tt.

(** The default of [main]'s parameter. *)
Definition default_output_path : string := "data/processed/training_data.pt".

(** [main(output_path)].  The Python function returns nothing; the model
    returns the dict that was saved, and [None] when no sample was built
    and nothing is saved. *)
Definition main (E : externals) (F : file_system) (d : database)
    (output_path : string) : result (option tensor_dict) :=
  let l := samples (build_matchup_samples E d) in
  if Z.of_nat (List.length l) =? 0
  then Ok None
  else
    tensors <- convert_to_tensors E l ;;
    saved <- save_dataset F tensors output_path ;;
    Ok (Some tensors).

End dataset_builder.

(* ================================================================== *)
(** * Properties *)
(* ================================================================== *)

(** ** Rows returned by an [ORDER BY] query *)

Module OrderByFacts.
Import db.

Section Facts.
Context {A K : Type} (key : A -> K) (leb : K -> K -> bool).

Definition ascending (x y : A) : Prop := leb (key x) (key y) = true.

Lemma insert_perm (x : A) (l : list A) :
  Permutation (x :: l) (insert key leb x l).
Proof.
  induction l as [|y l IH]; simpl.
  - apply Permutation_refl.
  - destruct (leb (key x) (key y)).
    + apply Permutation_refl.
    + eapply Permutation_trans; [apply perm_swap|].
      now apply perm_skip.
Qed.

Lemma order_by_perm (l : list A) : Permutation l (order_by key leb l).
Proof.
  induction l as [|x l IH]; simpl.
  - constructor.
  - eapply Permutation_trans; [|apply insert_perm].
    now apply perm_skip.
Qed.

Lemma order_by_In (l : list A) (x : A) : In x (order_by key leb l) <-> In x l.
Proof.
  split; intro H.
  - eapply Permutation_in; [apply Permutation_sym, order_by_perm|exact H].
  - eapply Permutation_in; [apply order_by_perm|exact H].
Qed.

Lemma order_by_length (l : list A) :
  List.length (order_by key leb l) = List.length l.
Proof. symmetry. apply Permutation_length, order_by_perm. Qed.

Hypothesis leb_total : forall a b, leb a b = true \/ leb b a = true.

Lemma insert_hd (a x : A) (l : list A) :
  ascending a x -> HdRel ascending a l -> HdRel ascending a (insert key leb x l).
Proof.
  intros Hax Hl. destruct l as [|y l]; simpl.
  - now constructor.
  - destruct (leb (key x) (key y)); constructor; trivial.
    now inversion Hl.
Qed.

Lemma insert_sorted (x : A) (l : list A) :
  Sorted ascending l -> Sorted ascending (insert key leb x l).
Proof.
  induction 1 as [|y l Hs IH Hhd]; simpl.
  - repeat constructor.
  - destruct (leb (key x) (key y)) eqn:Hxy.
    + constructor; [now constructor|now constructor].
    + constructor; [exact IH|].
      apply insert_hd; [|exact Hhd].
      destruct (leb_total (key x) (key y)) as [H|H]; [congruence|exact H].
Qed.

Lemma order_by_sorted (l : list A) : Sorted ascending (order_by key leb l).
Proof.
  induction l as [|x l IH]; simpl.
  - constructor.
  - now apply insert_sorted.
Qed.
End Facts.

Lemma Sorted_skipn {A : Type} (R : A -> A -> Prop) (n : nat) (l : list A) :
  Sorted R l -> Sorted R (skipn n l).
Proof.
  revert l. induction n as [|n IH]; intros l Hl; simpl.
  - exact Hl.
  - destruct l as [|x l]; [constructor|].
    apply IH. now inversion Hl.
Qed.

Lemma date_id_leb_total (a b : string * string) :
  date_id_leb a b = true \/ date_id_leb b a = true.
Proof.
  unfold date_id_leb.
  pose proof (String.compare_antisym (fst a) (fst b)) as Hanti.
  destruct (String.compare (fst b) (fst a)) eqn:Hc;
    rewrite Hanti; simpl; auto.
  apply String.leb_total.
Qed.

Lemma select_games_In (d : database) (g : game_row) :
  In g (select_games d) <-> In g (games d).
Proof. apply order_by_In. Qed.

Lemma select_team_features_sorted (d : database) (team_id : Z) :
  Sorted (ascending feature_key date_id_leb) (select_team_features d team_id).
Proof. apply order_by_sorted, date_id_leb_total. Qed.

Lemma select_team_features_In (d : database) (team_id : Z) (r : feature_row) :
  In r (select_team_features d team_id) <->
  In r (team_features d) /\ f_team_id r = team_id.
Proof.
  unfold select_team_features. rewrite order_by_In, filter_In.
  now rewrite Z.eqb_eq.
Qed.

End OrderByFacts.

(** ** A loop that threads an accumulator *)

Lemma fold_left_preserves {A B : Type} (f : A -> B -> A) (P : A -> Prop)
    (l : list B) (a : A) :
  P a -> (forall a' x, In x l -> P a' -> P (f a' x)) -> P (fold_left f l a).
Proof.
  revert a. induction l as [|x l IH]; intros a Ha Hstep; simpl.
  - exact Ha.
  - apply IH.
    + apply Hstep; [now left|exact Ha].
    + intros a' y Hy. apply Hstep. now right.
Qed.

Lemma fold_left_agree {A B : Type} (f g : A -> B -> A) (l : list B) (a : A) :
  (forall a' x, f a' x = g a' x) -> fold_left f l a = fold_left g l a.
Proof.
  intro H. revert a. induction l as [|x l IH]; intro a; simpl.
  - reflexivity.
  - now rewrite H, IH.
Qed.

(** An instance of the library calls for inputs that hold no str, whose
    sequence elements are floats that [float32] represents exactly. *)
Definition plain_externals : Py.externals :=
  {| Py.int_of_str := fun _ => Py.Raise Py.ValueError;
     Py.float_of_str := fun _ => Py.Raise Py.ValueError;
     Py.np_float32 := fun v =>
       match v with
       | Py.VFloat f => Py.Ok f
       | _ => Py.Raise Py.TypeError
       end |}.

(** ** Matchup assembly *)

Module DatasetBuilderFacts.
Import Py db dataset_builder.

(** What an emitted sample records about the game it was built from. *)
Definition sample_of_game (E : externals) (d : database) (g : game_row)
    (s : sample) : Prop :=
  load_sequence E d (home_team_id g) (game_id g) = Some (sequenceA s) /\
  load_sequence E d (away_team_id g) (game_id g) = Some (sequenceB s) /\
  ndim (sequenceA s) = 2 /\
  ndim (sequenceB s) = 2 /\
  axis0 (sequenceA s) = axis0 (sequenceB s) /\
  sample_game_id s = game_id g /\
  teamA_id s = home_team_id g /\
  teamB_id s = away_team_id g /\
  scoreA s = home_score g /\
  scoreB s = away_score g /\
  winA s = (if home_score g >? away_score g then 1 else 0).

Lemma assemble_samples (E : externals) (d : database) (b : batch)
    (g : game_row) (s : sample) :
  In s (samples (assemble E d b g)) ->
  In s (samples b) \/ sample_of_game E d g s.
Proof.
  unfold assemble.
  destruct (load_sequence E d (home_team_id g) (game_id g)) as [h|] eqn:Hh;
    [|now left].
  destruct (load_sequence E d (away_team_id g) (game_id g)) as [a|] eqn:Ha;
    [|now left].
  destruct (negb (ndim h =? 2) || negb (ndim a =? 2)) eqn:Hdim; [now left|].
  destruct (negb (axis0 h =? axis0 a)) eqn:Hax; [now left|].
  simpl. intro Hin. apply in_app_or in Hin. destruct Hin as [Hin|[<-|[]]].
  - now left.
  - right. apply orb_false_elim in Hdim. destruct Hdim as [Hdh Hda].
    apply negb_false_iff, Z.eqb_eq in Hdh, Hda, Hax.
    unfold sample_of_game; simpl. repeat split; assumption.
Qed.

Lemma build_samples_of_games (E : externals) (d : database) (s : sample) :
  In s (samples (build_matchup_samples E d)) ->
  exists g, In g (games d) /\ sample_of_game E d g s.
Proof.
  unfold build_matchup_samples.
  apply (fold_left_preserves (assemble E d)
           (fun b => In s (samples b) ->
                     exists g, In g (games d) /\ sample_of_game E d g s)).
  - intros [].
  - intros b g Hg IH Hin. apply assemble_samples in Hin.
    destruct Hin as [Hin|Hs]; [now apply IH|].
    exists g. split; [|exact Hs]. now apply OrderByFacts.select_games_In.
Qed.

Lemma load_sequence_agree (E : externals) (d1 d2 : database) :
  (forall t gid, select_sequence d1 t gid = select_sequence d2 t gid) ->
  forall t gid, load_sequence E d1 t gid = load_sequence E d2 t gid.
Proof. intros H t gid. unfold load_sequence. now rewrite H. Qed.

(** A store with one game whose two teams each have a stored sequence of
    one time step of two features. *)
Definition one_step : json_text :=
  Some (VList [VList [VFloat 1; VFloat 2]]).

Definition game_110_108 : game_row :=
  {| game_id := "0022300001"; game_date := "2023-10-24"; season := "22023";
     home_team_id := 1610612747; away_team_id := 1610612743;
     home_team_abbr := "LAL"; away_team_abbr := "DEN";
     home_score := 110; away_score := 108;
     raw_json := None |}.

Definition store_110_108 : database :=
  {| games := [game_110_108];
     team_features := [];
     team_sequences :=
       [ {| s_team_id := 1610612747; s_game_id := "0022300001";
            sequence_json := one_step |};
         {| s_team_id := 1610612743; s_game_id := "0022300001";
            sequence_json := one_step |} ] |}.

Definition sample_110_108 : sample :=
  {| sample_game_id := "0022300001"; sample_game_date := "2023-10-24";
     sample_season := "22023";
     teamA_id := 1610612747; teamB_id := 1610612743;
     sequenceA := {| shape := [1; 2]; data := [1%float; 2%float] |};
     sequenceB := {| shape := [1; 2]; data := [1%float; 2%float] |};
     scoreA := 110; scoreB := 108; winA := 1 |}.

Example build_110_108 :
  samples (build_matchup_samples plain_externals store_110_108)
  = [sample_110_108].
Proof. vm_compute. reflexivity. Qed.

(** C1.  Label law: every sample that [build_matchup_samples] emits carries
    the two final scores of its game, [winA] is 1 exactly when the stored
    home score is strictly greater than the stored away score and 0
    otherwise; equal scores give label 0. *)
Theorem label_law (E : externals) (d : database) (s : sample) :
  In s (samples (build_matchup_samples E d)) ->
  (winA s = 1 <-> scoreA s > scoreB s) /\
  (scoreA s = scoreB s -> winA s = 0) /\
  (winA s = 0 \/ winA s = 1) /\
  exists g, In g (games d) /\ sample_game_id s = game_id g /\
            scoreA s = home_score g /\ scoreB s = away_score g.
Proof.
  intro Hin. apply build_samples_of_games in Hin.
  destruct Hin as (g & Hg & _ & _ & _ & _ & _ & Hid & _ & _ & HA & HB & Hw).
  rewrite Hw, HA, HB.
  destruct (home_score g >? away_score g) eqn:Hcmp.
  - apply Z.gtb_gt in Hcmp.
    repeat split; try lia; eauto.
  - assert (~ home_score g > away_score g) as Hle
        by (intro Hgt; apply Z.gtb_gt in Hgt; congruence).
    repeat split; try lia; eauto.
Qed.

Lemma label_law_witness :
  (winA sample_110_108 = 1 <-> scoreA sample_110_108 > scoreB sample_110_108) /\
  (scoreA sample_110_108 = scoreB sample_110_108 -> winA sample_110_108 = 0) /\
  (winA sample_110_108 = 0 \/ winA sample_110_108 = 1) /\
  exists g, In g (games store_110_108) /\
            sample_game_id sample_110_108 = game_id g /\
            scoreA sample_110_108 = home_score g /\
            scoreB sample_110_108 = away_score g.
Proof.
  apply (label_law plain_externals store_110_108 sample_110_108).
  vm_compute. left. reflexivity.
Defined.

(** Equal final scores: the sample is labelled 0. *)
Example tie_is_not_a_home_win :
  let tie :=
    {| game_id := "0022300001"; game_date := "2023-10-24"; season := "22023";
       home_team_id := 1610612747; away_team_id := 1610612743;
       home_team_abbr := "LAL"; away_team_abbr := "DEN";
       home_score := 100; away_score := 100;
       raw_json := None |} in
  map winA
    (samples (build_matchup_samples plain_externals
                {| games := [tie];
                   team_features := [];
                   team_sequences := team_sequences store_110_108 |}))
  = [0].
Proof. vm_compute. reflexivity. Qed.

(** A game between the same two teams whose stored sequences have one time
    step each, of one feature for the home team and of two for the away
    team. *)
Definition store_uneven_arity : database :=
  {| games := [game_110_108];
     team_features := [];
     team_sequences :=
       [ {| s_team_id := 1610612747; s_game_id := "0022300001";
            sequence_json := Some (VList [VList [VFloat 1]]) |};
         {| s_team_id := 1610612743; s_game_id := "0022300001";
            sequence_json := one_step |} ] |}.

(** C3, as stated, fails: the two sequences of an emitted sample can differ
    in per-timestep arity.  Only the first axis is compared (line 106), so
    this game is emitted with a home sequence of shape (1, 1) and an away
    sequence of shape (1, 2), and nothing is counted as skipped. *)
Lemma shape_law_counterexample :
  let b := build_matchup_samples plain_externals store_uneven_arity in
  map (fun s => (shape (sequenceA s), shape (sequenceB s))) (samples b)
    = [([1; 1], [1; 2])] /\
  skipped b = 0 /\
  ~ (forall s, In s (samples b) -> shape (sequenceA s) = shape (sequenceB s)).
Proof.
  cbv zeta. split; [vm_compute; reflexivity|].
  split; [vm_compute; reflexivity|].
  intro H.
  specialize (H {| sample_game_id := "0022300001";
                   sample_game_date := "2023-10-24";
                   sample_season := "22023";
                   teamA_id := 1610612747; teamB_id := 1610612743;
                   sequenceA := {| shape := [1; 1]; data := [1%float] |};
                   sequenceB := {| shape := [1; 2]; data := [1%float; 2%float] |};
                   scoreA := 110; scoreB := 108; winA := 1 |}).
  simpl in H. discriminate H. vm_compute. left. reflexivity.
Qed.

(** A second store: the away team's stored sequence has two time steps,
    the home team's has one. *)
Definition store_uneven_window : database :=
  {| games := [game_110_108];
     team_features := [];
     team_sequences :=
       [ {| s_team_id := 1610612747; s_game_id := "0022300001";
            sequence_json := one_step |};
         {| s_team_id := 1610612743; s_game_id := "0022300001";
            sequence_json :=
              Some (VList [VList [VFloat 1; VFloat 2];
                           VList [VFloat 3; VFloat 4]]) |} ] |}.

(** C3, amended.  In every sample that [build_matchup_samples] emits, the
    two sequences are the ones stored for the home and the away team of the
    sample's game, both are two-dimensional, and they have the same window
    length (first axis).  A game whose two sequences load but are not both
    two-dimensional, or differ in window length, adds no sample and adds
    one to [skipped] and to the [invalid_sequence] counter.  Nothing
    compares the per-timestep arity of the two sequences. *)
Theorem shape_law (E : externals) (d : database) :
  (forall s, In s (samples (build_matchup_samples E d)) ->
     exists g, In g (games d) /\
       load_sequence E d (home_team_id g) (game_id g) = Some (sequenceA s) /\
       load_sequence E d (away_team_id g) (game_id g) = Some (sequenceB s) /\
       ndim (sequenceA s) = 2 /\ ndim (sequenceB s) = 2 /\
       axis0 (sequenceA s) = axis0 (sequenceB s)) /\
  (forall b g h a,
     load_sequence E d (home_team_id g) (game_id g) = Some h ->
     load_sequence E d (away_team_id g) (game_id g) = Some a ->
     ndim h <> 2 \/ ndim a <> 2 \/ axis0 h <> axis0 a ->
     assemble E d b g = skip_invalid b).
Proof.
  split.
  - intros s Hin. apply build_samples_of_games in Hin.
    destruct Hin as (g & Hg & HlA & HlB & HdA & HdB & Hax & _).
    exists g. repeat split; assumption.
  - intros b g h a Hh Ha Hbad. unfold assemble. rewrite Hh, Ha.
    destruct (negb (ndim h =? 2) || negb (ndim a =? 2)) eqn:Hdim; [reflexivity|].
    destruct (negb (axis0 h =? axis0 a)) eqn:Hax; [reflexivity|].
    apply orb_false_elim in Hdim. destruct Hdim as [Hdh Hda].
    apply negb_false_iff, Z.eqb_eq in Hdh, Hda, Hax.
    destruct Hbad as [Hbad|[Hbad|Hbad]]; contradiction.
Qed.

Lemma shape_law_witness :
  (exists g, In g (games store_110_108) /\
     load_sequence plain_externals store_110_108 (home_team_id g) (game_id g)
       = Some (sequenceA sample_110_108) /\
     load_sequence plain_externals store_110_108 (away_team_id g) (game_id g)
       = Some (sequenceB sample_110_108) /\
     ndim (sequenceA sample_110_108) = 2 /\
     ndim (sequenceB sample_110_108) = 2 /\
     axis0 (sequenceA sample_110_108) = axis0 (sequenceB sample_110_108)) /\
  assemble plain_externals store_uneven_window empty_batch game_110_108
    = skip_invalid empty_batch.
Proof.
  split.
  - apply (proj1 (shape_law plain_externals store_110_108) sample_110_108).
    vm_compute. left. reflexivity.
  - apply (proj2 (shape_law plain_externals store_uneven_window) empty_batch
             game_110_108
             {| shape := [1; 2]; data := [1%float; 2%float] |}
             {| shape := [2; 2]; data := [1%float; 2%float; 3%float; 4%float] |}).
    + vm_compute. reflexivity.
    + vm_compute. reflexivity.
    + right. right. vm_compute. discriminate.
Defined.

(** The batch depends on the store through the query of lines 61-67 and
    the lookups of [load_sequence] alone. *)
Lemma build_agree (E : externals) (d1 d2 : database) :
  select_games d1 = select_games d2 ->
  (forall t gid, select_sequence d1 t gid = select_sequence d2 t gid) ->
  build_matchup_samples E d1 = build_matchup_samples E d2.
Proof.
  intros Hg Hs. unfold build_matchup_samples. rewrite Hg.
  apply fold_left_agree. intros b g. unfold assemble.
  now rewrite !(load_sequence_agree E d1 d2 Hs).
Qed.

(** Every game ends in exactly one of the four outcomes, so the counters
    account for the whole batch. *)
Lemma batch_accounting (E : externals) (d : database) :
  let b := build_matchup_samples E d in
  skipped b = no_home_sequence (reasons b) + no_away_sequence (reasons b)
              + invalid_sequence (reasons b) /\
  Z.of_nat (List.length (samples b)) + skipped b
  = Z.of_nat (List.length (games d)).
Proof.
  cbv zeta. unfold build_matchup_samples.
  rewrite <- (OrderByFacts.order_by_length game_key date_id_leb (games d)).
  fold (select_games d).
  assert (forall l b0,
    skipped b0 = no_home_sequence (reasons b0) + no_away_sequence (reasons b0)
                 + invalid_sequence (reasons b0) ->
    let b := fold_left (assemble E d) l b0 in
    skipped b = no_home_sequence (reasons b) + no_away_sequence (reasons b)
                + invalid_sequence (reasons b) /\
    Z.of_nat (List.length (samples b)) + skipped b
    = Z.of_nat (List.length (samples b0)) + skipped b0
      + Z.of_nat (List.length l)) as Hgen.
  { induction l as [|g l IH]; intros b0 Hb0; cbv zeta; simpl fold_left.
    - split; [exact Hb0|simpl; lia].
    - assert (skipped (assemble E d b0 g)
              = no_home_sequence (reasons (assemble E d b0 g))
                + no_away_sequence (reasons (assemble E d b0 g))
                + invalid_sequence (reasons (assemble E d b0 g)) /\
              Z.of_nat (List.length (samples (assemble E d b0 g)))
              + skipped (assemble E d b0 g)
              = Z.of_nat (List.length (samples b0)) + skipped b0 + 1)
        as [Hs Hc].
      { unfold assemble.
        destruct (load_sequence E d (home_team_id g) (game_id g));
          [|simpl; lia].
        destruct (load_sequence E d (away_team_id g) (game_id g));
          [|simpl; lia].
        destruct (negb _ || negb _); [simpl; lia|].
        destruct (negb _); [simpl; lia|].
        simpl. rewrite length_app. simpl. lia. }
      destruct (IH _ Hs) as [H1 H2]. split; [exact H1|].
      rewrite H2, Hc. simpl List.length. lia. }
  destruct (Hgen (select_games d) empty_batch eq_refl) as [H1 H2].
  split; [exact H1|]. rewrite H2. simpl. lia.
Qed.

End DatasetBuilderFacts.

(** ** Floats *)

Module FloatFacts.
Import Py extract_features.

Definition finite (x : float) : Prop := isnan x = false /\ isinf x = false.

Lemma sanitize_finite (x : float) : finite (sanitize x).
Proof.
  unfold sanitize, finite.
  destruct (isnan x || isinf x) eqn:H.
  - split; reflexivity.
  - now apply orb_false_elim in H.
Qed.

Lemma sanitize_zero : sanitize 0 = 0%float.
Proof. reflexivity. Qed.

Lemma one_is_not_zero : 1%float <> 0%float.
Proof.
  intro H.
  assert (PrimFloat.eqb 1 1 = PrimFloat.eqb 0 1) as Hb by (now rewrite H).
  vm_compute in Hb. discriminate Hb.
Qed.

(** A float that is greater than zero is neither zero nor NaN. *)
Lemma positive_is_regular (x : float) :
  fgt x 0 = true -> feq x 0 = false /\ isnan x = false.
Proof.
  unfold fgt, feq, isnan, PrimFloat.is_nan.
  rewrite ltb_spec, !FloatAxioms.eqb_spec.
  change (Prim2SF 0) with (S754_zero false).
  unfold SFltb, SFeqb.
  destruct (Prim2SF x) as [s|s| |s m e]; simpl; try discriminate.
  - destruct s; simpl; try discriminate. auto.
  - destruct s; simpl; try discriminate. intros _.
    rewrite Z.compare_refl, Pos.compare_cont_refl. auto.
Qed.

Lemma safe_divide_zero_denominator (n d : float) :
  feq d 0 = true -> safe_divide n d 0 = 0%float.
Proof. intro H. unfold safe_divide. now rewrite H. Qed.

Lemma safe_divide_nan (n d : float) :
  isnan d = true \/ isnan n = true -> safe_divide n d 0 = 0%float.
Proof.
  intros [H|H]; unfold safe_divide; rewrite H;
    now rewrite ?orb_true_r.
Qed.

Lemma safe_divide_positive (n d : float) :
  fgt d 0 = true -> isnan n = false -> safe_divide n d 0 = (n / d)%float.
Proof.
  intros Hd Hn. apply positive_is_regular in Hd. destruct Hd as [Hz Hnan].
  unfold safe_divide. now rewrite Hz, Hnan, Hn.
Qed.

End FloatFacts.

(** ** Feature extraction *)

Module ExtractFeaturesFacts.
Import Py db extract_features FloatFacts.
Local Open Scope string_scope.
Local Open Scope list_scope.
Local Open Scope Z_scope.

(** A successful extraction went through every step of the body. *)
Lemma extract_some (E : externals) (raw : json_text) (t o : Z) (r : extracted) :
  extract_features_from_raw_json E raw t o = Some r ->
  exists entries items team_entry opp_entry s,
    raw = Some entries /\
    len entries = Ok 2 /\
    iter entries = Ok items /\
    find_entries E items t o None None = Ok (Some team_entry, Some opp_entry) /\
    read_locals E team_entry opp_entry = Ok s /\
    r = {| feature_vector := feature_vector_of s;
           x_pts := pts s; x_opp_pts := opp_pts s |}.
Proof.
  unfold extract_features_from_raw_json, extract_body, catch_all, json_loads.
  destruct raw as [entries|]; [|discriminate].
  destruct (len entries) as [n|] eqn:Hlen; simpl; [|discriminate].
  destruct (n =? 2) eqn:Hn; simpl; [|discriminate].
  apply Z.eqb_eq in Hn. subst n.
  destruct (iter entries) as [items|] eqn:Hit; simpl; [|discriminate].
  destruct (find_entries E items t o None None) as [[te oe]|] eqn:Hf; simpl;
    [|discriminate].
  destruct te as [te|]; [|discriminate].
  destruct oe as [oe|]; [|discriminate].
  destruct (read_locals E te oe) as [s|] eqn:Hs; simpl; [|discriminate].
  intro H. injection H as <-.
  exists entries, items, te, oe, s. repeat split; assumption.
Qed.

Lemma feature_vector_of_length (s : locals) :
  List.length (feature_vector_of s) = 20%nat.
Proof. reflexivity. Qed.

Lemma feature_vector_of_finite (s : locals) : Forall finite (feature_vector_of s).
Proof.
  unfold feature_vector_of. apply Forall_map, Forall_forall.
  intros x _. apply sanitize_finite.
Qed.

(** The entries the loop of lines 46-50 leaves in [team_entry] and
    [opp_entry] are records of the input that carry the identifier asked
    for. *)
Lemma find_entries_found (E : externals) (t o : Z) (items : list value) :
  forall te0 oe0 te oe,
    find_entries E items t o te0 oe0 = Ok (te, oe) ->
    (te = te0 \/
     exists e, te = Some e /\ In e items /\ entry_team_id E e = Ok t) /\
    (oe = oe0 \/
     exists e, oe = Some e /\ In e items /\ entry_team_id E e = Ok o).
Proof.
  induction items as [|entry rest IH]; intros te0 oe0 te oe; simpl.
  - intros [= <- <-]. split; now left.
  - destruct (entry_team_id E entry) as [z|] eqn:Hz; simpl; [|discriminate].
    destruct (z =? t) eqn:Hzt; [|destruct (z =? o) eqn:Hzo];
      intro H; apply IH in H; destruct H as [Hte Hoe].
    + apply Z.eqb_eq in Hzt. subst z. split.
      * right. destruct Hte as [->|(e & -> & He & Hid)].
        -- exists entry. repeat split; [now left|exact Hz].
        -- exists e. repeat split; [now right|exact Hid].
      * destruct Hoe as [->|(e & -> & He & Hid)]; [now left|].
        right. exists e. repeat split; [now right|exact Hid].
    + apply Z.eqb_eq in Hzo. subst z. split.
      * destruct Hte as [->|(e & -> & He & Hid)]; [now left|].
        right. exists e. repeat split; [now right|exact Hid].
      * right. destruct Hoe as [->|(e & -> & He & Hid)].
        -- exists entry. repeat split; [now left|exact Hz].
        -- exists e. repeat split; [now right|exact Hid].
    + split.
      * destruct Hte as [->|(e & -> & He & Hid)]; [now left|].
        right. exists e. repeat split; [now right|exact Hid].
      * destruct Hoe as [->|(e & -> & He & Hid)]; [now left|].
        right. exists e. repeat split; [now right|exact Hid].
Qed.

(** The statistics [s] are read from a record of the input [raw] that
    carries the side's identifier [t] and a record that carries the
    opponent's identifier [o], the input holding two items. *)
Definition read_from (E : externals) (raw : json_text) (t o : Z) (s : locals)
  : Prop :=
  exists entries items team_entry opp_entry,
    raw = Some entries /\
    len entries = Ok 2 /\
    iter entries = Ok items /\
    In team_entry items /\ entry_team_id E team_entry = Ok t /\
    In opp_entry items /\ entry_team_id E opp_entry = Ok o /\
    read_locals E team_entry opp_entry = Ok s.

Lemma extract_reads (E : externals) (raw : json_text) (t o : Z) (r : extracted) :
  extract_features_from_raw_json E raw t o = Some r ->
  exists s,
    read_from E raw t o s /\
    r = {| feature_vector := feature_vector_of s;
           x_pts := pts s; x_opp_pts := opp_pts s |}.
Proof.
  intro H. apply extract_some in H.
  destruct H as (entries & items & te & oe & s & Hraw & Hlen & Hit & Hf & Hs & ->).
  exists s. split; [|reflexivity].
  apply find_entries_found in Hf.
  destruct Hf as [[Hte|(e1 & Hte & Hin1 & Hid1)] [Hoe|(e2 & Hoe & Hin2 & Hid2)]];
    try discriminate.
  injection Hte as <-. injection Hoe as <-.
  exists entries, items, te, oe. repeat split; assumption.
Qed.

(** Two box-score records of one game. *)
Definition shooter : value :=
  VDict [("TEAM_ID", VInt 1610612747); ("PTS", VInt 3); ("FGM", VInt 1);
         ("FGA", VInt 1); ("FG3M", VInt 1); ("FG3A", VInt 1); ("MIN", VInt 48)].

Definition rival : value :=
  VDict [("TEAM_ID", VInt 1610612743); ("PTS", VInt 2); ("FGM", VInt 1);
         ("FGA", VInt 2); ("MIN", VInt 48)].

Definition shooter_features : extracted :=
  {| feature_vector :=
       [3; 1; 1; 0; 1.5; 1.5; 1; 1; 0; 0; 0; 0; 0; 0; 0; 0; 0; 1.5; 1.5; 0]%float;
     x_pts := 3; x_opp_pts := 2 |}.

Example extract_shooter :
  extract_features_from_raw_json plain_externals (Some (VList [shooter; rival]))
    1610612747 1610612743
  = Some shooter_features.
Proof. vm_compute. reflexivity. Qed.

(** C4, as stated, fails.  For a two-record game whose side made its one
    field-goal attempt, a three-pointer, extraction returns 20 fields, not
    22, and [efg_pct] and [ts_pct] are 1.5 although their denominators are
    positive. *)
Lemma percentages_counterexample :
  exists r,
    extract_features_from_raw_json plain_externals
      (Some (VList [shooter; rival])) 1610612747 1610612743 = Some r /\
    List.length (feature_vector r) = 20%nat /\
    nth 6 (feature_vector r) 0%float = 1%float /\
    nth 4 (feature_vector r) 0%float = 1.5%float /\
    nth 5 (feature_vector r) 0%float = 1.5%float /\
    fgt 1.5 1 = true.
Proof.
  exists shooter_features. repeat split; vm_compute; reflexivity.
Qed.

(** The rules the five percentages obey, in terms of the statistics [s]
    read from the records and the returned vector [v]. *)
Definition percentage_rules (s : locals) (v : list float) : Prop :=
  let field i := nth i v 0%float in
  (* fg_pct, fg3_pct, ft_pct: 0.0 on a zero denominator or a NaN operand *)
  (feq (fga s) 0 = true \/ isnan (fga s) = true \/ isnan (fgm s) = true ->
     field 1%nat = 0%float) /\
  (feq (fg3a s) 0 = true \/ isnan (fg3a s) = true \/ isnan (fg3m s) = true ->
     field 2%nat = 0%float) /\
  (feq (fta s) 0 = true \/ isnan (fta s) = true \/ isnan (ftm s) = true ->
     field 3%nat = 0%float) /\
  (* ... and the quotient, made finite, on a positive denominator *)
  (fgt (fga s) 0 = true -> isnan (fgm s) = false ->
     field 1%nat = sanitize (fgm s / fga s)) /\
  (fgt (fg3a s) 0 = true -> isnan (fg3m s) = false ->
     field 2%nat = sanitize (fg3m s / fg3a s)) /\
  (fgt (fta s) 0 = true -> isnan (ftm s) = false ->
     field 3%nat = sanitize (ftm s / fta s)) /\
  (* efg_pct and ts_pct: 0.0 unless the denominator is positive *)
  (fgt (fga s) 0 = false -> field 4%nat = 0%float) /\
  (fgt (fga s + 0.44 * fta s) 0 = false -> field 5%nat = 0%float) /\
  (fgt (fga s) 0 = true -> isnan (fgm s + 0.5 * fg3m s) = false ->
     field 4%nat = sanitize ((fgm s + 0.5 * fg3m s) / fga s)) /\
  (fgt (fga s + 0.44 * fta s) 0 = true ->
     field 5%nat
     = sanitize (safe_divide (pts s) (2 * (fga s + 0.44 * fta s)) 0)).

Lemma percentage_rules_hold (s : locals) : percentage_rules s (feature_vector_of s).
Proof.
  unfold percentage_rules, feature_vector_of; cbv zeta; simpl nth.
  unfold fg_pct, fg3_pct, ft_pct, efg_pct, ts_pct.
  repeat split.
  - intros [H|H]; [now rewrite safe_divide_zero_denominator|
                   now rewrite safe_divide_nan].
  - intros [H|H]; [now rewrite safe_divide_zero_denominator|
                   now rewrite safe_divide_nan].
  - intros [H|H]; [now rewrite safe_divide_zero_denominator|
                   now rewrite safe_divide_nan].
  - intros Hd Hn. now rewrite safe_divide_positive.
  - intros Hd Hn. now rewrite safe_divide_positive.
  - intros Hd Hn. now rewrite safe_divide_positive.
  - intros ->. reflexivity.
  - intros ->. reflexivity.
  - intros Hd Hn. rewrite Hd. now rewrite safe_divide_positive.
  - intros ->. reflexivity.
Qed.

(** C4, amended.  Whenever extraction returns a result, its vector has
    exactly 20 fields (HOME and WIN are appended by [extract_all_features]),
    every field is finite, and, for the statistics [s] read from the two
    matching records: [fg_pct], [fg3_pct] and [ft_pct] are 0.0 when their
    denominator is zero or an operand is NaN and are the quotient (0.0 if
    that is not finite) when the denominator is positive; [efg_pct] and
    [ts_pct] are 0.0 whenever their denominator is not positive and the
    guarded quotient otherwise.  No percentage is bounded by 1. *)
Theorem extracted_vector_rules (E : externals) (raw : json_text) (t o : Z)
    (r : extracted) :
  extract_features_from_raw_json E raw t o = Some r ->
  exists s,
    read_from E raw t o s /\
    List.length (feature_vector r) = 20%nat /\
    Forall finite (feature_vector r) /\
    percentage_rules s (feature_vector r).
Proof.
  intro H. apply extract_reads in H. destruct H as (s & Hs & ->).
  exists s. cbn [feature_vector].
  split; [exact Hs|]. split; [exact (feature_vector_of_length s)|].
  split; [exact (feature_vector_of_finite s)|exact (percentage_rules_hold s)].
Qed.

Lemma extracted_vector_rules_witness :
  exists s,
    read_from plain_externals (Some (VList [shooter; rival]))
      1610612747 1610612743 s /\
    List.length (feature_vector shooter_features) = 20%nat /\
    Forall finite (feature_vector shooter_features) /\
    percentage_rules s (feature_vector shooter_features).
Proof.
  apply (extracted_vector_rules plain_externals (Some (VList [shooter; rival]))
           1610612747 1610612743 shooter_features).
  vm_compute. reflexivity.
Defined.

(** The same game, with a negative minutes figure on the side's record. *)
Definition shooter_negative_minutes : value :=
  VDict [("TEAM_ID", VInt 1610612747); ("PTS", VInt 3); ("FGM", VInt 1);
         ("FGA", VInt 1); ("FG3M", VInt 1); ("FG3A", VInt 1);
         ("MIN", VInt (-48))].

(** C9, as stated, fails.  With [MIN = -48] (neither zero nor NaN) the
    possession estimate is 1.5 and the claimed pace is
    [1.5 * (48 / -48) = -1.5]; the stored pace is 0.0, by the guard
    [if min_played > 0 else 0.0] of line 106. *)
Lemma pace_counterexample :
  exists r,
    extract_features_from_raw_json plain_externals
      (Some (VList [shooter_negative_minutes; rival])) 1610612747 1610612743
    = Some r /\
    nth 17 (feature_vector r) 0%float = 1.5%float /\
    nth 18 (feature_vector r) 0%float = 0%float /\
    (1.5 * (48 / -48))%float = (-1.5)%float /\
    feq (-48) 0 = false /\ isnan (-48) = false.
Proof.
  eexists. split; [vm_compute; reflexivity|].
  repeat split; vm_compute; reflexivity.
Qed.

(** The possession and pace fields, in terms of the statistics [s] read
    from the records and the returned vector [v]. *)
Definition possession_rules (s : locals) (v : list float) : Prop :=
  let side := (fga s + 0.4 * fta s - oreb s + tov s)%float in
  let other := (opp_fga s + 0.4 * opp_fta s - opp_oreb s + opp_tov s)%float in
  let estimate := (0.5 * (side + other))%float in
  let minutes :=
    if feq (min_read s) 0 || isnan (min_read s) then 48%float else min_read s in
  nth 17 v 0%float = sanitize estimate /\
  nth 18 v 0%float
  = sanitize (if fgt minutes 0 then estimate * (48 / minutes) else 0)%float.

(** C9, amended.  In every extracted vector the possession field is the
    average of the two sides' estimates [FGA + 0.4*FTA - OREB + TOV], and the
    pace field is that average times 48 divided by the minutes played when
    the minutes (replaced by 48 if the source value is zero or NaN) are
    positive, and 0.0 when they are not; either field is stored as 0.0 when
    its value is NaN or infinite. *)
Theorem possession_and_pace (E : externals) (raw : json_text) (t o : Z)
    (r : extracted) :
  extract_features_from_raw_json E raw t o = Some r ->
  exists s,
    read_from E raw t o s /\
    possession_rules s (feature_vector r).
Proof.
  intro H. apply extract_reads in H. destruct H as (s & Hs & ->).
  exists s. split; [exact Hs|].
  unfold possession_rules. simpl. split; reflexivity.
Qed.

Lemma possession_and_pace_witness :
  exists s,
    read_from plain_externals (Some (VList [shooter; rival]))
      1610612747 1610612743 s /\
    possession_rules s (feature_vector shooter_features).
Proof.
  apply (possession_and_pace plain_externals (Some (VList [shooter; rival]))
           1610612747 1610612743 shooter_features).
  vm_compute. reflexivity.
Defined.

(** Some record of [items] carries the team identifier [id]. *)
Definition matches (E : externals) (id : Z) (items : list value) : Prop :=
  exists e, In e items /\ entry_team_id E e = Ok id.

(** The input is parseable: every record has a team identifier that
    [int] accepts, and every statistic that the body reads from two records
    of the input is accepted by [float]. *)
Definition readable (E : externals) (items : list value) : Prop :=
  Forall (fun e => exists z, entry_team_id E e = Ok z) items /\
  forall e1 e2, In e1 items -> In e2 items ->
    exists s, read_locals E e1 e2 = Ok s.

Lemma find_entries_readable (E : externals) (t o : Z) (items : list value) :
  Forall (fun e => exists z, entry_team_id E e = Ok z) items ->
  forall te0 oe0, exists te oe,
    find_entries E items t o te0 oe0 = Ok (te, oe) /\
    ((te = te0 /\ ~ matches E t items) \/
     (exists e, te = Some e /\ In e items /\ entry_team_id E e = Ok t)) /\
    (t <> o ->
     (oe = oe0 /\ ~ matches E o items) \/
     (exists e, oe = Some e /\ In e items /\ entry_team_id E e = Ok o)).
Proof.
  induction 1 as [|entry rest [z Hz] Hrest IH]; intros te0 oe0.
  - exists te0, oe0. split; [reflexivity|].
    split; [left|intros _; left]; (split; [reflexivity|]);
      intros (e & [] & _).
  - simpl. rewrite Hz. simpl.
    assert (forall id, id <> z -> ~ matches E id rest ->
                       ~ matches E id (entry :: rest)) as Hskip.
    { intros id Hid Hno (e & [<-|Hin] & He).
      - congruence.
      - apply Hno. now exists e. }
    assert (forall e, In e rest -> In e (entry :: rest)) as Hin by (now right).
    destruct (z =? t) eqn:Hzt.
    + apply Z.eqb_eq in Hzt. subst z.
      destruct (IH (Some entry) oe0) as (te & oe & Hf & Hte & Hoe).
      exists te, oe. split; [exact Hf|]. split.
      * right. destruct Hte as [[-> _]|(e & -> & He & Hid)].
        -- exists entry. repeat split; [now left|exact Hz].
        -- exists e. repeat split; auto.
      * intro Hto. destruct (Hoe Hto) as [[-> Hno]|(e & -> & He & Hid)].
        -- left. split; [reflexivity|]. apply Hskip; congruence.
        -- right. exists e. repeat split; auto.
    + apply Z.eqb_neq in Hzt.
      destruct (z =? o) eqn:Hzo.
      * apply Z.eqb_eq in Hzo. subst z.
        destruct (IH te0 (Some entry)) as (te & oe & Hf & Hte & Hoe).
        exists te, oe. split; [exact Hf|]. split.
        -- destruct Hte as [[-> Hno]|(e & -> & He & Hid)].
           ++ left. split; [reflexivity|]. apply Hskip; congruence.
           ++ right. exists e. repeat split; auto.
        -- intro Hto. right.
           destruct (Hoe Hto) as [[-> _]|(e & -> & He & Hid)].
           ++ exists entry. repeat split; [now left|exact Hz].
           ++ exists e. repeat split; auto.
      * apply Z.eqb_neq in Hzo.
        destruct (IH te0 oe0) as (te & oe & Hf & Hte & Hoe).
        exists te, oe. split; [exact Hf|]. split.
        -- destruct Hte as [[-> Hno]|(e & -> & He & Hid)].
           ++ left. split; [reflexivity|]. apply Hskip; congruence.
           ++ right. exists e. repeat split; auto.
        -- intro Hto. destruct (Hoe Hto) as [[-> Hno]|(e & -> & He & Hid)].
           ++ left. split; [reflexivity|]. apply Hskip; congruence.
           ++ right. exists e. repeat split; auto.
Qed.

(** When the side and the opponent are the same team, the [elif] branch is
    never taken and [opp_entry] keeps its value. *)
Lemma find_entries_same_team (E : externals) (t : Z) (items : list value) :
  forall te0 oe0 te oe,
    find_entries E items t t te0 oe0 = Ok (te, oe) -> oe = oe0.
Proof.
  induction items as [|entry rest IH]; intros te0 oe0 te oe; simpl.
  - congruence.
  - destruct (entry_team_id E entry) as [z|]; simpl; [|discriminate].
    destruct (z =? t); eauto.
Qed.

Lemma extract_same_team (E : externals) (raw : json_text) (t : Z) :
  extract_features_from_raw_json E raw t t = None.
Proof.
  destruct (extract_features_from_raw_json E raw t t) as [r|] eqn:H;
    [|reflexivity].
  apply extract_some in H.
  destruct H as (entries & items & te & oe & s & _ & _ & _ & Hf & _).
  apply find_entries_same_team in Hf. discriminate Hf.
Qed.

Lemma readable_shooter_rival : readable plain_externals [shooter; rival].
Proof.
  split.
  - repeat constructor; eexists; vm_compute; reflexivity.
  - intros e1 e2 [<-|[<-|[]]] [<-|[<-|[]]]; eexists; vm_compute; reflexivity.
Qed.

(** C6, as stated, fails.  The input holds two parseable records, one of
    them carries the side's team identifier and one the opponent's (the
    same record, the two identifiers being equal), and extraction rejects
    it. *)
Lemma rejection_counterexample :
  extract_features_from_raw_json plain_externals
    (Some (VList [shooter; rival])) 1610612747 1610612747 = None /\
  List.length [shooter; rival] = 2%nat /\
  matches plain_externals 1610612747 [shooter; rival] /\
  readable plain_externals [shooter; rival].
Proof.
  split; [vm_compute; reflexivity|]. split; [reflexivity|].
  split; [|exact readable_shooter_rival].
  exists shooter. split; [now left|vm_compute; reflexivity].
Qed.

(** C6, amended.  For a side and an opponent that are the same team,
    extraction rejects every input.  For two different teams and a
    parseable list of records, extraction returns a rejection exactly when
    the list does not hold two records, or no record carries the side's
    team identifier, or no record carries the opponent's; in every other
    case it returns a feature vector. *)
Theorem rejection_conditions (E : externals) (items : list value) (t o : Z) :
  (t = o -> extract_features_from_raw_json E (Some (VList items)) t o = None) /\
  (readable E items -> t <> o ->
   (extract_features_from_raw_json E (Some (VList items)) t o = None <->
    List.length items <> 2%nat \/ ~ matches E t items \/ ~ matches E o items)).
Proof.
  split; [intros ->; apply extract_same_team|].
  intros [Hids Hstats] Hto.
  unfold extract_features_from_raw_json, extract_body, catch_all; simpl.
  destruct (Z.of_nat (List.length items) =? 2) eqn:Hlen; simpl.
  - apply Z.eqb_eq in Hlen.
    destruct (find_entries_readable E t o items Hids None None)
      as (te & oe & Hf & Hte & Hoe).
    rewrite Hf. simpl.
    destruct Hte as [[-> Hno]|(e1 & -> & He1 & Hid1)].
    + split; [intros _; right; left; exact Hno|reflexivity].
    + destruct (Hoe Hto) as [[-> Hno]|(e2 & -> & He2 & Hid2)].
      * split; [intros _; right; right; exact Hno|reflexivity].
      * destruct (Hstats e1 e2 He1 He2) as [s Hs]. rewrite Hs. simpl.
        split; [discriminate|].
        intros [Hl|[Hno|Hno]].
        -- lia.
        -- exfalso. apply Hno. now exists e1.
        -- exfalso. apply Hno. now exists e2.
  - apply Z.eqb_neq in Hlen.
    split; [intros _; left; lia|reflexivity].
Qed.

Lemma rejection_conditions_witness :
  extract_features_from_raw_json plain_externals
    (Some (VList [shooter; rival])) 1610612747 1610612747 = None /\
  (extract_features_from_raw_json plain_externals
     (Some (VList [shooter; rival])) 1610612747 1610612743 = None <->
   List.length [shooter; rival] <> 2%nat \/
   ~ matches plain_externals 1610612747 [shooter; rival] \/
   ~ matches plain_externals 1610612743 [shooter; rival]).
Proof.
  split.
  - apply (proj1 (rejection_conditions plain_externals [shooter; rival]
                    1610612747 1610612747)).
    reflexivity.
  - apply (proj2 (rejection_conditions plain_externals [shooter; rival]
                    1610612747 1610612743)).
    + exact readable_shooter_rival.
    + discriminate.
Defined.

(** *** The stored vectors: HOME and WIN *)

(** The stored vector of [r] is 20 finite base features followed by the
    two given flags. *)
Definition ends_with (r : feature_row) (home win : float) : Prop :=
  exists base,
    List.length base = 20%nat /\ Forall finite base /\
    feature_vector_json r = Some (VList (map VFloat (base ++ [home; win]))).

Lemma win_flag_one (a b : Z) : win_flag a b = 1%float <-> a > b.
Proof.
  unfold win_flag. destruct (a >? b) eqn:H.
  - apply Z.gtb_gt in H. tauto.
  - split.
    + intro H1. symmetry in H1. now apply one_is_not_zero in H1.
    + intro Hgt. apply Z.gtb_gt in Hgt. congruence.
Qed.

Lemma win_flag_zero (a b : Z) : win_flag a b = 0%float <-> a <= b.
Proof.
  unfold win_flag. destruct (a >? b) eqn:H.
  - apply Z.gtb_gt in H. split; [|lia].
    intro H1. now apply one_is_not_zero in H1.
  - split; [|reflexivity]. intros _.
    destruct (Z_le_gt_dec a b) as [Hle|Hgt]; [exact Hle|].
    apply Z.gtb_gt in Hgt. congruence.
Qed.

Lemma home_feature_row_some (E : externals) (g : game_row) (r : feature_row) :
  home_feature_row E g = Some r ->
  home_team_id g <> away_team_id g /\
  f_team_id r = home_team_id g /\ f_game_id r = game_id g /\
  f_game_date r = game_date g /\
  ends_with r 1 (win_flag (home_score g) (away_score g)).
Proof.
  unfold home_feature_row.
  destruct (extract_features_from_raw_json E (raw_json g) (home_team_id g)
              (away_team_id g)) as [x|] eqn:Hx; [|discriminate].
  intro H. injection H as <-. simpl. split.
  - intro Heq. rewrite Heq, extract_same_team in Hx. discriminate Hx.
  - repeat split. exists (feature_vector x).
    apply extract_some in Hx.
    destruct Hx as (_ & _ & _ & _ & s & _ & _ & _ & _ & _ & ->). simpl.
    repeat split.
    apply feature_vector_of_finite.
Qed.

Lemma away_feature_row_some (E : externals) (g : game_row) (r : feature_row) :
  away_feature_row E g = Some r ->
  home_team_id g <> away_team_id g /\
  f_team_id r = away_team_id g /\ f_game_id r = game_id g /\
  f_game_date r = game_date g /\
  ends_with r 0 (win_flag (away_score g) (home_score g)).
Proof.
  unfold away_feature_row.
  destruct (extract_features_from_raw_json E (raw_json g) (away_team_id g)
              (home_team_id g)) as [x|] eqn:Hx; [|discriminate].
  intro H. injection H as <-. simpl. split.
  - intro Heq. rewrite Heq, extract_same_team in Hx. discriminate Hx.
  - repeat split. exists (feature_vector x).
    apply extract_some in Hx.
    destruct Hx as (_ & _ & _ & _ & s & _ & _ & _ & _ & _ & ->). simpl.
    repeat split.
    apply feature_vector_of_finite.
Qed.

(** The rows one game writes, in the order of the writes. *)
Definition rows_written (E : externals) (g : game_row) : list feature_row :=
  match home_feature_row E g with Some r => [r] | None => [] end ++
  match away_feature_row E g with Some r => [r] | None => [] end.

Definition upsert_all (rows t : list feature_row) : list feature_row :=
  fold_left (fun t' r => upsert_feature r t') rows t.

Lemma extract_game_table (E : externals) (st : extraction_state) (g : game_row) :
  features_table (extract_game E st g)
  = upsert_all (rows_written E g) (features_table st).
Proof.
  unfold extract_game, rows_written, upsert_all.
  destruct (home_feature_row E g), (away_feature_row E g); reflexivity.
Qed.

Lemma extract_games_table (E : externals) (l : list game_row)
    (st : extraction_state) :
  features_table (fold_left (extract_game E) l st)
  = upsert_all (flat_map (rows_written E) l) (features_table st).
Proof.
  revert st. induction l as [|g l IH]; intro st; simpl.
  - reflexivity.
  - rewrite IH, extract_game_table. unfold upsert_all.
    now rewrite fold_left_app.
Qed.

Lemma upsert_feature_In (r r' : feature_row) (t : list feature_row) :
  In r (upsert_feature r' t) -> r = r' \/ In r t.
Proof.
  unfold upsert_feature. intro H. apply in_app_or in H.
  destruct H as [H|[<-|[]]]; [|now left].
  right. now apply filter_In in H.
Qed.

Lemma upsert_all_In (rows t : list feature_row) (r : feature_row) :
  In r (upsert_all rows t) -> In r rows \/ In r t.
Proof.
  revert t. induction rows as [|r' rows IH]; intros t H; simpl in *.
  - now right.
  - apply IH in H. destruct H as [H|H]; [left; now right|].
    apply upsert_feature_In in H. destruct H as [->|H]; [left; now left|now right].
Qed.

Lemma upsert_all_keeps (rows t : list feature_row) (r : feature_row) :
  In r t ->
  (forall r', In r' rows ->
     same_feature_key (f_team_id r') (f_game_id r') r = false) ->
  In r (upsert_all rows t).
Proof.
  revert t. induction rows as [|r' rows IH]; intros t Hin Hkeys; simpl.
  - exact Hin.
  - apply IH.
    + unfold upsert_feature. apply in_or_app. left. apply filter_In.
      split; [exact Hin|]. rewrite (Hkeys r'); [reflexivity|now left].
    + intros r'' H. apply Hkeys. now right.
Qed.

Lemma rows_written_In (E : externals) (g : game_row) (r : feature_row) :
  In r (rows_written E g) <->
  home_feature_row E g = Some r \/ away_feature_row E g = Some r.
Proof.
  unfold rows_written. rewrite in_app_iff.
  destruct (home_feature_row E g), (away_feature_row E g); simpl;
    intuition congruence.
Qed.

Lemma other_key (t1 t2 : Z) (g1 g2 : string) (r : feature_row) :
  f_team_id r = t1 -> f_game_id r = g1 -> t1 <> t2 \/ g1 <> g2 ->
  same_feature_key t2 g2 r = false.
Proof.
  intros <- <- H. unfold same_feature_key. apply andb_false_iff.
  destruct H as [H|H]; [left; now apply Z.eqb_neq|right; now apply String.eqb_neq].
Qed.

(** A row written for [g] is still in the table after the rest of [g]'s
    writes and the writes of games with other identifiers. *)
Lemma written_row_survives (E : externals) (l1 l2 : list game_row)
    (g : game_row) (t : list feature_row) (r : feature_row) :
  In r (rows_written E g) ->
  (forall g', In g' l2 -> game_id g' <> game_id g) ->
  In r (upsert_all (flat_map (rows_written E) (l1 ++ g :: l2)) t).
Proof.
  intros Hr Hl2. rewrite flat_map_app. simpl flat_map.
  unfold upsert_all. rewrite !fold_left_app.
  fold (upsert_all (flat_map (rows_written E) l1) t).
  set (t1 := upsert_all (flat_map (rows_written E) l1) t).
  fold (upsert_all (rows_written E g) t1).
  fold (upsert_all (flat_map (rows_written E) l2) (upsert_all (rows_written E g) t1)).
  apply upsert_all_keeps.
  - unfold rows_written in *.
    destruct (home_feature_row E g) as [h|] eqn:Hh;
      destruct (away_feature_row E g) as [a|] eqn:Ha; simpl in *.
    + apply home_feature_row_some in Hh. apply away_feature_row_some in Ha.
      destruct Hh as (Hne & Hht & Hhg & _). destruct Ha as (_ & Hat & Hag & _).
      destruct Hr as [<-|[<-|[]]].
      * unfold upsert_feature at 1. apply in_or_app. left. apply filter_In.
        split; [unfold upsert_feature; apply in_or_app; right; now left|].
        rewrite (other_key (home_team_id g) (f_team_id a) (game_id g)
                   (f_game_id a) h Hht Hhg); [reflexivity|].
        left. congruence.
      * unfold upsert_feature at 1. apply in_or_app. right. now left.
    + destruct Hr as [<-|[]].
      unfold upsert_feature. apply in_or_app. right. now left.
    + destruct Hr as [<-|[]].
      unfold upsert_feature. apply in_or_app. right. now left.
    + destruct Hr.
  - intros r' Hr'. apply in_flat_map in Hr'. destruct Hr' as (g' & Hg' & Hr').
    assert (f_game_id r' = game_id g' /\ f_game_id r = game_id g) as [E1 E2].
    { apply rows_written_In in Hr, Hr'.
      split.
      - destruct Hr' as [H|H];
          [apply home_feature_row_some in H|apply away_feature_row_some in H];
          tauto.
      - destruct Hr as [H|H];
          [apply home_feature_row_some in H|apply away_feature_row_some in H];
          tauto. }
    apply (other_key (f_team_id r) (f_team_id r') (f_game_id r) (f_game_id r') r
             eq_refl eq_refl).
    right. rewrite E1, E2. intro Heq. now apply (Hl2 g' Hg').
Qed.

(** One game, whose raw records are [shooter] and [rival]. *)
Definition game_3_2 : game_row :=
  {| game_id := "0022300001"; game_date := "2023-10-24"; season := "22023";
     home_team_id := 1610612747; away_team_id := 1610612743;
     home_team_abbr := "LAL"; away_team_abbr := "DEN";
     home_score := 3; away_score := 2;
     raw_json := Some (VList [shooter; rival]) |}.

Definition store_3_2 : database :=
  {| games := [game_3_2]; team_features := []; team_sequences := [] |}.

Definition home_row_3_2 : feature_row :=
  {| f_team_id := 1610612747; f_game_id := "0022300001";
     f_game_date := "2023-10-24";
     feature_vector_json :=
       Some (VList (map VFloat
         [3; 1; 1; 0; 1.5; 1.5; 1; 1; 0; 0; 0; 0; 0; 0; 0; 0; 0; 1.5; 1.5; 0;
          1; 1]%float)) |}.

Example home_row_3_2_written :
  home_feature_row plain_externals game_3_2 = Some home_row_3_2.
Proof. vm_compute. reflexivity. Qed.

(** The row lines 194-203 and 217-226 store for a side of a game, from
    the dict [x] that extraction returned for that side. *)
Definition stored_row (g : game_row) (team_id : Z) (x : extracted)
    (home win : float) : feature_row :=
  {| f_team_id := team_id;
     f_game_id := game_id g;
     f_game_date := game_date g;
     feature_vector_json :=
       json_dumps (VList (map VFloat (feature_vector x ++ [home; win]))) |}.

Lemma home_feature_row_extracted (E : externals) (g : game_row) (x : extracted) :
  extract_features_from_raw_json E (raw_json g) (home_team_id g)
    (away_team_id g) = Some x ->
  home_feature_row E g
  = Some (stored_row g (home_team_id g) x 1
            (win_flag (home_score g) (away_score g))).
Proof. unfold home_feature_row. now intros ->. Qed.

Lemma away_feature_row_extracted (E : externals) (g : game_row) (x : extracted) :
  extract_features_from_raw_json E (raw_json g) (away_team_id g)
    (home_team_id g) = Some x ->
  away_feature_row E g
  = Some (stored_row g (away_team_id g) x 0
            (win_flag (away_score g) (home_score g))).
Proof. unfold away_feature_row. now intros ->. Qed.

Lemma feature_row_extracted (E : externals) (g : game_row) (r : feature_row) :
  (home_feature_row E g = Some r ->
   exists x,
     extract_features_from_raw_json E (raw_json g) (home_team_id g)
       (away_team_id g) = Some x /\
     r = stored_row g (home_team_id g) x 1
           (win_flag (home_score g) (away_score g))) /\
  (away_feature_row E g = Some r ->
   exists x,
     extract_features_from_raw_json E (raw_json g) (away_team_id g)
       (home_team_id g) = Some x /\
     r = stored_row g (away_team_id g) x 0
           (win_flag (away_score g) (home_score g))).
Proof.
  unfold home_feature_row, away_feature_row. split.
  - destruct (extract_features_from_raw_json E (raw_json g) (home_team_id g)
                (away_team_id g)) as [x|]; [|discriminate].
    intros [= <-]. now exists x.
  - destruct (extract_features_from_raw_json E (raw_json g) (away_team_id g)
                (home_team_id g)) as [x|]; [|discriminate].
    intros [= <-]. now exists x.
Qed.

Definition away_row_3_2 : feature_row :=
  {| f_team_id := 1610612743; f_game_id := "0022300001";
     f_game_date := "2023-10-24";
     feature_vector_json :=
       Some (VList (map VFloat
         [2; 0.5; 0; 0; 0.5; 0.5; 2; 0; 0; 0; 0; 0; 0; 0; 0; 0; 0; 1.5; 1.5; 0;
          0; 0]%float)) |}.

Definition away_features_3_2 : extracted :=
  {| feature_vector :=
       [2; 0.5; 0; 0; 0.5; 0.5; 2; 0; 0; 0; 0; 0; 0; 0; 0; 0; 0; 1.5; 1.5; 0]%float;
     x_pts := 2; x_opp_pts := 3 |}.

Example extract_rival :
  extract_features_from_raw_json plain_externals (raw_json game_3_2)
    (away_team_id game_3_2) (home_team_id game_3_2)
  = Some away_features_3_2.
Proof. vm_compute. reflexivity. Qed.

Example store_3_2_extracted :
  team_features (fst (extract_all_features plain_externals store_3_2))
  = [home_row_3_2; away_row_3_2].
Proof. vm_compute. reflexivity. Qed.

(** C10.  After [extract_all_features], every stored vector that was not
    in the table before belongs to a game of the store and to one of its
    two sides: it is the vector extraction returned for that side, 20
    finite base features, followed by HOME = 1.0 and WIN for the home team,
    by HOME = 0.0 and WIN for the away team.  Both vectors are stored: when
    game identifiers are unique, then for every game and for either side
    for which extraction returns a dict, the row of that side, with these
    two flags, is in the table at the end.  The home team's WIN is 1.0 iff
    the home score is strictly greater than the away score, the away team's
    is 1.0 iff the away score is strictly greater; on equal scores both are
    0.0, and in no game are both 1.0. *)
Theorem home_and_win_flags (E : externals) (d : database) :
  let stored := team_features (fst (extract_all_features E d)) in
  let home_win g := win_flag (home_score g) (away_score g) in
  let away_win g := win_flag (away_score g) (home_score g) in
  (forall r, In r stored ->
     In r (team_features d) \/
     exists g x, In g (games d) /\
       ((extract_features_from_raw_json E (raw_json g) (home_team_id g)
           (away_team_id g) = Some x /\
         r = stored_row g (home_team_id g) x 1 (home_win g) /\
         ends_with r 1 (home_win g)) \/
        (extract_features_from_raw_json E (raw_json g) (away_team_id g)
           (home_team_id g) = Some x /\
         r = stored_row g (away_team_id g) x 0 (away_win g) /\
         ends_with r 0 (away_win g)))) /\
  (NoDup (map game_id (games d)) ->
   forall g x, In g (games d) ->
     (extract_features_from_raw_json E (raw_json g) (home_team_id g)
        (away_team_id g) = Some x ->
      In (stored_row g (home_team_id g) x 1 (home_win g)) stored) /\
     (extract_features_from_raw_json E (raw_json g) (away_team_id g)
        (home_team_id g) = Some x ->
      In (stored_row g (away_team_id g) x 0 (away_win g)) stored)) /\
  (forall g,
     (home_win g = 1%float <-> home_score g > away_score g) /\
     (away_win g = 1%float <-> away_score g > home_score g) /\
     (home_score g = away_score g ->
      home_win g = 0%float /\ away_win g = 0%float) /\
     ~ (home_win g = 1%float /\ away_win g = 1%float)).
Proof.
  cbv zeta. unfold extract_all_features. cbn [fst team_features].
  rewrite extract_games_table. cbn [features_table].
  split; [|split].
  - intros r Hr. apply upsert_all_In in Hr. destruct Hr as [Hr|Hr]; [|now left].
    right. apply in_flat_map in Hr. destruct Hr as (g & Hg & Hr).
    apply OrderByFacts.select_games_In in Hg.
    apply rows_written_In in Hr.
    destruct Hr as [Hr|Hr].
    + pose proof (home_feature_row_some E g r Hr) as (_ & _ & _ & _ & He).
      apply (proj1 (feature_row_extracted E g r)) in Hr.
      destruct Hr as (x & Hx & Hrow).
      exists g, x. split; [exact Hg|]. left. now repeat split.
    + pose proof (away_feature_row_some E g r Hr) as (_ & _ & _ & _ & He).
      apply (proj2 (feature_row_extracted E g r)) in Hr.
      destruct Hr as (x & Hx & Hrow).
      exists g, x. split; [exact Hg|]. right. now repeat split.
  - intros Hnd g x Hg.
    apply OrderByFacts.select_games_In in Hg.
    assert (NoDup (map game_id (select_games d))) as Hnd'.
    { eapply Permutation_NoDup; [|exact Hnd].
      apply Permutation_map, OrderByFacts.order_by_perm. }
    destruct (in_split _ _ Hg) as (l1 & l2 & Hsplit).
    rewrite Hsplit in *.
    assert (forall g', In g' l2 -> game_id g' <> game_id g) as Hl2.
    { intros g' Hg' Heq.
      rewrite map_app in Hnd'. simpl in Hnd'.
      apply NoDup_remove_2 in Hnd'. apply Hnd'.
      apply in_or_app. right. rewrite <- Heq. now apply in_map. }
    split; intro Hx; apply written_row_survives; try exact Hl2;
      apply rows_written_In.
    + left. now apply home_feature_row_extracted.
    + right. now apply away_feature_row_extracted.
  - intro g. repeat split; try apply win_flag_one.
    + apply win_flag_zero. lia.
    + apply win_flag_zero. lia.
    + intros [H1 H2]. apply win_flag_one in H1, H2. lia.
Qed.

(** The game of [store_3_2], won 3-2 by the home team: after the run the
    table holds the home vector, which ends with HOME = 1.0 and WIN = 1.0,
    and the away vector, which ends with HOME = 0.0 and WIN = 0.0. *)
Lemma home_and_win_flags_witness :
  (In home_row_3_2
     (team_features (fst (extract_all_features plain_externals store_3_2))) /\
   In away_row_3_2
     (team_features (fst (extract_all_features plain_externals store_3_2)))) /\
  ends_with home_row_3_2 1 1 /\
  ends_with away_row_3_2 0 0.
Proof.
  pose proof (home_and_win_flags plain_externals store_3_2) as (H1 & H2 & _).
  assert (NoDup (map game_id (games store_3_2))) as Hnd
    by (repeat constructor; intros []).
  destruct (H2 Hnd game_3_2 shooter_features (or_introl eq_refl)) as [Hh _].
  destruct (H2 Hnd game_3_2 away_features_3_2 (or_introl eq_refl)) as [_ Ha].
  split; [split|].
  - apply Hh. vm_compute. reflexivity.
  - apply Ha. vm_compute. reflexivity.
  - split.
    + exists (feature_vector shooter_features).
      split; [reflexivity|]. split; [|reflexivity].
      cbn [feature_vector shooter_features].
      repeat (constructor; [split; reflexivity|]). constructor.
    + exists (feature_vector away_features_3_2).
      split; [reflexivity|]. split; [|reflexivity].
      cbn [feature_vector away_features_3_2].
      repeat (constructor; [split; reflexivity|]). constructor.
Defined.

End ExtractFeaturesFacts.

(** ** Sequence windowing *)

Module BuildSequencesFacts.
Import Py db build_sequences.
Local Open Scope string_scope.
Local Open Scope list_scope.
Local Open Scope Z_scope.

(** *** Slices and ranges *)

Lemma range_In (a b i : Z) : In i (range a b) <-> a <= i < b.
Proof.
  unfold range. rewrite in_map_iff. split.
  - intros (k & <- & Hk). apply in_seq in Hk. lia.
  - intros H. exists (Z.to_nat (i - a)). split; [lia|].
    apply in_seq. lia.
Qed.

Lemma range_length (a b : Z) : List.length (range a b) = Z.to_nat (b - a).
Proof. unfold range. now rewrite length_map, length_seq. Qed.

(** Inside the list, a slice is the usual segment. *)
Lemma slice_segment {A : Type} (l : list A) (a b : Z) :
  0 <= a <= b -> b <= Z.of_nat (List.length l) ->
  slice l a b = firstn (Z.to_nat (b - a)) (skipn (Z.to_nat a) l).
Proof.
  intros Hab Hb. unfold slice, clamp_index.
  destruct (a <? 0) eqn:Ha; [apply Z.ltb_lt in Ha; lia|].
  destruct (b <? 0) eqn:Hb0; [apply Z.ltb_lt in Hb0; lia|].
  now rewrite !Z.min_l by lia.
Qed.

Lemma segment_length {A : Type} (l : list A) (a n : nat) :
  (a + n <= List.length l)%nat ->
  List.length (firstn n (skipn a l)) = n.
Proof. intro H. rewrite length_firstn, length_skipn. lia. Qed.

Lemma segment_incl {A : Type} (l : list A) (a n : nat) (x : A) :
  In x (firstn n (skipn a l)) -> In x l.
Proof.
  intro H. rewrite <- (firstn_skipn a l). apply in_or_app. right.
  rewrite <- (firstn_skipn n (skipn a l)). apply in_or_app. now left.
Qed.

(** *** The windows of one call *)

(** The vectors of a window, when every one of them parses. *)
Fixpoint vectors (w : list feature_row) : option (list value) :=
  match w with
  | [] => Some []
  | g :: rest =>
      match json_loads (feature_vector_json g), vectors rest with
      | Some v, Some vs => Some (v :: vs)
      | _, _ => None
      end
  end.

Lemma parse_window_vectors (w : list feature_row) (sequence : list value)
    (ids : list string) :
  parse_window w sequence ids
  = match vectors w with
    | Some vs => Some (sequence ++ vs, ids ++ map f_game_id w)
    | None => None
    end.
Proof.
  revert sequence ids. induction w as [|g w IH]; intros sequence ids; simpl.
  - now rewrite !app_nil_r.
  - destruct (json_loads (feature_vector_json g)) as [v|]; [|reflexivity].
    rewrite IH. destruct (vectors w) as [vs|]; [|reflexivity].
    now rewrite <- !app_assoc.
Qed.

Lemma vectors_length (w : list feature_row) (vs : list value) :
  vectors w = Some vs -> List.length vs = List.length w.
Proof.
  revert vs. induction w as [|g w IH]; intros vs; simpl.
  - now intros [= <-].
  - destruct (json_loads (feature_vector_json g)); [|discriminate].
    destruct (vectors w); [|discriminate].
    intros [= <-]. simpl. now rewrite (IH l).
Qed.

Lemma vectors_app (w1 w2 : list feature_row) :
  vectors (w1 ++ w2)
  = match vectors w1, vectors w2 with
    | Some a, Some b => Some (a ++ b)
    | _, _ => None
    end.
Proof.
  induction w1 as [|g w1 IH]; simpl.
  - now destruct (vectors w2).
  - destruct (json_loads (feature_vector_json g)); [|reflexivity].
    rewrite IH. now destruct (vectors w1), (vectors w2).
Qed.

Lemma vectors_Forall2 (w : list feature_row) (vs : list value) :
  vectors w = Some vs <->
  Forall2 (fun g v => feature_vector_json g = Some v) w vs.
Proof.
  revert vs. induction w as [|g w IH]; intros vs; simpl.
  - split; [intros [= <-]; constructor|intro H; now inversion H].
  - unfold json_loads. split.
    + destruct (feature_vector_json g) as [v|] eqn:Hv; [|discriminate].
      destruct (vectors w) as [vs'|]; [|discriminate].
      intros [= <-]. constructor; [exact Hv|now apply IH].
    + intro H. inversion H as [|? v ? vs' Hv Hrest]; subst.
      rewrite Hv. apply IH in Hrest. now rewrite Hrest.
Qed.

Lemma last_item_snoc {A : Type} (l : list A) (x : A) :
  last_item (l ++ [x]) = Ok x.
Proof. unfold last_item. now rewrite rev_app_distr. Qed.

Lemma last_item_nil {A : Type} : last_item (@nil A) = Raise IndexError.
Proof. reflexivity. Qed.

(** An insert can only come from a window that parsed, has [window_size]
    vectors and a last game. *)
Lemma executed_rows (team_id window_size : Z) (games : list feature_row)
    (P : sequence_row -> Prop) (indices : list Z) :
  (forall i vs ids gid,
     In i indices ->
     parse_window (slice games (i - window_size + 1) (i + 1)) [] []
       = Some (vs, ids) ->
     Z.of_nat (List.length vs) = window_size ->
     last_item ids = Ok gid ->
     P {| s_team_id := team_id; s_game_id := gid;
          sequence_json := json_dumps (VList vs) |}) ->
  forall created done,
    (forall r, In r done -> P r) ->
    forall r,
      In r (executed (windows_loop team_id window_size games indices
                        created done)) ->
      P r.
Proof.
  induction indices as [|i rest IH]; intros Hemit created done Hdone r; simpl.
  - apply Hdone.
  - assert (forall j vs ids gid,
              In j rest ->
              parse_window (slice games (j - window_size + 1) (j + 1)) [] []
                = Some (vs, ids) ->
              Z.of_nat (List.length vs) = window_size ->
              last_item ids = Ok gid ->
              P {| s_team_id := team_id; s_game_id := gid;
                   sequence_json := json_dumps (VList vs) |}) as Hrest.
    { intros j vs ids gid Hj. apply Hemit. now right. }
    destruct (parse_window (slice games (i - window_size + 1) (i + 1)) [] [])
      as [[vs ids]|] eqn:Hparse; [|apply Hdone].
    destruct (Z.of_nat (List.length vs) =? window_size) eqn:Hlen; simpl;
      [|now apply IH].
    apply Z.eqb_eq in Hlen.
    destruct (feature_lengths vs) as [lengths|]; [|apply Hdone].
    destruct (distinct_count lengths =? 1); simpl.
    + destruct (last_item ids) as [gid|] eqn:Hlast; [|apply Hdone].
      apply IH; [exact Hrest|].
      intros r' Hr'. apply in_app_or in Hr'.
      destruct Hr' as [Hr'|[<-|[]]]; [now apply Hdone|].
      apply (Hemit i vs ids gid); auto. now left.
    + destruct (last_item ids); [|apply Hdone].
      now apply IH.
Qed.

(** The window that ends at a game: the row [r] holds the vectors of
    [window_size] consecutive games of [games], the last of which is the
    game [r] is keyed by. *)
Definition window_ending_at_key (team_id window_size : Z)
    (games : list feature_row) (r : sequence_row) : Prop :=
  exists earlier before g later vbefore v,
    games = earlier ++ (before ++ [g]) ++ later /\
    Z.of_nat (List.length (before ++ [g])) = window_size /\
    Forall2 (fun x y => feature_vector_json x = Some y) before vbefore /\
    feature_vector_json g = Some v /\
    sequence_json r = Some (VList (vbefore ++ [v])) /\
    s_game_id r = f_game_id g /\
    s_team_id r = team_id.

Lemma emitted_window (team_id window_size : Z) (games : list feature_row)
    (i : Z) (vs : list value) (ids : list string) (gid : string) :
  window_size - 1 <= i < Z.of_nat (List.length games) ->
  parse_window (slice games (i - window_size + 1) (i + 1)) [] []
    = Some (vs, ids) ->
  Z.of_nat (List.length vs) = window_size ->
  last_item ids = Ok gid ->
  window_ending_at_key team_id window_size games
    {| s_team_id := team_id; s_game_id := gid;
       sequence_json := json_dumps (VList vs) |}.
Proof.
  intros Hi Hparse Hlen Hlast.
  rewrite parse_window_vectors in Hparse.
  set (w := slice games (i - window_size + 1) (i + 1)) in *.
  destruct (vectors w) as [vs'|] eqn:Hvs; [|discriminate].
  injection Hparse as <- <-. simpl in Hlast.
  pose proof (vectors_length w vs' Hvs) as Hwlen.
  destruct (exists_last (l := w)) as (before & g & Hw).
  { intro Hnil. rewrite Hnil in Hlast. simpl in Hlast.
    rewrite last_item_nil in Hlast. discriminate. }
  assert (1 <= window_size) as HW.
  { rewrite <- Hlen, Hwlen, Hw, length_app. simpl. lia. }
  assert (w = firstn (Z.to_nat window_size)
                (skipn (Z.to_nat (i - window_size + 1)) games)) as Hseg.
  { unfold w. rewrite slice_segment by lia. f_equal. lia. }
  rewrite Hw in Hvs. rewrite vectors_app in Hvs. simpl in Hvs.
  destruct (vectors before) as [vbefore|] eqn:Hvb; [|discriminate].
  unfold json_loads in Hvs.
  destruct (feature_vector_json g) as [v|] eqn:Hv; [|discriminate].
  injection Hvs as <-.
  rewrite Hw, map_app in Hlast. simpl in Hlast.
  rewrite last_item_snoc in Hlast. injection Hlast as <-.
  exists (firstn (Z.to_nat (i - window_size + 1)) games), before, g,
    (skipn (Z.to_nat window_size)
       (skipn (Z.to_nat (i - window_size + 1)) games)), vbefore, v.
  repeat split; try assumption; try reflexivity.
  - rewrite <- Hw, Hseg, firstn_skipn, firstn_skipn. reflexivity.
  - rewrite <- Hw, <- Hwlen. exact Hlen.
  - now apply vectors_Forall2.
Qed.

(** C5.  Every insert that [build_sequences_for_team] executes for a team
    holds the feature vectors of [window_size] consecutive games of the
    team's ordered list, and is keyed by the last game of that window: the
    terminal game's own vector is the last element of the stored
    sequence. *)
Theorem window_includes_terminal_game (d : database) (team_id window_size : Z)
    (r : sequence_row) :
  In r (executed (build_sequences_for_team d team_id window_size)) ->
  window_ending_at_key team_id window_size
    (select_team_features d team_id) r.
Proof.
  unfold build_sequences_for_team.
  set (games := select_team_features d team_id).
  destruct (Z.of_nat (List.length games) <? window_size); [intros []|].
  apply (executed_rows team_id window_size games
           (window_ending_at_key team_id window_size games)).
  - intros i vs ids gid Hi. apply range_In in Hi.
    now apply emitted_window.
  - intros r' [].
Qed.

(** *** What a whole call executes *)

(** [len(v)] as a number, for the values that have one. *)
Definition size (v : value) : Z :=
  match len v with
  | Ok n => n
  | Raise _ => 0
  end.

(** A stored vector that parses has a length: it is a list (or a str or a
    dict), not a number, a bool or [None]. *)
Definition sized (g : feature_row) : Prop :=
  forall v, feature_vector_json g = Some v -> exists n, len v = Ok n.

Fixpoint take_while {A : Type} (p : A -> bool) (l : list A) : list A :=
  match l with
  | [] => []
  | x :: rest => if p x then x :: take_while p rest else []
  end.

Lemma take_while_all {A : Type} (p : A -> bool) (l : list A) :
  forallb p l = true -> take_while p l = l.
Proof.
  induction l as [|x l IH]; simpl; [reflexivity|].
  destruct (p x); simpl; [|discriminate]. intro H. now rewrite IH.
Qed.

Lemma filter_all {A : Type} (p : A -> bool) (l : list A) :
  forallb p l = true -> filter p l = l.
Proof.
  induction l as [|x l IH]; simpl; [reflexivity|].
  destruct (p x); simpl; [|discriminate]. intro H. now rewrite IH.
Qed.

Lemma feature_lengths_sized (vs : list value) :
  Forall (fun v => exists n, len v = Ok n) vs ->
  feature_lengths vs = Ok (map size vs).
Proof.
  induction 1 as [|v vs [n Hn] _ IH]; simpl; [reflexivity|].
  unfold size at 1. rewrite Hn, IH. reflexivity.
Qed.

Lemma vectors_sized (w : list feature_row) (vs : list value) :
  Forall sized w -> vectors w = Some vs ->
  Forall (fun v => exists n, len v = Ok n) vs.
Proof.
  intros Hw Hvs. apply vectors_Forall2 in Hvs.
  induction Hvs as [|g v w vs Hv _ IH]; constructor.
  - inversion Hw; subst. now apply (H1 v).
  - apply IH. now inversion Hw.
Qed.

Section Windows.
Variables (team_id window_size : Z) (games : list feature_row).

(** The games of the window at loop index [i]. *)
Definition window_at (i : Z) : list feature_row :=
  slice games (i - window_size + 1) (i + 1).

(** Every vector of the window parses. *)
Definition parses (i : Z) : bool :=
  match vectors (window_at i) with
  | Some _ => true
  | None => false
  end.

(** Every vector of the window parses and they all have one length. *)
Definition uniform (i : Z) : bool :=
  match vectors (window_at i) with
  | Some vs => distinct_count (map size vs) =? 1
  | None => false
  end.

(** The row inserted for the window at index [i]. *)
Definition row_at (i : Z) : sequence_row :=
  {| s_team_id := team_id;
     s_game_id := last (map f_game_id (window_at i)) "";
     sequence_json :=
       Some (VList (match vectors (window_at i) with
                    | Some vs => vs
                    | None => []
                    end)) |}.

Hypothesis window_size_positive : 1 <= window_size.

Lemma window_at_segment (i : Z) :
  window_size - 1 <= i < Z.of_nat (List.length games) ->
  window_at i = firstn (Z.to_nat window_size)
                  (skipn (Z.to_nat (i - window_size + 1)) games) /\
  Z.of_nat (List.length (window_at i)) = window_size.
Proof.
  intro Hi. unfold window_at. rewrite slice_segment by lia.
  replace (Z.to_nat (i + 1 - (i - window_size + 1)))
    with (Z.to_nat window_size) by lia.
  split; [reflexivity|]. rewrite segment_length; lia.
Qed.

Hypothesis games_sized : Forall sized games.

(** With every parsed vector sized, the loop inserts the uniform windows
    among those that come before the first window that holds an
    unparseable vector, and stops at that window. *)
Lemma windows_loop_run (indices : list Z) :
  Forall (fun i => window_size - 1 <= i < Z.of_nat (List.length games))
    indices ->
  forall created done,
    windows_loop team_id window_size games indices created done
    = {| returned :=
           Ok (created
               + Z.of_nat (List.length
                             (filter uniform (take_while parses indices))));
         executed :=
           done ++ map row_at (filter uniform (take_while parses indices));
         committed := forallb parses indices |}.
Proof.
  induction 1 as [|i rest Hi _ IH]; intros created done.
  - simpl. now rewrite Z.add_0_r, app_nil_r.
  - destruct (window_at_segment i Hi) as [Hseg Hlen].
    cbn [windows_loop take_while forallb].
    fold (window_at i). rewrite parse_window_vectors.
    destruct (vectors (window_at i)) as [vs|] eqn:Hvs.
    + assert (parses i = true) as Hp by (unfold parses; now rewrite Hvs).
      assert (uniform i = (distinct_count (map size vs) =? 1)) as Hu
          by (unfold uniform; now rewrite Hvs).
      destruct (exists_last (l := window_at i)) as (before & g & Hw).
      { intro Hnil. rewrite Hnil in Hlen. simpl in Hlen. lia. }
      assert (last_item (map f_game_id (window_at i)) = Ok (f_game_id g))
        as Hlast by (rewrite Hw, map_app; apply last_item_snoc).
      assert (row_at i = {| s_team_id := team_id;
                            s_game_id := f_game_id g;
                            sequence_json := json_dumps (VList vs) |})
        as Hrow.
      { unfold row_at. rewrite Hvs, Hw, map_app. simpl map.
        now rewrite last_last. }
      assert (feature_lengths vs = Ok (map size vs)) as Hfl.
      { apply feature_lengths_sized.
        apply (vectors_sized (window_at i)); [|exact Hvs].
        apply Forall_forall. intros x Hx.
        rewrite Forall_forall in games_sized. apply games_sized.
        rewrite Hseg in Hx. now apply segment_incl in Hx. }
      rewrite Hp. cbn [app andb filter]. rewrite Hu.
      rewrite (vectors_length _ _ Hvs), Hlen, Z.eqb_refl. cbn [negb].
      rewrite Hfl, Hlast.
      destruct (distinct_count (map size vs) =? 1); cbn [negb].
      * rewrite IH. cbn [List.length map]. rewrite <- app_assoc.
        cbn [app]. rewrite Hrow. f_equal. f_equal. lia.
      * rewrite IH. reflexivity.
    + assert (parses i = false) as Hp by (unfold parses; now rewrite Hvs).
      rewrite Hp. simpl. now rewrite Z.add_0_r, app_nil_r.
Qed.

Lemma range_indices :
  Forall (fun i => window_size - 1 <= i < Z.of_nat (List.length games))
    (range (window_size - 1) (Z.of_nat (List.length games))).
Proof. apply Forall_forall. intros i Hi. now apply range_In in Hi. Qed.
End Windows.

(** *** Counting the windows *)

Lemma last_nth {A : Type} (l : list A) (d : A) :
  last l d = nth (List.length l - 1) l d.
Proof.
  induction l as [|x l IH]; [reflexivity|].
  destruct l as [|y l]; [reflexivity|].
  change (last (x :: y :: l) d) with (last (y :: l) d). rewrite IH.
  simpl. now rewrite Nat.sub_0_r.
Qed.

Lemma skipn_as_map {A : Type} (l : list A) (a : nat) (d : A) :
  skipn a l = map (fun k => nth (a + k) l d) (seq 0 (List.length l - a)).
Proof.
  apply (nth_ext _ _ d (nth (a + 0) l d)).
  - now rewrite length_skipn, length_map, length_seq.
  - intros n Hn. rewrite length_skipn in Hn.
    rewrite nth_skipn.
    rewrite (map_nth (fun k => nth (a + k) l d) (seq 0 (List.length l - a)) 0%nat n).
    now rewrite seq_nth.
Qed.

Lemma distinct_count_constant (k : Z) (l : list Z) :
  l <> [] -> Forall (eq k) l -> distinct_count l = 1.
Proof.
  unfold distinct_count. intros Hne Hall.
  assert (nodup Z.eq_dec l = [k]) as ->; [|reflexivity].
  induction Hall as [|x l <- Hall IH]; [congruence|].
  simpl. destruct l as [|y l].
  - reflexivity.
  - destruct (in_dec Z.eq_dec k (y :: l)) as [_|Hnot].
    + apply IH. discriminate.
    + exfalso. apply Hnot. left. now inversion Hall.
Qed.

(** The stored vector of [g] parses and has length [k]. *)
Definition has_arity (k : Z) (g : feature_row) : Prop :=
  exists v, feature_vector_json g = Some v /\ len v = Ok k.

Lemma has_arity_sized (k : Z) (games : list feature_row) :
  Forall (has_arity k) games -> Forall sized games.
Proof.
  apply Forall_impl. intros g (v & Hv & Hk) v' Hv'.
  exists k. congruence.
Qed.

Lemma vectors_of_arity (k : Z) (w : list feature_row) :
  Forall (has_arity k) w ->
  exists vs, vectors w = Some vs /\ Forall (eq k) (map size vs).
Proof.
  induction 1 as [|g w (v & Hv & Hk) _ (vs & Hvs & Hall)]; simpl.
  - exists []. split; [reflexivity|constructor].
  - exists (v :: vs). unfold json_loads. rewrite Hv, Hvs.
    split; [reflexivity|]. constructor; [|exact Hall].
    unfold size. now rewrite Hk.
Qed.

Section Counting.
Variables (team_id window_size k : Z) (games : list feature_row).
Hypothesis window_size_positive : 1 <= window_size.
Hypothesis games_arity : Forall (has_arity k) games.

Let in_range (i : Z) : Prop :=
  window_size - 1 <= i < Z.of_nat (List.length games).

Lemma window_vectors (i : Z) :
  in_range i ->
  exists vs,
    vectors (window_at window_size games i) = Some vs /\
    Z.of_nat (List.length vs) = window_size /\
    distinct_count (map size vs) = 1.
Proof.
  intro Hi.
  destruct (window_at_segment window_size games window_size_positive i Hi)
    as [Hseg Hlen].
  destruct (vectors_of_arity k (window_at window_size games i))
    as (vs & Hvs & Hall).
  { apply Forall_forall. intros g Hg.
    rewrite Forall_forall in games_arity. apply games_arity.
    rewrite Hseg in Hg. now apply segment_incl in Hg. }
  exists vs. split; [exact Hvs|].
  pose proof (vectors_length _ _ Hvs) as Hl.
  split; [lia|].
  apply (distinct_count_constant k); [|exact Hall].
  destruct vs; [simpl in Hl; lia|discriminate].
Qed.

Lemma all_windows_uniform (indices : list Z) :
  Forall in_range indices ->
  forallb (parses window_size games) indices = true /\
  forallb (uniform window_size games) indices = true.
Proof.
  induction 1 as [|i rest Hi _ [IHp IHu]]; [now split|].
  destruct (window_vectors i Hi) as (vs & Hvs & _ & Hd).
  simpl. unfold parses at 1, uniform at 1. rewrite Hvs, Hd, IHp, IHu.
  now split.
Qed.

Lemma row_at_key (g0 : feature_row) (i : Z) :
  in_range i ->
  s_game_id (row_at team_id window_size games i)
  = f_game_id (nth (Z.to_nat i) games g0).
Proof.
  intro Hi.
  destruct (window_at_segment window_size games window_size_positive i Hi)
    as [Hseg Hlen].
  unfold row_at; cbn [s_game_id].
  rewrite last_nth, length_map.
  rewrite (nth_indep _ "" (f_game_id g0)) by (rewrite length_map; lia).
  rewrite map_nth. f_equal.
  replace (List.length (window_at window_size games i) - 1)%nat
    with (Z.to_nat window_size - 1)%nat by lia.
  rewrite Hseg, nth_firstn.
  destruct (Z.to_nat window_size - 1 <? Z.to_nat window_size)%nat eqn:Hlt;
    [|apply Nat.ltb_ge in Hlt; lia].
  rewrite nth_skipn. f_equal. unfold in_range in Hi. lia.
Qed.

Lemma keys_of_range (g0 : feature_row) :
  window_size <= Z.of_nat (List.length games) ->
  map (fun i => f_game_id (nth (Z.to_nat i) games g0))
    (range (window_size - 1) (Z.of_nat (List.length games)))
  = map f_game_id (skipn (Z.to_nat (window_size - 1)) games).
Proof.
  intro HN. unfold range.
  rewrite (skipn_as_map games (Z.to_nat (window_size - 1)) g0).
  rewrite !map_map.
  replace (Z.to_nat (Z.of_nat (List.length games) - (window_size - 1)))
    with (List.length games - Z.to_nat (window_size - 1))%nat by lia.
  apply map_ext. intro n. do 2 f_equal. lia.
Qed.
End Counting.

(** C2.  Let the ordered list of a team hold [N] feature vectors that all
    parse and all have arity [k].  If [N < window_size], the call returns 0
    and executes no insert.  If [N >= window_size], for a window of at
    least one game, the call returns [N - window_size + 1], commits, and
    has executed exactly that many inserts; each stored sequence has
    exactly [window_size] vectors; and the inserts are keyed, in order, by
    the games of the ordered list from position [window_size] on, which
    ascend in (date, game identifier). *)
Theorem window_count (d : database) (team_id window_size k : Z) :
  let games := select_team_features d team_id in
  let N := Z.of_nat (List.length games) in
  let run := build_sequences_for_team d team_id window_size in
  Forall (has_arity k) games ->
  (N < window_size -> returned run = Ok 0 /\ executed run = []) /\
  (1 <= window_size <= N ->
   returned run = Ok (N - window_size + 1) /\
   committed run = true /\
   Z.of_nat (List.length (executed run)) = N - window_size + 1 /\
   Forall (fun r => exists vs, sequence_json r = Some (VList vs) /\
                               Z.of_nat (List.length vs) = window_size)
     (executed run) /\
   map s_game_id (executed run)
   = map f_game_id (skipn (Z.to_nat (window_size - 1)) games) /\
   Sorted (OrderByFacts.ascending feature_key date_id_leb)
     (skipn (Z.to_nat (window_size - 1)) games)).
Proof.
  cbv zeta. unfold build_sequences_for_team.
  set (games := select_team_features d team_id).
  intro Harity. split.
  - intro HN. apply Z.ltb_lt in HN. rewrite HN. now split.
  - intros [HW HN].
    destruct (Z.of_nat (List.length games) <? window_size) eqn:Hlt;
      [apply Z.ltb_lt in Hlt; lia|].
    pose proof (range_indices window_size games) as Hidx.
    rewrite (windows_loop_run team_id window_size games HW
               (has_arity_sized k games Harity) _ Hidx).
    destruct (all_windows_uniform window_size k games HW Harity _ Hidx)
      as [Hp Hu].
    rewrite (take_while_all _ _ Hp), (filter_all _ _ Hu).
    cbn [returned executed committed app].
    rewrite length_map, range_length.
    split; [f_equal; lia|]. split; [exact Hp|]. split; [lia|].
    split; [|split].
    + apply Forall_map, Forall_forall. intros i Hi.
      rewrite Forall_forall in Hidx.
      destruct (window_vectors window_size k games HW Harity i (Hidx i Hi))
        as (vs & Hvs & Hl & _).
      exists vs. unfold row_at; cbn [sequence_json]. now rewrite Hvs.
    + set (g0 := {| f_team_id := team_id; f_game_id := "";
                    f_game_date := ""; feature_vector_json := None |}).
      rewrite map_map.
      rewrite <- (keys_of_range window_size games HW g0 HN).
      apply map_ext_in. intros i Hi. rewrite Forall_forall in Hidx.
      apply (row_at_key team_id window_size games HW g0 i (Hidx i Hi)).
    + apply OrderByFacts.Sorted_skipn,
        OrderByFacts.select_team_features_sorted.
Qed.

(** *** Three games of one team *)

Definition lakers : Z := 1610612747.
Definition nuggets : Z := 1610612743.

Definition stored (team_id : Z) (gid date : string) (v : json_text)
  : feature_row :=
  {| f_team_id := team_id; f_game_id := gid; f_game_date := date;
     feature_vector_json := v |}.

Definition pair_vector (a b : float) : json_text :=
  Some (VList [VFloat a; VFloat b]).

(** The rows are not in date order in the table. *)
Definition store_three_games : database :=
  {| games := [];
     team_features :=
       [ stored lakers "0022300030" "2023-10-29" (pair_vector 5 6);
         stored lakers "0022300001" "2023-10-24" (pair_vector 1 2);
         stored nuggets "0022300001" "2023-10-24" (pair_vector 7 8);
         stored lakers "0022300015" "2023-10-26" (pair_vector 3 4) ];
     team_sequences := [] |}.

Example three_games_ordered :
  map f_game_id (select_team_features store_three_games lakers)
  = ["0022300001"; "0022300015"; "0022300030"].
Proof. vm_compute. reflexivity. Qed.

Lemma three_games_arity :
  Forall (has_arity 2) (select_team_features store_three_games lakers).
Proof.
  vm_compute.
  repeat (constructor; [eexists; split; reflexivity|]). constructor.
Qed.

Lemma window_count_witness :
  (returned (build_sequences_for_team store_three_games lakers 4) = Ok 0 /\
   executed (build_sequences_for_team store_three_games lakers 4) = []) /\
  (returned (build_sequences_for_team store_three_games lakers 2)
     = Ok (Z.of_nat (List.length
                       (select_team_features store_three_games lakers))
           - 2 + 1) /\
   committed (build_sequences_for_team store_three_games lakers 2) = true /\
   Z.of_nat (List.length
               (executed (build_sequences_for_team store_three_games lakers 2)))
   = Z.of_nat (List.length (select_team_features store_three_games lakers))
     - 2 + 1 /\
   Forall (fun r => exists vs, sequence_json r = Some (VList vs) /\
                               Z.of_nat (List.length vs) = 2)
     (executed (build_sequences_for_team store_three_games lakers 2)) /\
   map s_game_id (executed (build_sequences_for_team store_three_games lakers 2))
   = map f_game_id
       (skipn (Z.to_nat (2 - 1))
          (select_team_features store_three_games lakers)) /\
   Sorted (OrderByFacts.ascending feature_key date_id_leb)
     (skipn (Z.to_nat (2 - 1))
        (select_team_features store_three_games lakers))).
Proof.
  split.
  - apply (proj1 (window_count store_three_games lakers 4 2 three_games_arity)).
    vm_compute. reflexivity.
  - apply (proj2 (window_count store_three_games lakers 2 2 three_games_arity)).
    split; vm_compute; discriminate.
Defined.

Definition second_window_row : sequence_row :=
  {| s_team_id := lakers; s_game_id := "0022300030";
     sequence_json :=
       Some (VList [VList [VFloat 3; VFloat 4]; VList [VFloat 5; VFloat 6]]) |}.

Lemma window_includes_terminal_game_witness :
  window_ending_at_key lakers 2
    (select_team_features store_three_games lakers) second_window_row.
Proof.
  apply (window_includes_terminal_game store_three_games lakers 2
           second_window_row).
  vm_compute. right. left. reflexivity.
Defined.

(** *** An unparseable vector in the middle of a team's list *)

Definition store_unparseable : database :=
  {| games := [];
     team_features :=
       [ stored lakers "0022300001" "2023-10-24" (pair_vector 1 2);
         stored lakers "0022300015" "2023-10-26" None;
         stored lakers "0022300030" "2023-10-29" (pair_vector 5 6) ];
     team_sequences := [] |}.

(** C7, on the input where the code departs from it.  With
    [window_size = 1] the first window is inserted; the second holds a
    vector that [json.loads] rejects, and the call returns there (lines
    57-60) instead of skipping that window: the third window, whose only
    vector parses, is never processed.  The connection is closed without a
    commit, so the store holds no sequence although the call returns 1 and
    [build_all_sequences] counts it. *)
Theorem unparseable_vector_ends_the_run :
  let games := select_team_features store_unparseable lakers in
  let run := build_sequences_for_team store_unparseable lakers 1 in
  returned run = Ok 1 /\
  map s_game_id (executed run) = ["0022300001"] /\
  committed run = false /\
  team_sequences (store_after store_unparseable run) = [] /\
  map f_game_id (window_at 1 games 2) = ["0022300030"] /\
  uniform 1 games 2 = true /\
  snd (build_all_sequences store_unparseable 1)
  = Ok {| total_sequences := 1; teams_with_sequences := 1;
          teams_skipped := 0 |}.
Proof. cbv zeta. repeat split; vm_compute; reflexivity. Qed.

(** A stored vector that parses to a number has no [len]: the [TypeError]
    is not caught, leaves [build_sequences_for_team] and the loop of
    [build_all_sequences], and the teams that follow are not visited. *)
Definition store_unsized : database :=
  {| games := [];
     team_features :=
       [ stored nuggets "0022300001" "2023-10-24" (Some (VInt 5));
         stored lakers "0022300001" "2023-10-24" (pair_vector 1 2) ];
     team_sequences := [] |}.

Example unsized_vector_leaves_the_batch :
  select_team_ids store_unsized = [nuggets; lakers] /\
  build_all_sequences store_unsized 1 = (store_unsized, Raise TypeError).
Proof. split; vm_compute; reflexivity. Qed.

(** *** Sizes of window that make no window *)

(** A window size is a number of games, at least 1; the function does not
    check it.  With a negative size no window has that many games, so the
    guard of line 63 skips every one: nothing is inserted and the empty
    batch is committed. *)
Example negative_window_size_makes_no_window :
  let run := build_sequences_for_team store_three_games lakers (-1) in
  returned run = Ok 0 /\
  executed run = [] /\
  committed run = true.
Proof. cbv zeta. repeat split; vm_compute; reflexivity. Qed.

(** With [window_size = 0] the first window is empty, and the warning of
    line 69 reads [game_ids_in_sequence[-1]] of an empty list. *)
Example window_size_zero_raises :
  returned (build_sequences_for_team store_three_games lakers 0)
  = Raise IndexError.
Proof. vm_compute. reflexivity. Qed.

(** *** Errors inside a run *)

Lemma build_returns (d : database) (team_id window_size : Z) :
  1 <= window_size ->
  Forall sized (select_team_features d team_id) ->
  exists n, returned (build_sequences_for_team d team_id window_size) = Ok n.
Proof.
  intros HW Hs. unfold build_sequences_for_team.
  destruct (_ <? window_size); [now exists 0|].
  rewrite (windows_loop_run team_id window_size _ HW Hs _
             (range_indices window_size _)).
  now eexists.
Qed.

Lemma store_after_features (d : database) (r : run) :
  team_features (store_after d r) = team_features d.
Proof. unfold store_after. now destruct (committed r). Qed.

Lemma selected_sized (d : database) (team_id : Z) :
  Forall sized (team_features d) ->
  Forall sized (select_team_features d team_id).
Proof.
  rewrite !Forall_forall. intros H g Hg.
  apply OrderByFacts.select_team_features_In in Hg. now apply H.
Qed.

Lemma teams_loop_returns (window_size : Z) (team_ids : list Z) :
  1 <= window_size ->
  forall d acc,
    Forall sized (team_features d) ->
    exists d' t,
      teams_loop window_size team_ids d acc = (d', Ok t) /\
      teams_with_sequences t + teams_skipped t
      = teams_with_sequences acc + teams_skipped acc
        + Z.of_nat (List.length team_ids).
Proof.
  intro HW. induction team_ids as [|team_id rest IH]; intros d acc Hs.
  - exists d, acc. split; [reflexivity|simpl; lia].
  - cbn [teams_loop].
    destruct (build_returns d team_id window_size HW (selected_sized d team_id Hs))
      as [n Hn].
    rewrite Hn.
    match goal with
    | |- context [teams_loop _ _ ?d1 ?a1] =>
        destruct (IH d1 a1) as (d' & t & Hloop & Hcount)
    end.
    { now rewrite store_after_features. }
    exists d', t. split; [exact Hloop|].
    rewrite Hcount. destruct (n >? 0); cbn [teams_with_sequences teams_skipped];
      cbn [List.length]; lia.
Qed.

(** X1.  What a run does with the two kinds of bad window.  Let every stored
    vector that parses have a length, and let a team have at least
    [window_size >= 1] vectors.  The call inserts one sequence for each
    window whose vectors have one arity, among the windows that come before
    the first window holding an unparseable vector: a window of mixed arity
    is skipped alone and the run goes on, while an unparseable vector ends
    the run at its first window.  The call returns normally either way, and
    [build_all_sequences] visits every team. *)
Lemma window_errors (d : database) (team_id window_size : Z) :
  let games := select_team_features d team_id in
  let run := build_sequences_for_team d team_id window_size in
  let kept :=
    filter (uniform window_size games)
      (take_while (parses window_size games)
         (range (window_size - 1) (Z.of_nat (List.length games)))) in
  1 <= window_size <= Z.of_nat (List.length games) ->
  Forall sized (team_features d) ->
  returned run = Ok (Z.of_nat (List.length kept)) /\
  executed run = map (row_at team_id window_size games) kept /\
  exists d' t,
    build_all_sequences d window_size = (d', Ok t) /\
    teams_with_sequences t + teams_skipped t
    = Z.of_nat (List.length (select_team_ids d)).
Proof.
  cbv zeta. intros [HW HN] Hs. unfold build_sequences_for_team.
  destruct (_ <? window_size) eqn:Hlt; [apply Z.ltb_lt in Hlt; lia|].
  rewrite (windows_loop_run team_id window_size _ HW
             (selected_sized d team_id Hs) _ (range_indices window_size _)).
  cbn [returned executed app]. repeat split.
  unfold build_all_sequences.
  destruct (teams_loop_returns window_size (select_team_ids d) HW d
              {| total_sequences := 0; teams_with_sequences := 0;
                 teams_skipped := 0 |} Hs) as (d' & t & Hloop & Hcount).
  exists d', t. split; [exact Hloop|]. rewrite Hcount. simpl. lia.
Qed.

(** Six games of one team: the second vector has three features, the fifth
    does not parse. *)
Definition store_mixed : database :=
  {| games := [];
     team_features :=
       [ stored lakers "0022300001" "2023-10-24" (pair_vector 1 2);
         stored lakers "0022300015" "2023-10-26"
           (Some (VList [VFloat 1; VFloat 2; VFloat 3]));
         stored lakers "0022300030" "2023-10-29" (pair_vector 3 4);
         stored lakers "0022300044" "2023-10-30" (pair_vector 5 6);
         stored lakers "0022300060" "2023-11-01" None;
         stored lakers "0022300075" "2023-11-04" (pair_vector 7 8) ];
     team_sequences := [] |}.

Example mixed_run :
  let games := select_team_features store_mixed lakers in
  take_while (parses 2 games) (range 1 6) = [1; 2; 3] /\
  filter (uniform 2 games) [1; 2; 3] = [3] /\
  map s_game_id (executed (build_sequences_for_team store_mixed lakers 2))
  = ["0022300044"].
Proof. cbv zeta. repeat split; vm_compute; reflexivity. Qed.

Lemma store_mixed_sized : Forall sized (team_features store_mixed).
Proof.
  unfold store_mixed, sized; cbn [team_features].
  repeat (constructor;
          [cbn; intros v Hv; try discriminate Hv;
           injection Hv as <-; eexists; reflexivity|]).
  constructor.
Qed.

Example mixed_run_follows :
  returned (build_sequences_for_team store_mixed lakers 2)
  = Ok (Z.of_nat (List.length
          (filter (uniform 2 (select_team_features store_mixed lakers))
             (take_while (parses 2 (select_team_features store_mixed lakers))
                (range (2 - 1)
                   (Z.of_nat (List.length
                                (select_team_features store_mixed lakers)))))))) /\
  executed (build_sequences_for_team store_mixed lakers 2)
  = map (row_at lakers 2 (select_team_features store_mixed lakers))
      (filter (uniform 2 (select_team_features store_mixed lakers))
         (take_while (parses 2 (select_team_features store_mixed lakers))
            (range (2 - 1)
               (Z.of_nat (List.length
                            (select_team_features store_mixed lakers)))))) /\
  exists d' t,
    build_all_sequences store_mixed 2 = (d', Ok t) /\
    teams_with_sequences t + teams_skipped t
    = Z.of_nat (List.length (select_team_ids store_mixed)).
Proof.
  apply (window_errors store_mixed lakers 2).
  - split; vm_compute; discriminate.
  - exact store_mixed_sized.
Defined.

End BuildSequencesFacts.


(* ================================================================== *)
(** * Further properties of the modelled code *)
(* ================================================================== *)

(** ** [INSERT OR REPLACE] on a keyed table *)

Module UpsertFacts.
Import db.

Section Keyed.
Context {A K : Type} (key : A -> K) (matches : K -> A -> bool).
Hypothesis matches_key : forall k a, matches k a = true <-> key a = k.

(** The shape both upserts of the store have. *)
Definition upsert_by (r : A) (t : list A) : list A :=
  filter (fun r' => negb (matches (key r) r')) t ++ [r].

Definition upsert_all_by (rows t : list A) : list A :=
  fold_left (fun t' r => upsert_by r t') rows t.

(** Some row of [rows] has the key of [x]. *)
Definition keyed_in (rows : list A) (x : A) : bool :=
  existsb (fun r => matches (key r) x) rows.

Lemma filter_filter (p q : A -> bool) (l : list A) :
  filter p (filter q l) = filter (fun x => q x && p x) l.
Proof.
  induction l as [|x l IH]; simpl; [reflexivity|].
  destruct (q x); simpl; [destruct (p x)|]; now rewrite IH.
Qed.

(** A sequence of upserts drops the rows of the table whose key is
    written, and appends what the same upserts leave of an empty table. *)
Lemma upsert_all_normal (rows t : list A) :
  upsert_all_by rows t
  = filter (fun x => negb (keyed_in rows x)) t ++ upsert_all_by rows [].
Proof.
  revert t. induction rows as [|r rows IH]; intro t.
  - simpl. rewrite app_nil_r. induction t as [|x t IHt]; simpl; now f_equal.
  - change (upsert_all_by (r :: rows) t)
      with (upsert_all_by rows (upsert_by r t)).
    change (upsert_all_by (r :: rows) [])
      with (upsert_all_by rows [r]).
    rewrite (IH (upsert_by r t)), (IH [r]).
    unfold upsert_by. rewrite filter_app, filter_filter, <- app_assoc.
    f_equal. apply filter_ext. intro x. simpl. now rewrite negb_orb.
Qed.

Lemma upsert_all_by_In (rows t : list A) (x : A) :
  In x (upsert_all_by rows t) -> In x rows \/ In x t.
Proof.
  revert t. induction rows as [|r rows IH]; intros t H; simpl in *.
  - now right.
  - apply IH in H. destruct H as [H|H]; [left; now right|].
    unfold upsert_by in H. apply in_app_or in H.
    destruct H as [H|[<-|[]]]; [|left; now left].
    right. now apply filter_In in H.
Qed.

Lemma keyed_in_self (rows : list A) (x : A) : In x rows -> keyed_in rows x = true.
Proof.
  intro H. apply existsb_exists. exists x. split; [exact H|].
  now apply matches_key.
Qed.

(** Writing the same rows a second time changes nothing. *)
Lemma upsert_all_twice (rows t : list A) :
  upsert_all_by rows (upsert_all_by rows t) = upsert_all_by rows t.
Proof.
  rewrite (upsert_all_normal rows (upsert_all_by rows t)).
  rewrite (upsert_all_normal rows t) at 1.
  rewrite filter_app, filter_filter.
  assert (filter (fun x => negb (keyed_in rows x)) (upsert_all_by rows []) = [])
    as ->.
  { assert (forall l, (forall x, In x l -> keyed_in rows x = true) ->
                      filter (fun x => negb (keyed_in rows x)) l = []) as Hnone.
    { induction l as [|x l IHl]; intro Hl; simpl; [reflexivity|].
      rewrite (Hl x) by now left. simpl. apply IHl.
      intros y Hy. apply Hl. now right. }
    apply Hnone. intros x Hx. apply upsert_all_by_In in Hx.
    destruct Hx as [Hx|[]]. now apply keyed_in_self. }
  rewrite app_nil_r, (upsert_all_normal rows t). f_equal.
  apply filter_ext. intro x. now destruct (keyed_in rows x).
Qed.

(** Looking a key up after an upsert. *)
Lemma find_upsert (k : K) (r : A) (t : list A) :
  find (matches k) (upsert_by r t)
  = if matches k r then Some r else find (matches k) t.
Proof.
  unfold upsert_by.
  destruct (matches k r) eqn:Hkr.
  - apply matches_key in Hkr. subst k.
    induction t as [|x t IH]; simpl; [now rewrite (proj2 (matches_key _ r) eq_refl)|].
    destruct (matches (key r) x) eqn:Hx; simpl; [exact IH|].
    now rewrite Hx.
  - induction t as [|x t IH]; simpl; [now rewrite Hkr|].
    destruct (matches (key r) x) eqn:Hx; simpl.
    + apply matches_key in Hx.
      destruct (matches k x) eqn:Hkx; [|exact IH].
      apply matches_key in Hkx.
      assert (matches k r = true) by (apply matches_key; congruence).
      congruence.
    + destruct (matches k x); [reflexivity|exact IH].
Qed.

Lemma find_upsert_all_other (k : K) (rows t : list A) :
  (forall r, In r rows -> matches k r = false) ->
  find (matches k) (upsert_all_by rows t) = find (matches k) t.
Proof.
  revert t. induction rows as [|r rows IH]; intros t H; simpl; [reflexivity|].
  rewrite IH by (intros r' Hr'; apply H; now right).
  rewrite find_upsert, (H r); [reflexivity|now left].
Qed.
End Keyed.

Definition feature_key_of (r : feature_row) : Z * string :=
  (f_team_id r, f_game_id r).

Definition sequence_key_of (r : sequence_row) : Z * string :=
  (s_team_id r, s_game_id r).

Lemma feature_matches_key (k : Z * string) (r : feature_row) :
  same_feature_key (fst k) (snd k) r = true <-> feature_key_of r = k.
Proof.
  unfold same_feature_key, feature_key_of. destruct k as [t g]; simpl.
  rewrite andb_true_iff, Z.eqb_eq, String.eqb_eq.
  split; [intros [-> ->]; reflexivity|intros [= -> ->]; now split].
Qed.

Lemma sequence_matches_key (k : Z * string) (r : sequence_row) :
  same_sequence_key (fst k) (snd k) r = true <-> sequence_key_of r = k.
Proof.
  unfold same_sequence_key, sequence_key_of. destruct k as [t g]; simpl.
  rewrite andb_true_iff, Z.eqb_eq, String.eqb_eq.
  split; [intros [-> ->]; reflexivity|intros [= -> ->]; now split].
Qed.

End UpsertFacts.

(** ** The whole extraction run *)

Module ExtractAllFacts.
Import Py db extract_features FloatFacts ExtractFeaturesFacts UpsertFacts.
Local Open Scope string_scope.
Local Open Scope list_scope.
Local Open Scope Z_scope.

Lemma rows_written_at_most_two (E : externals) (g : game_row) :
  (List.length (rows_written E g) <= 2)%nat.
Proof.
  unfold rows_written.
  destruct (home_feature_row E g), (away_feature_row E g); simpl; lia.
Qed.

Lemma extract_game_counters (E : externals) (st : extraction_state)
    (g : game_row) :
  inserted (extract_game E st g)
  = inserted st + Z.of_nat (List.length (rows_written E g)) /\
  skipped (extract_game E st g)
  = skipped st + (2 - Z.of_nat (List.length (rows_written E g))).
Proof.
  unfold extract_game, rows_written, store_or_skip.
  destruct (home_feature_row E g), (away_feature_row E g); simpl; lia.
Qed.

Lemma extract_games_counters (E : externals) (l : list game_row)
    (st : extraction_state) :
  inserted (fold_left (extract_game E) l st)
  = inserted st + Z.of_nat (List.length (flat_map (rows_written E) l)) /\
  skipped (fold_left (extract_game E) l st)
  = skipped st + (2 * Z.of_nat (List.length l)
                  - Z.of_nat (List.length (flat_map (rows_written E) l))).
Proof.
  revert st. induction l as [|g l IH]; intro st.
  - simpl. lia.
  - cbn [fold_left flat_map List.length]. rewrite length_app.
    destruct (IH (extract_game E st g)) as [Hi Hs].
    destruct (extract_game_counters E st g) as [Hi1 Hs1].
    rewrite Hi, Hs, Hi1, Hs1. lia.
Qed.

Lemma written_rows_bound (E : externals) (l : list game_row) :
  (List.length (flat_map (rows_written E) l) <= 2 * List.length l)%nat.
Proof.
  induction l as [|g l IH]; simpl; [lia|].
  rewrite length_app. pose proof (rows_written_at_most_two E g). lia.
Qed.

(** X2.  Every game accounts for two team-games: the two counters that
    [extract_all_features] prints add up to twice the number of games,
    [inserted] is the number of vectors written, neither is negative, and
    the run changes neither the games nor the stored sequences. *)
Theorem extraction_accounting (E : externals) (d : database) :
  let out := extract_all_features E d in
  let inserted := fst (snd out) in
  let skipped := snd (snd out) in
  inserted + skipped = 2 * Z.of_nat (List.length (games d)) /\
  inserted
  = Z.of_nat (List.length (flat_map (rows_written E) (select_games d))) /\
  0 <= inserted /\ 0 <= skipped /\
  games (fst out) = games d /\
  team_sequences (fst out) = team_sequences d.
Proof.
  cbv zeta. unfold extract_all_features. cbn [fst snd games team_sequences].
  destruct (extract_games_counters E (select_games d)
              {| features_table := team_features d; inserted := 0;
                 skipped := 0 |}) as [Hi Hs].
  rewrite Hi, Hs. cbn [extract_features.inserted extract_features.skipped].
  pose proof (written_rows_bound E (select_games d)) as Hb.
  unfold select_games in *.
  rewrite OrderByFacts.order_by_length in *.
  repeat split; lia.
Qed.

Lemma features_upsert_all (rows t : list feature_row) :
  ExtractFeaturesFacts.upsert_all rows t
  = upsert_all_by feature_key_of (fun k => same_feature_key (fst k) (snd k))
      rows t.
Proof. reflexivity. Qed.

(** X3.  Running the extraction a second time on its own result changes
    nothing: the feature table and the counters are the same. *)
Theorem extraction_idempotent (E : externals) (d : database) :
  extract_all_features E (fst (extract_all_features E d))
  = extract_all_features E d.
Proof.
  unfold extract_all_features. cbn [fst games team_features team_sequences].
  unfold select_games. cbn [games].
  fold (select_games d).
  set (st0 := {| features_table := team_features d; inserted := 0;
                 skipped := 0 |}).
  set (st1 := fold_left (extract_game E) (select_games d) st0).
  set (st0' := {| features_table := features_table st1; inserted := 0;
                  skipped := 0 |}).
  set (st2 := fold_left (extract_game E) (select_games d) st0').
  assert (features_table st2 = features_table st1) as Ht.
  { unfold st2, st0'. rewrite extract_games_table. cbn [features_table].
    unfold st1, st0. rewrite extract_games_table. cbn [features_table].
    rewrite !features_upsert_all.
    apply (upsert_all_twice feature_key_of
             (fun k => same_feature_key (fst k) (snd k))).
    intros k a. apply feature_matches_key. }
  destruct (extract_games_counters E (select_games d) st0') as [Hi2 Hs2].
  destruct (extract_games_counters E (select_games d) st0) as [Hi1 Hs1].
  fold st2 in Hi2, Hs2. fold st1 in Hi1, Hs1.
  rewrite Ht, Hi2, Hs2, Hi1, Hs1. reflexivity.
Qed.

(** After the run, a stored vector that was not in the table before has
    22 fields, all floats, none NaN or infinite. *)
Lemma stored_vectors_22 (E : externals) (d : database) (r : feature_row) :
  In r (team_features (fst (extract_all_features E d))) ->
  In r (team_features d) \/
  exists vs,
    feature_vector_json r = Some (VList (map VFloat vs)) /\
    List.length vs = 22%nat /\ Forall finite vs.
Proof.
  unfold extract_all_features. cbn [fst team_features].
  rewrite extract_games_table. cbn [features_table].
  intro Hr. apply upsert_all_In in Hr. destruct Hr as [Hr|Hr]; [|now left].
  right. apply in_flat_map in Hr. destruct Hr as (g & _ & Hr).
  apply rows_written_In in Hr.
  assert (exists h w, (h = 1%float \/ h = 0%float) /\
                      (w = 1%float \/ w = 0%float) /\ ends_with r h w)
    as (h & w & Hh & Hw & base & Hlen & Hfin & Hjson).
  { destruct Hr as [Hr|Hr].
    - apply home_feature_row_some in Hr. destruct Hr as (_ & _ & _ & _ & He).
      exists 1%float, (win_flag (home_score g) (away_score g)).
      split; [now left|]. split; [|exact He].
      unfold win_flag. destruct (_ >? _); auto.
    - apply away_feature_row_some in Hr. destruct Hr as (_ & _ & _ & _ & He).
      exists 0%float, (win_flag (away_score g) (home_score g)).
      split; [now right|]. split; [|exact He].
      unfold win_flag. destruct (_ >? _); auto. }
  exists (base ++ [h; w]). split; [exact Hjson|].
  split; [rewrite length_app; simpl; lia|].
  apply Forall_app. split; [exact Hfin|].
  assert (finite 1 /\ finite 0) as [H1 H0] by (split; split; reflexivity).
  constructor; [destruct Hh as [->| ->]; assumption|].
  constructor; [destruct Hw as [->| ->]; assumption|constructor].
Qed.

End ExtractAllFacts.

(** ** Whole runs of the sequence builder *)

Module BuildAllFacts.
Import Py db build_sequences UpsertFacts BuildSequencesFacts.
Local Open Scope string_scope.
Local Open Scope list_scope.
Local Open Scope Z_scope.

(** *** The value a call returns *)

Lemma windows_loop_count (team_id window_size : Z) (games : list feature_row)
    (indices : list Z) :
  forall created done n,
    created = Z.of_nat (List.length done) ->
    let run := windows_loop team_id window_size games indices created done in
    (returned run = Ok n -> n = Z.of_nat (List.length (executed run))) /\
    (List.length (executed run) <= List.length done + List.length indices)%nat.
Proof.
  induction indices as [|i rest IH]; intros created done n Hc; cbv zeta.
  - simpl. split; [intros [= <-]; exact Hc|lia].
  - cbn [windows_loop List.length].
    assert (forall r : run,
              returned r = Ok created -> executed r = done ->
              (returned r = Ok n -> n = Z.of_nat (List.length (executed r))) /\
              (List.length (executed r)
               <= List.length done + S (List.length rest))%nat) as Hstop.
    { intros r Hr He. rewrite Hr, He. split; [intros [= <-]; exact Hc|lia]. }
    assert (forall (r : run) e,
              returned r = Raise e -> executed r = done ->
              (returned r = Ok n -> n = Z.of_nat (List.length (executed r))) /\
              (List.length (executed r)
               <= List.length done + S (List.length rest))%nat) as Hraise.
    { intros r e Hr He. rewrite Hr, He. split; [discriminate|lia]. }
    assert (forall created' done',
              created' = Z.of_nat (List.length done') ->
              (List.length done' <= S (List.length done))%nat ->
              let r := windows_loop team_id window_size games rest
                         created' done' in
              (returned r = Ok n -> n = Z.of_nat (List.length (executed r))) /\
              (List.length (executed r)
               <= List.length done + S (List.length rest))%nat) as Hnext.
    { intros created' done' Hc' Hd'. cbv zeta.
      destruct (IH created' done' n Hc') as [H1 H2]. split; [exact H1|lia]. }
    destruct (parse_window _ [] []) as [[vs ids]|]; [|now apply Hstop].
    destruct (negb (Z.of_nat (List.length vs) =? window_size));
      [apply Hnext; [exact Hc|lia]|].
    destruct (feature_lengths vs) as [lengths|e]; [|now apply (Hraise _ e)].
    destruct (negb (distinct_count lengths =? 1)).
    + destruct (last_item ids) as [gid|e]; [|now apply (Hraise _ e)].
      apply Hnext; [exact Hc|lia].
    + destruct (last_item ids) as [gid|e]; [|now apply (Hraise _ e)].
      apply Hnext; [|rewrite length_app; simpl; lia].
      rewrite length_app. simpl. lia.
Qed.

Lemma executed_team (d : database) (team_id window_size : Z) :
  Forall (fun r => s_team_id r = team_id)
    (executed (build_sequences_for_team d team_id window_size)).
Proof.
  apply Forall_forall. unfold build_sequences_for_team.
  destruct (_ <? window_size); [intros r []|].
  apply (executed_rows team_id window_size _ (fun r => s_team_id r = team_id)).
  - reflexivity.
  - intros r [].
Qed.

(** X4.  The value [build_sequences_for_team] returns is the number of inserts
    it executed, which is at most the number of windows,
    [max 0 (N - window_size + 1)]; every insert is for the team of the
    call. *)
Theorem returned_counts_inserts (d : database) (team_id window_size n : Z) :
  let games := select_team_features d team_id in
  let run := build_sequences_for_team d team_id window_size in
  returned run = Ok n ->
  n = Z.of_nat (List.length (executed run)) /\
  n <= Z.max 0 (Z.of_nat (List.length games) - window_size + 1) /\
  Forall (fun r => s_team_id r = team_id) (executed run).
Proof.
  cbv zeta. intro Hret.
  split; [|split; [|apply executed_team]];
    revert Hret; unfold build_sequences_for_team;
    destruct (_ <? window_size) eqn:Hlt; cbn [returned executed].
  - now intros [= <-].
  - apply (windows_loop_count team_id window_size _ _ 0 [] n eq_refl).
  - intros [= <-]. lia.
  - intro Hret.
    destruct (windows_loop_count team_id window_size
                (select_team_features d team_id)
                (range (window_size - 1)
                   (Z.of_nat (List.length (select_team_features d team_id))))
                0 [] n eq_refl) as [Hn Hle].
    rewrite (Hn Hret). rewrite range_length in Hle. simpl in Hle. lia.
Qed.

Lemma returned_counts_inserts_witness :
  2 = Z.of_nat (List.length
                  (executed (build_sequences_for_team store_three_games
                               lakers 2))) /\
  2 <= Z.max 0 (Z.of_nat (List.length
                            (select_team_features store_three_games lakers))
                - 2 + 1) /\
  Forall (fun r => s_team_id r = lakers)
    (executed (build_sequences_for_team store_three_games lakers 2)).
Proof.
  apply (returned_counts_inserts store_three_games lakers 2 2).
  vm_compute. reflexivity.
Defined.

(** *** What a call leaves alone *)

Lemma store_after_sequences (d : database) (r : run) :
  team_sequences (store_after d r)
  = upsert_all_by sequence_key_of (fun k => same_sequence_key (fst k) (snd k))
      (if committed r then executed r else []) (team_sequences d).
Proof. unfold store_after. now destruct (committed r). Qed.

Lemma store_after_games (d : database) (r : run) :
  games (store_after d r) = games d.
Proof. unfold store_after. now destruct (committed r). Qed.

(** X5.  A call for one team changes neither the games, nor the feature
    vectors, nor what a lookup of another team's sequence returns. *)
Theorem other_teams_untouched (d : database) (team_id window_size : Z)
    (other : Z) (gid : string) :
  other <> team_id ->
  let d' := store_after d (build_sequences_for_team d team_id window_size) in
  select_sequence d' other gid = select_sequence d other gid /\
  games d' = games d /\
  team_features d' = team_features d.
Proof.
  intro Hne. cbv zeta.
  split; [|split; [apply store_after_games|apply store_after_features]].
  unfold select_sequence. rewrite store_after_sequences.
  apply (find_upsert_all_other sequence_key_of
           (fun k => same_sequence_key (fst k) (snd k))
           (fun k a => sequence_matches_key k a) (other, gid)).
  intros r Hr.
  assert (s_team_id r = team_id) as Ht.
  { pose proof (executed_team d team_id window_size) as Hall.
    rewrite Forall_forall in Hall. apply Hall.
    destruct (committed _); [exact Hr|destruct Hr]. }
  cbn [fst snd]. unfold same_sequence_key. rewrite Ht.
  apply andb_false_iff. left. apply Z.eqb_neq. congruence.
Qed.

(** The three-game store with two sequences already in the table: one of
    the other team, and an unreadable one under the key of the second game
    of the team itself. *)
Definition nuggets_sequence : sequence_row :=
  {| s_team_id := nuggets; s_game_id := "0022300001";
     sequence_json := Some (VList [VList [VFloat 7; VFloat 8]]) |}.

Definition stale_lakers_sequence : sequence_row :=
  {| s_team_id := lakers; s_game_id := "0022300015"; sequence_json := None |}.

Definition store_with_sequences : database :=
  {| games := [];
     team_features := team_features store_three_games;
     team_sequences := [nuggets_sequence; stale_lakers_sequence] |}.

(** The call for the first team writes its two windows, one of them over
    the unreadable row; the row of the other team is found before and
    after. *)
Lemma other_teams_untouched_witness :
  (select_sequence
     (store_after store_with_sequences
        (build_sequences_for_team store_with_sequences lakers 2))
     nuggets "0022300001"
   = select_sequence store_with_sequences nuggets "0022300001" /\
   games (store_after store_with_sequences
            (build_sequences_for_team store_with_sequences lakers 2))
   = games store_with_sequences /\
   team_features (store_after store_with_sequences
                    (build_sequences_for_team store_with_sequences lakers 2))
   = team_features store_with_sequences) /\
  select_sequence store_with_sequences nuggets "0022300001"
  = Some nuggets_sequence /\
  map (fun r => (s_team_id r, s_game_id r))
    (team_sequences
       (store_after store_with_sequences
          (build_sequences_for_team store_with_sequences lakers 2)))
  = [(nuggets, "0022300001"); (lakers, "0022300015"); (lakers, "0022300030")].
Proof.
  split; [|split; vm_compute; reflexivity].
  apply (other_teams_untouched store_with_sequences lakers 2 nuggets
           "0022300001").
  discriminate.
Defined.

(** *** The whole batch *)

Lemma build_depends_on_features (d1 d2 : database) (team_id window_size : Z) :
  team_features d1 = team_features d2 ->
  build_sequences_for_team d1 team_id window_size
  = build_sequences_for_team d2 team_id window_size.
Proof.
  intro H. unfold build_sequences_for_team, select_team_features.
  now rewrite H.
Qed.

(** The rows a batch commits, in order, and the value its loop ends with,
    as functions of the feature table alone. *)
Fixpoint batch_rows (window_size : Z) (d : database) (team_ids : list Z)
  : list sequence_row :=
  match team_ids with
  | [] => []
  | team_id :: rest =>
      let r := build_sequences_for_team d team_id window_size in
      (if committed r then executed r else []) ++
      match returned r with
      | Ok _ => batch_rows window_size d rest
      | Raise _ => []
      end
  end.

Fixpoint batch_result (window_size : Z) (d : database) (team_ids : list Z)
    (acc : totals) : result totals :=
  match team_ids with
  | [] => Ok acc
  | team_id :: rest =>
      match returned (build_sequences_for_team d team_id window_size) with
      | Raise e => Raise e
      | Ok sequences =>
          batch_result window_size d rest
            (if sequences >? 0
             then {| total_sequences := total_sequences acc + sequences;
                     teams_with_sequences := teams_with_sequences acc + 1;
                     teams_skipped := teams_skipped acc |}
             else {| total_sequences := total_sequences acc;
                     teams_with_sequences := teams_with_sequences acc;
                     teams_skipped := teams_skipped acc + 1 |})
      end
  end.

Lemma batch_rows_ext (window_size : Z) (d1 d2 : database) (team_ids : list Z) :
  team_features d1 = team_features d2 ->
  batch_rows window_size d1 team_ids = batch_rows window_size d2 team_ids.
Proof.
  intro H. induction team_ids as [|t rest IH]; simpl; [reflexivity|].
  now rewrite (build_depends_on_features d1 d2 t window_size H), IH.
Qed.

Lemma batch_result_ext (window_size : Z) (d1 d2 : database)
    (team_ids : list Z) (acc : totals) :
  team_features d1 = team_features d2 ->
  batch_result window_size d1 team_ids acc
  = batch_result window_size d2 team_ids acc.
Proof.
  intro H. revert acc. induction team_ids as [|t rest IH]; intro acc; simpl;
    [reflexivity|].
  rewrite (build_depends_on_features d1 d2 t window_size H).
  destruct (returned _); [apply IH|reflexivity].
Qed.

Definition sequences_upsert_all (rows t : list sequence_row)
  : list sequence_row :=
  upsert_all_by sequence_key_of (fun k => same_sequence_key (fst k) (snd k))
    rows t.

Lemma store_after_eq (d : database) (r : run) :
  store_after d r
  = {| games := games d;
       team_features := team_features d;
       team_sequences :=
         sequences_upsert_all (if committed r then executed r else [])
           (team_sequences d) |}.
Proof. unfold store_after. destruct (committed r); [reflexivity|now destruct d]. Qed.

Lemma teams_loop_eq (window_size : Z) (team_ids : list Z) :
  forall d acc,
    teams_loop window_size team_ids d acc
    = ({| games := games d;
          team_features := team_features d;
          team_sequences :=
            sequences_upsert_all (batch_rows window_size d team_ids)
              (team_sequences d) |},
       batch_result window_size d team_ids acc).
Proof.
  induction team_ids as [|t rest IH]; intros d acc.
  - simpl. now destruct d.
  - cbn [teams_loop batch_rows batch_result].
    set (r := build_sequences_for_team d t window_size).
    destruct (returned r) as [n|e].
    + rewrite IH.
      rewrite (batch_rows_ext window_size (store_after d r) d rest
                 (store_after_features d r)).
      rewrite (batch_result_ext window_size (store_after d r) d rest _
                 (store_after_features d r)).
      rewrite store_after_eq. cbn [games team_features team_sequences].
      unfold sequences_upsert_all, upsert_all_by. now rewrite fold_left_app.
    + rewrite app_nil_r, store_after_eq. reflexivity.
Qed.

(** X6.  Building all sequences a second time on the result of the first run
    changes nothing: the store and the totals are the same. *)
Theorem rebuild_idempotent (d : database) (window_size : Z) :
  build_all_sequences (fst (build_all_sequences d window_size)) window_size
  = build_all_sequences d window_size.
Proof.
  unfold build_all_sequences.
  rewrite (teams_loop_eq window_size (select_team_ids d) d). cbn [fst].
  set (d1 := {| games := games d; team_features := team_features d;
                team_sequences := _ |}).
  assert (team_features d1 = team_features d) as Hf by reflexivity.
  assert (select_team_ids d1 = select_team_ids d) as -> by reflexivity.
  rewrite (teams_loop_eq window_size (select_team_ids d) d1).
  rewrite (batch_rows_ext window_size d1 d _ Hf).
  rewrite (batch_result_ext window_size d1 d _ _ Hf).
  unfold d1. cbn [games team_features team_sequences].
  f_equal. f_equal. unfold sequences_upsert_all.
  apply (upsert_all_twice sequence_key_of
           (fun k => same_sequence_key (fst k) (snd k))).
  intros k a. apply sequence_matches_key.
Qed.

(** X7.  A rebuild never deletes a stored sequence: a row that was in the table
    is still there, unless the batch wrote a row of the same
    (team, game) key, which is then the row a lookup of that key finds. *)
Theorem rebuild_keeps_other_keys (d : database) (window_size : Z)
    (r : sequence_row) :
  In r (team_sequences d) ->
  let d' := fst (build_all_sequences d window_size) in
  In r (team_sequences d') \/
  exists r', select_sequence d' (s_team_id r) (s_game_id r) = Some r' /\
             In r' (batch_rows window_size d (select_team_ids d)).
Proof.
  intro Hr. cbv zeta. unfold build_all_sequences. rewrite teams_loop_eq.
  cbn [fst team_sequences]. unfold select_sequence. cbn [team_sequences].
  set (rows := batch_rows window_size d (select_team_ids d)).
  unfold sequences_upsert_all.
  destruct (keyed_in sequence_key_of
              (fun k => same_sequence_key (fst k) (snd k)) rows r) eqn:Hk.
  - right.
    assert (forall l t,
              existsb (fun x => same_sequence_key (s_team_id r) (s_game_id r) x)
                l = true ->
              exists r',
                find (same_sequence_key (s_team_id r) (s_game_id r))
                  (upsert_all_by sequence_key_of
                     (fun k => same_sequence_key (fst k) (snd k)) l t)
                = Some r' /\ In r' l) as Hfind.
    { induction l as [|x l IH]; intros t Hex; [discriminate|].
      change (upsert_all_by sequence_key_of
                (fun k => same_sequence_key (fst k) (snd k)) (x :: l) t)
        with (upsert_all_by sequence_key_of
                (fun k => same_sequence_key (fst k) (snd k)) l
                (upsert_by sequence_key_of
                   (fun k => same_sequence_key (fst k) (snd k)) x t)).
      destruct (existsb
                  (fun y => same_sequence_key (s_team_id r) (s_game_id r) y) l)
        eqn:Hl.
      - destruct (IH (upsert_by sequence_key_of
                        (fun k => same_sequence_key (fst k) (snd k)) x t) eq_refl)
          as (r' & Hf & Hin).
        exists r'. split; [exact Hf|now right].
      - simpl in Hex. rewrite Hl, orb_false_r in Hex.
        exists x. split; [|now left].
        rewrite (find_upsert_all_other sequence_key_of
                   (fun k => same_sequence_key (fst k) (snd k))
                   (fun k a => sequence_matches_key k a)
                   (s_team_id r, s_game_id r)).
        + rewrite (find_upsert sequence_key_of
                     (fun k => same_sequence_key (fst k) (snd k))
                     (fun k a => sequence_matches_key k a)
                     (s_team_id r, s_game_id r)).
          cbn [fst snd]. now rewrite Hex.
        + intros y Hy. cbn [fst snd].
          destruct (same_sequence_key (s_team_id r) (s_game_id r) y) eqn:Hy';
            [|reflexivity].
          assert (existsb
                    (fun y => same_sequence_key (s_team_id r) (s_game_id r) y)
                    l = true) as Habs
              by (apply existsb_exists; now exists y).
          congruence. }
    apply Hfind.
    unfold keyed_in in Hk. apply existsb_exists in Hk.
    destruct Hk as (x & Hx & Hm). apply existsb_exists. exists x.
    split; [exact Hx|].
    apply (sequence_matches_key (sequence_key_of x) r) in Hm.
    apply (sequence_matches_key (s_team_id r, s_game_id r) x).
    unfold sequence_key_of in *. congruence.
  - left.
    rewrite (upsert_all_normal sequence_key_of
               (fun k => same_sequence_key (fst k) (snd k))).
    apply in_or_app. left. apply filter_In. split; [exact Hr|].
    now rewrite Hk.
Qed.

Lemma returned_is_length (d : database) (team_id window_size n : Z) :
  returned (build_sequences_for_team d team_id window_size) = Ok n ->
  n = Z.of_nat (List.length
                  (executed (build_sequences_for_team d team_id window_size))).
Proof.
  unfold build_sequences_for_team.
  destruct (_ <? window_size); cbn [returned executed].
  - now intros [= <-].
  - apply (windows_loop_count team_id window_size _ _ 0 [] n eq_refl).
Qed.

Lemma upsert_all_by_length {A K : Type} (key : A -> K)
    (matches : K -> A -> bool) (rows t : list A) :
  (List.length (upsert_all_by key matches rows t)
   <= List.length t + List.length rows)%nat.
Proof.
  revert t. induction rows as [|r rows IH]; intro t.
  - simpl. lia.
  - change (upsert_all_by key matches (r :: rows) t)
      with (upsert_all_by key matches rows (upsert_by key matches r t)).
    specialize (IH (upsert_by key matches r t)).
    unfold upsert_by in IH at 2. rewrite length_app in IH.
    pose proof (filter_length_le (fun r' => negb (matches (key r) r')) t).
    simpl in *. lia.
Qed.

Lemma batch_result_totals (window_size : Z) (d : database) (team_ids : list Z) :
  forall acc t,
    batch_result window_size d team_ids acc = Ok t ->
    teams_with_sequences t + teams_skipped t
    = teams_with_sequences acc + teams_skipped acc
      + Z.of_nat (List.length team_ids) /\
    teams_with_sequences acc <= teams_with_sequences t /\
    teams_skipped acc <= teams_skipped t /\
    teams_with_sequences t - teams_with_sequences acc
    <= total_sequences t - total_sequences acc /\
    Z.of_nat (List.length (batch_rows window_size d team_ids))
    <= total_sequences t - total_sequences acc.
Proof.
  induction team_ids as [|team_id rest IH]; intros acc t.
  - simpl. intros [= <-]. lia.
  - cbn [batch_result batch_rows].
    destruct (returned (build_sequences_for_team d team_id window_size))
      as [n|] eqn:Hret; [|discriminate].
    apply returned_is_length in Hret.
    intro H. apply IH in H.
    rewrite length_app.
    assert (List.length
              (if committed (build_sequences_for_team d team_id window_size)
               then executed (build_sequences_for_team d team_id window_size)
               else [])
            <= List.length
                 (executed (build_sequences_for_team d team_id window_size)))%nat
      as Hc by (destruct (committed _); simpl; lia).
    destruct (n >? 0) eqn:Hn;
      cbn [total_sequences teams_with_sequences teams_skipped] in H;
      cbn [List.length]; lia.
Qed.

(** X8.  The counters [build_all_sequences] prints when it returns: every team
    is counted once, as a team with sequences or as a skipped one; a team
    with sequences adds at least one to the total; and the table grows by
    at most the printed total. *)
Theorem batch_totals (d : database) (window_size : Z) (t : totals) :
  snd (build_all_sequences d window_size) = Ok t ->
  teams_with_sequences t + teams_skipped t
  = Z.of_nat (List.length (select_team_ids d)) /\
  0 <= teams_with_sequences t <= total_sequences t /\
  0 <= teams_skipped t /\
  Z.of_nat (List.length
              (team_sequences (fst (build_all_sequences d window_size))))
  <= Z.of_nat (List.length (team_sequences d)) + total_sequences t.
Proof.
  unfold build_all_sequences. rewrite teams_loop_eq. cbn [fst snd].
  intro H. apply batch_result_totals in H.
  cbn [total_sequences teams_with_sequences teams_skipped team_sequences] in *.
  pose proof (upsert_all_by_length sequence_key_of
                (fun k => same_sequence_key (fst k) (snd k))
                (batch_rows window_size d (select_team_ids d))
                (team_sequences d)) as Hl.
  unfold sequences_upsert_all. lia.
Qed.

(** On the store of six games with one unparseable vector the printed
    total is 1, and no row is stored. *)
Lemma batch_totals_witness :
  let t := {| total_sequences := 1; teams_with_sequences := 1;
              teams_skipped := 0 |} in
  teams_with_sequences t + teams_skipped t
  = Z.of_nat (List.length (select_team_ids store_mixed)) /\
  0 <= teams_with_sequences t <= total_sequences t /\
  0 <= teams_skipped t /\
  Z.of_nat (List.length
              (team_sequences (fst (build_all_sequences store_mixed 2))))
  <= Z.of_nat (List.length (team_sequences store_mixed)) + total_sequences t.
Proof.
  apply (batch_totals store_mixed 2).
  vm_compute. reflexivity.
Defined.

Example mixed_batch_stores_nothing :
  team_sequences (fst (build_all_sequences store_mixed 2)) = [] /\
  snd (build_all_sequences store_mixed 2)
  = Ok {| total_sequences := 1; teams_with_sequences := 1;
          teams_skipped := 0 |}.
Proof. split; vm_compute; reflexivity. Qed.

(** On the store with two stored sequences the batch writes the two
    windows of the first team.  The row of the other team is kept; the
    unreadable row is gone, and a lookup of its key finds the window the
    batch wrote for that game. *)
Lemma rebuild_keeps_other_keys_witness :
  let d' := fst (build_all_sequences store_with_sequences 2) in
  ((In nuggets_sequence (team_sequences d') \/
    exists r',
      select_sequence d' (s_team_id nuggets_sequence)
        (s_game_id nuggets_sequence) = Some r' /\
      In r' (batch_rows 2 store_with_sequences
               (select_team_ids store_with_sequences))) /\
   In nuggets_sequence (team_sequences d')) /\
  ((In stale_lakers_sequence (team_sequences d') \/
    exists r',
      select_sequence d' (s_team_id stale_lakers_sequence)
        (s_game_id stale_lakers_sequence) = Some r' /\
      In r' (batch_rows 2 store_with_sequences
               (select_team_ids store_with_sequences))) /\
   select_sequence d' lakers "0022300015"
   = Some {| s_team_id := lakers; s_game_id := "0022300015";
             sequence_json :=
               Some (VList [VList [VFloat 1; VFloat 2];
                            VList [VFloat 3; VFloat 4]]) |} /\
   map sequence_json (team_sequences d')
   = [ sequence_json nuggets_sequence;
       Some (VList [VList [VFloat 1; VFloat 2]; VList [VFloat 3; VFloat 4]]);
       Some (VList [VList [VFloat 3; VFloat 4]; VList [VFloat 5; VFloat 6]]) ]).
Proof.
  cbv zeta. split; split.
  - apply (rebuild_keeps_other_keys store_with_sequences 2 nuggets_sequence).
    left. reflexivity.
  - vm_compute. left. reflexivity.
  - apply (rebuild_keeps_other_keys store_with_sequences 2
             stale_lakers_sequence).
    right. left. reflexivity.
  - split; vm_compute; reflexivity.
Defined.

End BuildAllFacts.

(** An instance of the library calls that also casts an int that
    [float32] represents exactly. *)
Definition plain_externals_ints : Py.externals :=
  {| Py.int_of_str := fun _ => Py.Raise Py.ValueError;
     Py.float_of_str := fun _ => Py.Raise Py.ValueError;
     Py.np_float32 := fun v =>
       match v with
       | Py.VFloat f => Py.Ok f
       | Py.VInt z => Py.float_of_Z z
       | _ => Py.Raise Py.TypeError
       end |}.

(** [os.path.dirname] of the POSIX flavour: the part before the last
    slash, without trailing slashes unless it holds nothing else. *)
Definition posix_dirname (path : string) : string :=
  let slash := Ascii.eqb "/"%char in
  let fix drop_while (p : Ascii.ascii -> bool) (l : list Ascii.ascii) :=
    match l with
    | [] => []
    | c :: rest => if p c then drop_while p rest else l
    end in
  let head := drop_while (fun c => negb (slash c))
                (rev (list_ascii_of_string path)) in
  if forallb slash head
  then string_of_list_ascii (rev head)
  else string_of_list_ascii (rev (drop_while slash head)).

(** A file system in which every directory can be made and every write
    succeeds; the empty path names no directory, and [os.makedirs] raises
    [FileNotFoundError] on it. *)
Definition plain_file_system : dataset_builder.file_system :=
  {| dataset_builder.dirname := posix_dirname;
     dataset_builder.makedirs := fun p =>
       if String.eqb p "" then Py.Raise Py.OSError else Py.Ok tt;
     dataset_builder.torch_save := fun _ _ => Py.Ok tt;
     dataset_builder.getsize := fun _ => Py.Ok 0 |}.

(** ** The export step *)

Module ExportFacts.
Import Py db dataset_builder FloatFacts DatasetBuilderFacts.
Local Open Scope string_scope.
Local Open Scope list_scope.
Local Open Scope Z_scope.

Lemma shape_eqb_eq (s1 s2 : list Z) : shape_eqb s1 s2 = true <-> s1 = s2.
Proof.
  unfold shape_eqb. destruct (list_eq_dec Z.eq_dec s1 s2); split; congruence.
Qed.

Lemma np_stack_ok (arrays : list ndarray) (a : ndarray) :
  np_stack arrays = Ok a ->
  data a = List.concat (map data arrays) /\
  ((arrays = [] /\ shape a = [0]) \/
   (arrays <> [] /\
    exists s, (forall b, In b arrays -> shape b = s) /\
              shape a = Z.of_nat (List.length arrays) :: s)).
Proof.
  unfold np_stack. destruct arrays as [|a0 others].
  - intros [= <-]. split; [reflexivity|]. now left.
  - destruct (forallb _ others) eqn:Hall; [|discriminate].
    intros [= <-]. split; [reflexivity|]. right. split; [discriminate|].
    exists (shape a0). split; [|reflexivity].
    intros b [<-|Hb]; [reflexivity|].
    rewrite forallb_forall in Hall. now apply shape_eqb_eq, Hall.
Qed.

Lemma np_column_ok (E : externals) (zs : list Z) (a : ndarray) :
  np_column E zs = Ok a -> shape a = [Z.of_nat (List.length zs); 1].
Proof.
  unfold np_column. destruct (cast_ints E zs); simpl; [|discriminate].
  now intros [= <-].
Qed.

Lemma nan_to_num_finite (a : ndarray) : Forall finite (data (nan_to_num a)).
Proof.
  unfold nan_to_num; cbn [data]. apply Forall_map, Forall_forall.
  intros x _. unfold finite.
  destruct (isnan x || isinf x) eqn:H.
  - split; reflexivity.
  - now apply orb_false_elim in H.
Qed.

(** X9.  When [convert_to_tensors] returns, the batch was not empty, all its
    home sequences have one shape and all its away sequences have one
    shape; the sequence tensors carry that shape behind a first axis of
    [num_samples], the three target tensors are columns of [num_samples]
    rows, [num_features] is the second entry of [sequence_shape], and no
    element of a sequence tensor is NaN or infinite. *)
Theorem converted_tensors (E : externals) (l : list sample) (t : tensor_dict) :
  convert_to_tensors E l = Ok t ->
  l <> [] /\
  num_samples t = Z.of_nat (List.length l) /\
  (forall s, In s l -> shape (sequenceA s) = sequence_shape t) /\
  (exists sb, (forall s, In s l -> shape (sequenceB s) = sb) /\
              shape (t_sequenceB t) = num_samples t :: sb) /\
  shape (t_sequenceA t) = num_samples t :: sequence_shape t /\
  nth_error (sequence_shape t) 1 = Some (num_features t) /\
  shape (t_scoreA t) = [num_samples t; 1] /\
  shape (t_scoreB t) = [num_samples t; 1] /\
  shape (t_winA t) = [num_samples t; 1] /\
  Forall finite (data (t_sequenceA t)) /\
  Forall finite (data (t_sequenceB t)).
Proof.
  unfold convert_to_tensors.
  destruct (np_stack (map sequenceA l)) as [sa|] eqn:Hsa; simpl; [|discriminate].
  destruct (np_stack (map sequenceB l)) as [sb|] eqn:Hsb; simpl; [|discriminate].
  destruct (np_column E (map scoreA l)) as [ca|] eqn:Hca; simpl; [|discriminate].
  destruct (np_column E (map scoreB l)) as [cb|] eqn:Hcb; simpl; [|discriminate].
  destruct (np_column E (map winA l)) as [cw|] eqn:Hcw; simpl; [|discriminate].
  unfold shape_at. cbn [nan_to_num shape].
  destruct (nth_error (shape sa) 2) as [f|] eqn:Hf; simpl; [|discriminate].
  intros [= <-]. cbn.
  apply np_stack_ok in Hsa, Hsb.
  destruct Hsa as [_ [[Hnil Hshape]|(Hne & s & Hall & Hshape)]].
  { rewrite Hshape in Hf. discriminate Hf. }
  destruct Hsb as [_ [[Hnil Hshape']|(_ & s' & Hall' & Hshape')]].
  { apply map_eq_nil in Hnil. subst l. now elim Hne. }
  rewrite length_map in Hshape, Hshape'.
  apply np_column_ok in Hca, Hcb, Hcw. rewrite length_map in Hca, Hcb, Hcw.
  rewrite Hshape in *. cbn [tl].
  split; [intros ->; now apply Hne|].
  split; [reflexivity|].
  split; [intros x Hx; apply Hall; now apply in_map|].
  split.
  { exists s'. split; [intros x Hx; apply Hall'; now apply in_map|exact Hshape']. }
  split; [reflexivity|]. split; [exact Hf|].
  split; [exact Hca|]. split; [exact Hcb|]. split; [exact Hcw|].
  split; [apply (nan_to_num_finite sa)|apply (nan_to_num_finite sb)].
Qed.

Definition tensors_110_108 : tensor_dict :=
  {| t_sequenceA := {| shape := [1; 1; 2]; data := [1%float; 2%float] |};
     t_sequenceB := {| shape := [1; 1; 2]; data := [1%float; 2%float] |};
     t_scoreA := {| shape := [1; 1]; data := [110%float] |};
     t_scoreB := {| shape := [1; 1]; data := [108%float] |};
     t_winA := {| shape := [1; 1]; data := [1%float] |};
     num_samples := 1;
     sequence_shape := [1; 2];
     num_features := 2 |}.

Example convert_110_108 :
  convert_to_tensors plain_externals_ints [sample_110_108]
  = Ok tensors_110_108.
Proof. vm_compute. reflexivity. Qed.

Lemma converted_tensors_witness :
  [sample_110_108] <> [] /\
  num_samples tensors_110_108 = Z.of_nat (List.length [sample_110_108]) /\
  (forall s, In s [sample_110_108] ->
             shape (sequenceA s) = sequence_shape tensors_110_108) /\
  (exists sb, (forall s, In s [sample_110_108] -> shape (sequenceB s) = sb) /\
              shape (t_sequenceB tensors_110_108)
              = num_samples tensors_110_108 :: sb) /\
  shape (t_sequenceA tensors_110_108)
  = num_samples tensors_110_108 :: sequence_shape tensors_110_108 /\
  nth_error (sequence_shape tensors_110_108) 1
  = Some (num_features tensors_110_108) /\
  shape (t_scoreA tensors_110_108) = [num_samples tensors_110_108; 1] /\
  shape (t_scoreB tensors_110_108) = [num_samples tensors_110_108; 1] /\
  shape (t_winA tensors_110_108) = [num_samples tensors_110_108; 1] /\
  Forall finite (data (t_sequenceA tensors_110_108)) /\
  Forall finite (data (t_sequenceB tensors_110_108)).
Proof.
  apply (converted_tensors plain_externals_ints [sample_110_108]
           tensors_110_108).
  vm_compute. reflexivity.
Defined.

(** A ragged batch: the two samples' home sequences have different
    shapes, and the conversion raises. *)
Example convert_ragged_raises :
  convert_to_tensors plain_externals_ints
    [sample_110_108;
     {| sample_game_id := "0022300002"; sample_game_date := "2023-10-25";
        sample_season := "22023";
        teamA_id := 1610612747; teamB_id := 1610612743;
        sequenceA := {| shape := [1; 3]; data := [1%float; 2%float; 3%float] |};
        sequenceB := {| shape := [1; 2]; data := [1%float; 2%float] |};
        scoreA := 100; scoreB := 101; winA := 0 |}]
  = Raise ValueError.
Proof. vm_compute. reflexivity. Qed.

Lemma np_stack_uniform (arrays : list ndarray) (s : list Z) :
  arrays <> [] ->
  (forall b, In b arrays -> shape b = s) ->
  np_stack arrays
  = Ok {| shape := Z.of_nat (List.length arrays) :: s;
          data := List.concat (map data arrays) |}.
Proof.
  intros Hne Hall. unfold np_stack.
  destruct arrays as [|a others]; [now elim Hne|].
  assert (forallb (fun b => shape_eqb (shape b) (shape a)) others = true)
    as ->.
  { apply forallb_forall. intros b Hb. apply shape_eqb_eq.
    rewrite (Hall b), (Hall a); [reflexivity|now left|now right]. }
  rewrite (Hall a) by now left. reflexivity.
Qed.

Lemma cast_ints_ok (E : externals) (zs : list Z) :
  (forall z, In z zs -> exists x, np_float32 E (VInt z) = Ok x) ->
  exists xs, cast_ints E zs = Ok xs.
Proof.
  induction zs as [|z zs IH]; intro H; simpl.
  - now exists [].
  - destruct (H z) as [x ->]; [now left|].
    destruct IH as [xs ->]; [intros z' Hz'; apply H; now right|].
    simpl. now eexists.
Qed.

Example dirname_of_default_path :
  posix_dirname default_output_path = "data/processed" /\
  posix_dirname "training.pt" = "" /\
  posix_dirname "/training.pt" = "/".
Proof. repeat split; vm_compute; reflexivity. Qed.

Lemma main_none (E : externals) (F : file_system) (d : database)
    (output_path : string) :
  main E F d output_path = Ok None <->
  samples (build_matchup_samples E d) = [].
Proof.
  unfold main. destruct (samples (build_matchup_samples E d)) as [|s0 l'].
  - split; reflexivity.
  - assert ((Z.of_nat (List.length (s0 :: l')) =? 0) = false) as ->
      by (apply Z.eqb_neq; simpl; lia).
    split; [|discriminate].
    destruct (convert_to_tensors E (s0 :: l')); cbn [bind]; [|discriminate].
    destruct (save_dataset F _ output_path); cbn [bind]; discriminate.
Qed.

(** X10.  The dict [main] hands to [save_dataset] counts at least one sample;
    that count is the number of samples built, and with the number of
    games skipped it adds up to the number of games of the store.  This
    holds for every file system and every output path. *)
Theorem main_counts_games (E : externals) (F : file_system) (d : database)
    (output_path : string) (t : tensor_dict) :
  main E F d output_path = Ok (Some t) ->
  1 <= num_samples t /\
  num_samples t = Z.of_nat (List.length (samples (build_matchup_samples E d))) /\
  num_samples t + skipped (build_matchup_samples E d)
  = Z.of_nat (List.length (games d)).
Proof.
  pose proof (batch_accounting E d) as [_ Hsum]. cbv zeta in Hsum.
  unfold main. set (l := samples (build_matchup_samples E d)) in *.
  destruct l as [|s0 l'] eqn:Hl; [discriminate|].
  assert ((Z.of_nat (List.length (s0 :: l')) =? 0) = false) as ->
    by (apply Z.eqb_neq; simpl; lia).
  destruct (convert_to_tensors E (s0 :: l')) as [t'|] eqn:Hc; cbn [bind];
    [|discriminate].
  destruct (save_dataset F t' output_path); cbn [bind]; [|discriminate].
  intros [= <-].
  assert (num_samples t' = Z.of_nat (List.length (s0 :: l'))) as Hn.
  { revert Hc. unfold convert_to_tensors.
    repeat match goal with
           | |- context [bind ?m _] =>
               destruct m; cbn [bind]; [|discriminate]
           end.
    now intros [= <-]. }
  rewrite Hn. split; [simpl; lia|]. split; [reflexivity|exact Hsum].
Qed.

Lemma main_counts_games_witness :
  1 <= num_samples tensors_110_108 /\
  num_samples tensors_110_108
  = Z.of_nat (List.length
                (samples (build_matchup_samples plain_externals_ints
                            store_110_108))) /\
  num_samples tensors_110_108
  + skipped (build_matchup_samples plain_externals_ints store_110_108)
  = Z.of_nat (List.length (games store_110_108)).
Proof.
  apply (main_counts_games plain_externals_ints plain_file_system
           store_110_108 default_output_path tensors_110_108).
  vm_compute. reflexivity.
Defined.

(** A path without a directory part: [os.path.dirname] is the empty
    string, [os.makedirs] raises on it, and [main] raises after the dict
    was built. *)
Example main_without_directory_raises :
  main plain_externals_ints plain_file_system store_110_108 "training.pt"
  = Raise OSError.
Proof. vm_compute. reflexivity. Qed.

End ExportFacts.

(** ** From the feature table to the samples *)

Module PipelineFacts.
Import Py db extract_features build_sequences dataset_builder.
Import FloatFacts DatasetBuilderFacts ExtractFeaturesFacts ExtractAllFacts.
Import UpsertFacts BuildSequencesFacts BuildAllFacts ExportFacts.
Local Open Scope string_scope.
Local Open Scope list_scope.
Local Open Scope Z_scope.

(** *** Arrays of rows of floats *)

(** The inner loop of [np_array] over the items of a list. *)
Definition np_each (E : externals) : list value -> result (list ndarray) :=
  fix each (l : list value) : result (list ndarray) :=
    match l with
    | [] => Ok []
    | x :: rest =>
        a <- np_array E x ;;
        others <- each rest ;;
        Ok (a :: others)
    end.

Lemma np_array_list (E : externals) (items : list value) :
  np_array E (VList items)
  = (arrays <- np_each E items ;;
     match arrays with
     | [] => Ok {| shape := [0]; data := [] |}
     | a :: others =>
         if forallb (fun b => shape_eqb (shape b) (shape a)) others
         then Ok {| shape := Z.of_nat (List.length arrays) :: shape a;
                    data := List.concat (map data arrays) |}
         else Raise ValueError
     end).
Proof. reflexivity. Qed.

Lemma np_each_shapes (E : externals) (P : value -> Prop) (s : list Z)
    (items : list value) :
  (forall v a, P v -> np_array E v = Ok a -> shape a = s) ->
  Forall P items ->
  forall arrays,
    np_each E items = Ok arrays ->
    List.length arrays = List.length items /\
    Forall (fun a => shape a = s) arrays.
Proof.
  intros HP. induction 1 as [|v items Hv _ IH]; intros arrays; simpl.
  - intros [= <-]. split; [reflexivity|constructor].
  - destruct (np_array E v) as [a|] eqn:Ha; simpl; [|discriminate].
    fold (np_each E items).
    destruct (np_each E items) as [others|] eqn:Ho; simpl; [|discriminate].
    intros [= <-]. destruct (IH others eq_refl) as [Hl Hs].
    split; [simpl; now rewrite Hl|].
    constructor; [now apply (HP v)|exact Hs].
Qed.

(** An array made of [n >= 1] items that all give shape [s] has shape
    [n :: s]. *)
Lemma np_array_uniform (E : externals) (P : value -> Prop) (s : list Z)
    (items : list value) (a : ndarray) :
  (forall v a, P v -> np_array E v = Ok a -> shape a = s) ->
  Forall P items -> items <> [] ->
  np_array E (VList items) = Ok a ->
  shape a = Z.of_nat (List.length items) :: s.
Proof.
  intros HP Hall Hne. rewrite np_array_list.
  destruct (np_each E items) as [arrays|] eqn:He; simpl; [|discriminate].
  destruct (np_each_shapes E P s items HP Hall arrays He) as [Hl Hs].
  destruct arrays as [|a0 others].
  - destruct items; [now elim Hne|discriminate Hl].
  - destruct (forallb _ others); [|discriminate].
    intros [= <-]. cbn [shape]. rewrite <- Hl.
    inversion Hs; subst. reflexivity.
Qed.

(** A vector of [k] floats. *)
Definition float_row (k : nat) (v : value) : Prop :=
  exists vs, v = VList (map VFloat vs) /\ List.length vs = k.

Lemma np_array_float_row (E : externals) (k : nat) (v : value) (a : ndarray) :
  float_row k v -> np_array E v = Ok a -> shape a = [Z.of_nat k].
Proof.
  intros (vs & -> & <-). rewrite np_array_list.
  destruct (np_each E (map VFloat vs)) as [arrays|] eqn:He; simpl;
    [|discriminate].
  destruct (np_each_shapes E (fun v => exists f, v = VFloat f) []
              (map VFloat vs)) with (arrays := arrays) as [Hl Hs].
  - intros v a' [f ->]. simpl.
    destruct (np_float32 E (VFloat f)); simpl; [|discriminate].
    now intros [= <-].
  - apply Forall_map, Forall_forall. intros f _. now exists f.
  - exact He.
  - rewrite length_map in Hl.
    destruct arrays as [|a0 others].
    + intros [= <-]. cbn [shape]. now rewrite <- Hl.
    + destruct (forallb _ others); [|discriminate].
      intros [= <-]. cbn [shape]. rewrite <- Hl.
      inversion Hs as [|? ? Hs0 ?]; subst. rewrite Hs0. reflexivity.
Qed.

(** *** Stores whose sequences all have one shape *)

(** Every stored sequence that parses is a list of [w >= 1] vectors of [k]
    floats. *)
Definition uniform_sequences (w : Z) (k : nat) (d : database) : Prop :=
  forall r seq,
    In r (team_sequences d) -> sequence_json r = Some seq ->
    exists rows,
      seq = VList rows /\ rows <> [] /\
      Z.of_nat (List.length rows) = w /\ Forall (float_row k) rows.

Lemma load_sequence_shape (E : externals) (d : database) (w : Z) (k : nat)
    (t : Z) (gid : string) (a : ndarray) :
  uniform_sequences w k d ->
  load_sequence E d t gid = Some a ->
  shape a = [w; Z.of_nat k].
Proof.
  intros Hu. unfold load_sequence, select_sequence, json_loads.
  destruct (find _ (team_sequences d)) as [row|] eqn:Hfind; [|discriminate].
  apply find_some in Hfind. destruct Hfind as [Hin _].
  destruct (sequence_json row) as [seq|] eqn:Hseq; [|discriminate].
  destruct (Hu row seq Hin Hseq) as (rows & -> & Hne & Hlen & Hrows).
  destruct (np_array E (VList rows)) as [a'|] eqn:Ha; [|discriminate].
  intros [= <-]. rewrite <- Hlen.
  apply (np_array_uniform E (float_row k) [Z.of_nat k] rows a');
    try assumption.
  intros v b. apply np_array_float_row.
Qed.

(** X11.  On a store whose sequences are all [w] vectors of [k] floats, both
    sequences of every emitted sample have shape [(w, k)]: there the
    per-timestep arity of the two teams agrees too. *)
Theorem uniform_store_shapes (E : externals) (d : database) (w : Z) (k : nat)
    (s : sample) :
  uniform_sequences w k d ->
  In s (samples (build_matchup_samples E d)) ->
  shape (sequenceA s) = [w; Z.of_nat k] /\
  shape (sequenceB s) = [w; Z.of_nat k].
Proof.
  intros Hu Hin. apply build_samples_of_games in Hin.
  destruct Hin as (g & _ & HA & HB & _).
  split; eapply load_sequence_shape; eassumption.
Qed.

Lemma store_110_108_uniform : uniform_sequences 1 2 store_110_108.
Proof.
  intros r seq [<-|[<-|[]]] [= <-];
    (exists [VList [VFloat 1; VFloat 2]];
     split; [reflexivity|]; split; [discriminate|]; split; [reflexivity|];
     repeat constructor; exists [1%float; 2%float]; now split).
Qed.

Lemma uniform_store_shapes_witness :
  shape (sequenceA sample_110_108) = [1; Z.of_nat 2] /\
  shape (sequenceB sample_110_108) = [1; Z.of_nat 2].
Proof.
  apply (uniform_store_shapes plain_externals store_110_108 1 2 sample_110_108).
  - exact store_110_108_uniform.
  - vm_compute. left. reflexivity.
Defined.

(** *** What the build step stores *)

Lemma slice_incl {A : Type} (l : list A) (a b : Z) (x : A) :
  In x (slice l a b) -> In x l.
Proof. unfold slice. apply segment_incl. Qed.

Lemma vectors_of_rows (P : value -> Prop) (w : list feature_row)
    (vs : list value) :
  (forall g v, In g w -> feature_vector_json g = Some v -> P v) ->
  vectors w = Some vs -> Forall P vs.
Proof.
  intros HP Hv. apply vectors_Forall2 in Hv.
  induction Hv as [|g v w vs Hg _ IH]; constructor.
  - apply (HP g); [now left|exact Hg].
  - apply IH. intros g' v' Hin. apply HP. now right.
Qed.

(** A row the build step executes holds [window_size] vectors, each the
    stored vector of a feature row of the store. *)
Lemma executed_vectors (P : value -> Prop) (d : database)
    (team_id window_size : Z) (r : sequence_row) :
  (forall g v, In g (team_features d) -> feature_vector_json g = Some v ->
               P v) ->
  In r (executed (build_sequences_for_team d team_id window_size)) ->
  exists rows,
    sequence_json r = Some (VList rows) /\
    Z.of_nat (List.length rows) = window_size /\ Forall P rows.
Proof.
  intros HP. unfold build_sequences_for_team.
  set (games := select_team_features d team_id).
  destruct (Z.of_nat (List.length games) <? window_size); [intros []|].
  apply (executed_rows team_id window_size games
           (fun r => exists rows,
              sequence_json r = Some (VList rows) /\
              Z.of_nat (List.length rows) = window_size /\ Forall P rows)).
  - intros i vs ids gid _ Hparse Hlen _.
    exists vs. split; [reflexivity|]. split; [exact Hlen|].
    rewrite parse_window_vectors in Hparse.
    destruct (vectors _) as [vs'|] eqn:Hv; [|discriminate].
    injection Hparse as <- _. cbn [app].
    apply (vectors_of_rows P _ vs' ) in Hv; [exact Hv|].
    intros g v Hg. apply slice_incl in Hg.
    apply OrderByFacts.select_team_features_In in Hg. apply HP, Hg.
  - intros r' [].
Qed.

Lemma batch_rows_In (window_size : Z) (d : database) (team_ids : list Z)
    (r : sequence_row) :
  In r (batch_rows window_size d team_ids) ->
  exists team_id,
    In r (executed (build_sequences_for_team d team_id window_size)).
Proof.
  induction team_ids as [|t rest IH]; [intros []|].
  cbn [batch_rows]. intro H. apply in_app_or in H. destruct H as [H|H].
  - exists t. destruct (committed _); [exact H|destruct H].
  - destruct (returned _); [now apply IH|destruct H].
Qed.

(** After [build_all_sequences], a stored sequence is one that was stored
    before or [window_size] feature vectors of the store. *)
Lemma built_sequences (P : value -> Prop) (d : database) (window_size : Z)
    (r : sequence_row) :
  (forall g v, In g (team_features d) -> feature_vector_json g = Some v ->
               P v) ->
  In r (team_sequences (fst (build_all_sequences d window_size))) ->
  In r (team_sequences d) \/
  exists rows,
    sequence_json r = Some (VList rows) /\
    Z.of_nat (List.length rows) = window_size /\ Forall P rows.
Proof.
  intros HP. unfold build_all_sequences. rewrite teams_loop_eq.
  cbn [fst team_sequences]. unfold sequences_upsert_all. intro Hr.
  apply upsert_all_by_In in Hr. destruct Hr as [Hr|Hr]; [|now left].
  right. apply batch_rows_In in Hr. destruct Hr as [t Hr].
  now apply (executed_vectors P d t).
Qed.

(** *** The pipeline *)

(** The store feature extraction starts from in [run_full_pipeline]: the
    tables as [initialize_db] leaves them, and the games the ingestion
    wrote, which is the only table it writes. *)
Definition ingested (gs : list game_row) : database :=
  {| games := gs;
     team_features := team_features initialize_db;
     team_sequences := team_sequences initialize_db |}.

(** Steps 3 and 4 of [run_full_pipeline]. *)
Definition features_and_sequences (E : externals) (gs : list game_row)
    (window_size : Z) : database :=
  fst (build_all_sequences (fst (extract_all_features E (ingested gs)))
         window_size).

Lemma extracted_rows_22 (E : externals) (gs : list game_row) (g : feature_row)
    (v : value) :
  In g (team_features (fst (extract_all_features E (ingested gs)))) ->
  feature_vector_json g = Some v -> float_row 22 v.
Proof.
  intros Hg Hv. apply stored_vectors_22 in Hg.
  destruct Hg as [[]|(vs & Hjson & Hlen & _)].
  exists vs. split; [congruence|exact Hlen].
Qed.

Lemma pipeline_sequences_uniform (E : externals) (gs : list game_row)
    (window_size : Z) :
  0 < window_size ->
  uniform_sequences window_size 22 (features_and_sequences E gs window_size).
Proof.
  intros HW r seq Hr Hseq. unfold features_and_sequences in Hr.
  apply (built_sequences (float_row 22)) in Hr.
  - destruct Hr as [Hr|(rows & Hjson & Hlen & Hrows)].
    + change False in Hr. destruct Hr.
    + exists rows. split; [congruence|]. split; [|now split].
      intros ->. simpl in Hlen. lia.
  - apply extracted_rows_22.
Qed.

(** X12.  Run on freshly ingested games with a positive window size, the
    pipeline produces samples whose two sequences both have shape
    [(window_size, 22)], whatever the games' records hold. *)
Theorem pipeline_sample_shapes (E : externals) (gs : list game_row)
    (window_size : Z) (s : sample) :
  0 < window_size ->
  In s (samples (build_matchup_samples E
                   (features_and_sequences E gs window_size))) ->
  shape (sequenceA s) = [window_size; 22] /\
  shape (sequenceB s) = [window_size; 22].
Proof.
  intros HW Hs. apply build_samples_of_games in Hs.
  destruct Hs as (g & _ & HA & HB & _).
  pose proof (pipeline_sequences_uniform E gs window_size HW) as Hu.
  split.
  - exact (load_sequence_shape E _ window_size 22%nat _ _ _ Hu HA).
  - exact (load_sequence_shape E _ window_size 22%nat _ _ _ Hu HB).
Qed.

Definition sample_3_2 : sample :=
  {| sample_game_id := "0022300001"; sample_game_date := "2023-10-24";
     sample_season := "22023";
     teamA_id := 1610612747; teamB_id := 1610612743;
     sequenceA :=
       {| shape := [1; 22];
          data := [3; 1; 1; 0; 1.5; 1.5; 1; 1; 0; 0; 0; 0; 0; 0; 0; 0; 0;
                   1.5; 1.5; 0; 1; 1]%float |};
     sequenceB :=
       {| shape := [1; 22];
          data := [2; 0.5; 0; 0; 0.5; 0.5; 2; 0; 0; 0; 0; 0; 0; 0; 0; 0; 0;
                   1.5; 1.5; 0; 0; 0]%float |};
     scoreA := 3; scoreB := 2; winA := 1 |}.

Example pipeline_3_2 :
  samples (build_matchup_samples plain_externals
             (features_and_sequences plain_externals [game_3_2] 1))
  = [sample_3_2].
Proof. vm_compute. reflexivity. Qed.

Lemma pipeline_sample_shapes_witness :
  shape (sequenceA sample_3_2) = [1; 22] /\
  shape (sequenceB sample_3_2) = [1; 22].
Proof.
  apply (pipeline_sample_shapes plain_externals [game_3_2] 1 sample_3_2).
  - reflexivity.
  - vm_compute. left. reflexivity.
Defined.

(** *** The dataset of the pipeline *)

Lemma pipeline_games (E : externals) (gs : list game_row) (window_size : Z) :
  games (features_and_sequences E gs window_size) = gs.
Proof.
  unfold features_and_sequences, build_all_sequences.
  rewrite teams_loop_eq. reflexivity.
Qed.

(** numpy casts the int [z] to [float32] without raising. *)
Definition castable (E : externals) (z : Z) : Prop :=
  exists x, np_float32 E (VInt z) = Ok x.

(** X13.  On freshly ingested games whose scores numpy can cast, step 5 of the
    pipeline raises only where a file-system call of [save_dataset]
    raises.  Either no sample was built, and [main] returns without
    saving; or [convert_to_tensors] returns a dict that counts the samples
    built, whose sequence tensors have shape
    [(num_samples, window_size, 22)], whose [sequence_shape] is
    [(window_size, 22)] and whose [num_features] is 22, and [main] hands
    that dict to [save_dataset] and ends as [save_dataset] does. *)
Theorem pipeline_dataset (E : externals) (F : file_system)
    (gs : list game_row) (window_size : Z) (output_path : string) :
  0 < window_size ->
  castable E 0 -> castable E 1 ->
  (forall g, In g gs ->
             castable E (home_score g) /\ castable E (away_score g)) ->
  let d := features_and_sequences E gs window_size in
  let l := samples (build_matchup_samples E d) in
  let n := Z.of_nat (List.length l) in
  (n = 0 /\ main E F d output_path = Ok None) \/
  (exists t,
     convert_to_tensors E l = Ok t /\
     num_samples t = n /\
     sequence_shape t = [window_size; 22] /\
     num_features t = 22 /\
     shape (t_sequenceA t) = [n; window_size; 22] /\
     shape (t_sequenceB t) = [n; window_size; 22] /\
     main E F d output_path
     = (saved <- save_dataset F t output_path ;; Ok (Some t))).
Proof.
  intros HW H0 H1 Hscores. cbv zeta.
  set (d := features_and_sequences E gs window_size).
  assert (forall s, In s (samples (build_matchup_samples E d)) ->
                    shape (sequenceA s) = [window_size; 22] /\
                    shape (sequenceB s) = [window_size; 22]) as Hshape.
  { intros s Hs. apply build_samples_of_games in Hs.
    destruct Hs as (g & _ & HA & HB & _).
    pose proof (pipeline_sequences_uniform E gs window_size HW) as Hu.
    split.
    - exact (load_sequence_shape E _ window_size 22%nat _ _ _ Hu HA).
    - exact (load_sequence_shape E _ window_size 22%nat _ _ _ Hu HB). }
  assert (forall s, In s (samples (build_matchup_samples E d)) ->
                    castable E (scoreA s) /\ castable E (scoreB s) /\
                    castable E (winA s)) as Hcast.
  { intros s Hs. apply build_samples_of_games in Hs.
    destruct Hs as (g & Hg & Hs).
    destruct Hs as (_ & _ & _ & _ & _ & _ & _ & _ & -> & -> & ->).
    unfold d in Hg. rewrite pipeline_games in Hg.
    destruct (Hscores g Hg) as [Hh Ha].
    split; [exact Hh|]. split; [exact Ha|].
    destruct (_ >? _); assumption. }
  unfold main.
  destruct (samples (build_matchup_samples E d)) as [|s0 l'] eqn:Hl.
  { left. split; reflexivity. }
  right. set (l := s0 :: l') in *.
  assert ((Z.of_nat (List.length l) =? 0) = false) as ->
    by (apply Z.eqb_neq; unfold l; simpl; lia).
  assert (exists t,
            convert_to_tensors E l = Ok t /\
            num_samples t = Z.of_nat (List.length l) /\
            sequence_shape t = [window_size; 22] /\
            num_features t = 22 /\
            shape (t_sequenceA t)
            = [Z.of_nat (List.length l); window_size; 22] /\
            shape (t_sequenceB t)
            = [Z.of_nat (List.length l); window_size; 22])
    as (t & Hconv & Hrest).
  { unfold convert_to_tensors.
    rewrite (np_stack_uniform (map sequenceA l) [window_size; 22]).
    2: { unfold l. discriminate. }
    2: { intros b Hb. apply in_map_iff in Hb. destruct Hb as (s & <- & Hs).
         now apply Hshape. }
    rewrite (np_stack_uniform (map sequenceB l) [window_size; 22]).
    2: { unfold l. discriminate. }
    2: { intros b Hb. apply in_map_iff in Hb. destruct Hb as (s & <- & Hs).
         now apply Hshape. }
    cbn [bind]. unfold np_column.
    destruct (cast_ints_ok E (map scoreA l)) as [xa ->].
    { intros z Hz. apply in_map_iff in Hz. destruct Hz as (s & <- & Hs).
      now apply Hcast. }
    destruct (cast_ints_ok E (map scoreB l)) as [xb ->].
    { intros z Hz. apply in_map_iff in Hz. destruct Hz as (s & <- & Hs).
      now apply Hcast. }
    destruct (cast_ints_ok E (map winA l)) as [xw ->].
    { intros z Hz. apply in_map_iff in Hz. destruct Hz as (s & <- & Hs).
      now apply Hcast. }
    cbn [bind]. unfold shape_at, nan_to_num. cbn [shape nth_error bind].
    eexists. split; [reflexivity|].
    cbn [num_samples sequence_shape num_features t_sequenceA t_sequenceB
         shape tl].
    rewrite !length_map. repeat split; reflexivity. }
  exists t. rewrite Hconv. cbn [bind].
  split; [reflexivity|].
  destruct Hrest as (Hn & Hss & Hnf & HA & HB).
  repeat split; assumption.
Qed.

(** The game of [store_3_2] through steps 3 to 5 with a window of one
    game: the dict is built and, under the default path, saved; under a
    path without a directory part [main] raises. *)
Lemma pipeline_dataset_witness :
  let d := features_and_sequences plain_externals_ints [game_3_2] 1 in
  let l := samples (build_matchup_samples plain_externals_ints d) in
  let n := Z.of_nat (List.length l) in
  ((n = 0 /\
    main plain_externals_ints plain_file_system d default_output_path
    = Ok None) \/
   (exists t,
      convert_to_tensors plain_externals_ints l = Ok t /\
      num_samples t = n /\
      sequence_shape t = [1; 22] /\
      num_features t = 22 /\
      shape (t_sequenceA t) = [n; 1; 22] /\
      shape (t_sequenceB t) = [n; 1; 22] /\
      main plain_externals_ints plain_file_system d default_output_path
      = (saved <- save_dataset plain_file_system t default_output_path ;;
         Ok (Some t)))) /\
  n = 1 /\
  (exists t,
     main plain_externals_ints plain_file_system d default_output_path
     = Ok (Some t)) /\
  main plain_externals_ints plain_file_system d "training.pt" = Raise OSError.
Proof.
  cbv zeta. split; [|split; [|split]].
  - apply (pipeline_dataset plain_externals_ints plain_file_system
             [game_3_2] 1 default_output_path).
    + reflexivity.
    + eexists. vm_compute. reflexivity.
    + eexists. vm_compute. reflexivity.
    + intros g [<-|[]]. split; eexists; vm_compute; reflexivity.
  - vm_compute. reflexivity.
  - eexists. vm_compute. reflexivity.
  - vm_compute. reflexivity.
Defined.

(** *** The outcome inside the input *)

Lemma np_each_app (E : externals) (l1 l2 : list value) :
  forall arrays,
    np_each E (l1 ++ l2) = Ok arrays ->
    exists a1 a2,
      np_each E l1 = Ok a1 /\ np_each E l2 = Ok a2 /\ arrays = a1 ++ a2.
Proof.
  induction l1 as [|v l1 IH]; intros arrays; simpl.
  - intro H. now exists [], arrays.
  - destruct (np_array E v) as [a|]; cbn [bind]; [|discriminate].
    fold (np_each E (l1 ++ l2)). fold (np_each E l1).
    destruct (np_each E (l1 ++ l2)) as [others|] eqn:Ho; cbn [bind];
      [|discriminate].
    intros [= <-]. destruct (IH others eq_refl) as (a1 & a2 & -> & H2 & ->).
    cbn [bind]. now exists (a :: a1), a2.
Qed.

Lemma np_array_data (E : externals) (items : list value) (a : ndarray) :
  np_array E (VList items) = Ok a ->
  exists arrays,
    np_each E items = Ok arrays /\ data a = List.concat (map data arrays).
Proof.
  rewrite np_array_list.
  destruct (np_each E items) as [arrays|]; cbn [bind]; [|discriminate].
  intro H. exists arrays. split; [reflexivity|].
  destruct arrays as [|a0 others]; [now injection H as <-|].
  destruct (forallb _ others); [|discriminate]. now injection H as <-.
Qed.

Lemma np_each_single (E : externals) (v : value) (arrays : list ndarray) :
  np_each E [v] = Ok arrays ->
  exists a, np_array E v = Ok a /\ arrays = [a].
Proof.
  unfold np_each.
  destruct (np_array E v) as [a|]; cbn [bind]; [|discriminate].
  intros [= <-]. now exists a.
Qed.

(** The last element of an array built from rows is the last element of
    its last row. *)
Lemma np_array_last_row (E : externals) (rows : list value) (v : value)
    (a : ndarray) (d : float) :
  np_array E (VList (rows ++ [v])) = Ok a ->
  exists av,
    np_array E v = Ok av /\
    (data av <> [] -> last (data a) d = last (data av) d).
Proof.
  intro H. apply np_array_data in H. destruct H as (arrays & He & Hd).
  apply np_each_app in He. destruct He as (a1 & a2 & _ & H2 & ->).
  apply np_each_single in H2. destruct H2 as (av & Hav & ->).
  exists av. split; [exact Hav|].
  intro Hne. rewrite Hd, map_app, concat_app. simpl. rewrite app_nil_r.
  assert (forall (l1 l2 : list float), l2 <> [] ->
            last (l1 ++ l2) d = last l2 d) as Hlast.
  { intros l1 l2 Hl2. induction l1 as [|y l1 IH]; [reflexivity|].
    simpl. destruct (l1 ++ l2) eqn:Happ; [|exact IH].
    apply app_eq_nil in Happ. now destruct Happ. }
  now apply Hlast.
Qed.

Lemma np_array_scalar (E : externals) (f x : float) (a : ndarray) :
  np_float32 E (VFloat f) = Ok x ->
  np_array E (VFloat f) = Ok a -> data a = [x].
Proof. simpl. intros ->. cbn [bind]. now intros [= <-]. Qed.

(** The last element of a sequence array whose last vector ends with the
    float [w]. *)
Lemma np_array_last (E : externals) (rows : list value) (fs : list float)
    (w x : float) (a : ndarray) (d : float) :
  np_float32 E (VFloat w) = Ok x ->
  np_array E (VList (rows ++ [VList (map VFloat (fs ++ [w]))])) = Ok a ->
  last (data a) d = x.
Proof.
  intros Hx Ha.
  destruct (np_array_last_row E rows _ a d Ha) as (av & Hav & Hlast).
  rewrite map_app in Hav. cbn [map] in Hav.
  destruct (np_array_last_row E (map VFloat fs) (VFloat w) av d Hav)
    as (aw & Haw & Hlast').
  rewrite (np_array_scalar E w x aw Hx Haw) in Hlast'.
  assert (data av <> []) as Hne.
  { apply np_array_data in Hav. destruct Hav as (arrays & He & Hd).
    apply np_each_app in He. destruct He as (a1 & a2 & _ & H2 & ->).
    apply np_each_single in H2. destruct H2 as (aw' & Haw' & ->).
    rewrite Haw in Haw'. injection Haw' as <-.
    rewrite Hd, map_app, concat_app. simpl.
    rewrite (np_array_scalar E w x aw Hx Haw).
    intro Habs. apply app_eq_nil in Habs. destruct Habs as [_ Habs].
    discriminate Habs. }
  rewrite (Hlast Hne). apply Hlast'. discriminate.
Qed.

Lemma unique_game (gs : list game_row) (g1 g2 : game_row) :
  NoDup (map game_id gs) -> In g1 gs -> In g2 gs ->
  game_id g1 = game_id g2 -> g1 = g2.
Proof.
  induction gs as [|g gs IH]; [intros _ []|].
  simpl. intros Hnd [<-|H1] [<-|H2] Heq; inversion Hnd as [|? ? Hnot Hrest];
    subst.
  - reflexivity.
  - elim Hnot. rewrite Heq. now apply in_map.
  - elim Hnot. rewrite <- Heq. now apply in_map.
  - now apply IH.
Qed.

(** A feature row of the pipeline was written for a game of the input, as
    its home or as its away vector. *)
Lemma pipeline_feature_rows (E : externals) (gs : list game_row)
    (r : feature_row) :
  In r (team_features (fst (extract_all_features E (ingested gs)))) ->
  exists g, In g gs /\
            (home_feature_row E g = Some r \/ away_feature_row E g = Some r).
Proof.
  unfold extract_all_features. cbn [fst team_features].
  rewrite extract_games_table. cbn [features_table].
  intro Hr. apply upsert_all_In in Hr. destruct Hr as [Hr|[]].
  apply in_flat_map in Hr. destruct Hr as (g & Hg & Hr).
  apply OrderByFacts.select_games_In in Hg. apply rows_written_In in Hr.
  now exists g.
Qed.

(** A sequence row of the pipeline is a window of its team's feature rows
    that ends at the game it is keyed by. *)
Lemma pipeline_sequence_rows (E : externals) (gs : list game_row)
    (window_size : Z) (row : sequence_row) :
  In row (team_sequences (features_and_sequences E gs window_size)) ->
  window_ending_at_key (s_team_id row) window_size
    (select_team_features (fst (extract_all_features E (ingested gs)))
       (s_team_id row))
    row.
Proof.
  unfold features_and_sequences, build_all_sequences.
  rewrite teams_loop_eq. cbn [fst team_sequences].
  unfold sequences_upsert_all. intro Hr.
  apply upsert_all_by_In in Hr. destruct Hr as [Hr|Hr].
  2: { change False in Hr. destruct Hr. }
  apply batch_rows_In in Hr. destruct Hr as [t Hr].
  set (d1 := fst (extract_all_features E (ingested gs))) in *.
  assert (s_team_id row = t) as ->.
  { pose proof (executed_team d1 t window_size) as Ht.
    rewrite Forall_forall in Ht. now apply Ht. }
  revert Hr. unfold build_sequences_for_team.
  set (games := select_team_features d1 t).
  destruct (Z.of_nat (List.length games) <? window_size); [intros []|].
  apply (executed_rows t window_size games
           (window_ending_at_key t window_size games)).
  - intros i vs ids gid Hi. apply range_In in Hi. now apply emitted_window.
  - intros r' [].
Qed.

(** The array [load_sequence] returns in the pipeline for a team of a game
    ends with that team's WIN flag for that very game. *)
Lemma loaded_sequence_ends_with_win (E : externals) (gs : list game_row)
    (window_size : Z) (g : game_row) (team_id : Z) (a : ndarray) (d : float) :
  NoDup (map game_id gs) ->
  np_float32 E (VFloat 1) = Ok 1%float ->
  np_float32 E (VFloat 0) = Ok 0%float ->
  In g gs ->
  load_sequence E (features_and_sequences E gs window_size) team_id
    (game_id g) = Some a ->
  (team_id = home_team_id g ->
   last (data a) d = win_flag (home_score g) (away_score g)) /\
  (team_id = away_team_id g ->
   last (data a) d = win_flag (away_score g) (home_score g)).
Proof.
  intros Hnd H1 H0 Hg. unfold load_sequence, select_sequence, json_loads.
  destruct (find _ _) as [row|] eqn:Hfind; [|discriminate].
  apply find_some in Hfind. destruct Hfind as [Hrow Hkey].
  apply (sequence_matches_key (team_id, game_id g) row) in Hkey.
  unfold sequence_key_of in Hkey. injection Hkey as Hteam Hgid.
  apply pipeline_sequence_rows in Hrow.
  destruct Hrow as (earlier & before & g' & later & vbefore & v & Hgames &
                    _ & _ & Hv & Hjson & Hgid' & _).
  rewrite Hjson.
  destruct (np_array E (VList (vbefore ++ [v]))) as [a'|] eqn:Ha;
    [|discriminate].
  intros [= <-].
  assert (In g' (select_team_features
                   (fst (extract_all_features E (ingested gs)))
                   (s_team_id row))) as Hin.
  { rewrite Hgames. apply in_or_app. right. apply in_or_app. left.
    apply in_or_app. right. now left. }
  apply OrderByFacts.select_team_features_In in Hin.
  destruct Hin as [Hin Hteam'].
  apply pipeline_feature_rows in Hin. destruct Hin as (g'' & Hg'' & Hrow).
  assert (forall x y, np_float32 E (VFloat (win_flag x y))
                      = Ok (win_flag x y)) as Hcast
    by (intros x y; unfold win_flag; destruct (_ >? _); assumption).
  destruct Hrow as [Hrow|Hrow].
  - apply home_feature_row_some in Hrow.
    destruct Hrow as (Hne & Ht & Hid & _ & base & _ & _ & Hvec).
    assert (g'' = g) as -> by (apply (unique_game gs); congruence).
    rewrite Hvec in Hv. injection Hv as <-.
    replace (base ++ [1%float; win_flag (home_score g) (away_score g)])
      with ((base ++ [1%float]) ++ [win_flag (home_score g) (away_score g)])
      in Ha by now rewrite <- app_assoc.
    split; intro Hside.
    + apply (np_array_last E vbefore (base ++ [1%float]) _ _ a' d
               (Hcast (home_score g) (away_score g)) Ha).
    + congruence.
  - apply away_feature_row_some in Hrow.
    destruct Hrow as (Hne & Ht & Hid & _ & base & _ & _ & Hvec).
    assert (g'' = g) as -> by (apply (unique_game gs); congruence).
    rewrite Hvec in Hv. injection Hv as <-.
    replace (base ++ [0%float; win_flag (away_score g) (home_score g)])
      with ((base ++ [0%float]) ++ [win_flag (away_score g) (home_score g)])
      in Ha by now rewrite <- app_assoc.
    split; intro Hside.
    + congruence.
    + apply (np_array_last E vbefore (base ++ [0%float]) _ _ a' d
               (Hcast (away_score g) (home_score g)) Ha).
Qed.

(** X14.  Run on freshly ingested games with distinct ids, the pipeline puts the
    outcome of a game into the input built for it: the last element of
    [sequenceA] is the home team's WIN flag of the sample's own game, 1.0
    exactly when the label [winA] is 1, and the last element of [sequenceB]
    is the away team's WIN flag. *)
Theorem label_is_in_the_input (E : externals) (gs : list game_row)
    (window_size : Z) (s : sample) (d : float) :
  NoDup (map game_id gs) ->
  np_float32 E (VFloat 1) = Ok 1%float ->
  np_float32 E (VFloat 0) = Ok 0%float ->
  In s (samples (build_matchup_samples E
                   (features_and_sequences E gs window_size))) ->
  last (data (sequenceA s)) d = win_flag (scoreA s) (scoreB s) /\
  last (data (sequenceB s)) d = win_flag (scoreB s) (scoreA s) /\
  (winA s = 1 <-> last (data (sequenceA s)) d = 1%float).
Proof.
  intros Hnd H1 H0 Hs. apply build_samples_of_games in Hs.
  destruct Hs as (g & Hg & HA & HB & _ & _ & _ & _ & _ & _ & -> & -> & ->).
  rewrite pipeline_games in Hg.
  destruct (loaded_sequence_ends_with_win E gs window_size g (home_team_id g)
              (sequenceA s) d Hnd H1 H0 Hg HA) as [HlastA _].
  destruct (loaded_sequence_ends_with_win E gs window_size g (away_team_id g)
              (sequenceB s) d Hnd H1 H0 Hg HB) as [_ HlastB].
  rewrite (HlastA eq_refl), (HlastB eq_refl).
  split; [reflexivity|]. split; [reflexivity|].
  unfold win_flag. destruct (home_score g >? away_score g).
  - split; reflexivity.
  - split; [discriminate|]. intro H. symmetry in H.
    now apply one_is_not_zero in H.
Qed.

Lemma label_is_in_the_input_witness :
  last (data (sequenceA sample_3_2)) 0%float
  = win_flag (scoreA sample_3_2) (scoreB sample_3_2) /\
  last (data (sequenceB sample_3_2)) 0%float
  = win_flag (scoreB sample_3_2) (scoreA sample_3_2) /\
  (winA sample_3_2 = 1 <-> last (data (sequenceA sample_3_2)) 0%float = 1%float).
Proof.
  apply (label_is_in_the_input plain_externals [game_3_2] 1 sample_3_2).
  - repeat constructor. intros [].
  - reflexivity.
  - reflexivity.
  - vm_compute. left. reflexivity.
Defined.

End PipelineFacts.

(** ** The two sides of one game *)

Module TwoSidesFacts.
Import Py db extract_features FloatFacts ExtractFeaturesFacts.
Local Open Scope string_scope.
Local Open Scope list_scope.
Local Open Scope Z_scope.

Lemma SFadd_comm (prec emax : Z) (x y : spec_float) :
  SFadd prec emax x y = SFadd prec emax y x.
Proof.
  destruct x as [sx|sx| |sx mx ex], y as [sy|sy| |sy my ey]; simpl;
    try reflexivity; try (destruct sx, sy; reflexivity).
  change (IntDef.Z.min ey ex) with (Z.min ey ex).
  change (IntDef.Z.min ex ey) with (Z.min ex ey).
  rewrite (Z.min_comm ey ex). f_equal. apply Z.add_comm.
Qed.

Lemma float_add_comm (x y : float) : (x + y)%float = (y + x)%float.
Proof. apply Prim2SF_inj. rewrite !add_spec. apply SFadd_comm. Qed.

(** An input of length 2 is visited as two items. *)
Lemma two_items (entries : value) (items : list value) :
  len entries = Ok 2 -> iter entries = Ok items ->
  exists a b, items = [a; b].
Proof.
  assert (forall A (l : list A),
            Z.of_nat (List.length l) = 2 -> exists a b, l = [a; b]) as Htwo.
  { intros A [|a [|b [|c l]]] H; simpl in H; try lia. now exists a, b. }
  destruct entries as [ | | | | s | l | d]; try discriminate; simpl;
    intros [= Hlen] [= <-].
  - apply Htwo. rewrite <- Hlen. f_equal. clear.
    induction s as [|c s IH]; simpl; [reflexivity|now rewrite IH].
  - now apply Htwo.
  - apply Htwo. now rewrite length_map.
Qed.

(** The statistics that the possession estimate and the two scores are
    read from. *)
Lemma read_locals_stats (E : externals) (te oe : value) (s : locals) :
  read_locals E te oe = Ok s ->
  stat E te "PTS" 0 = Ok (pts s) /\
  stat E te "FGA" 0 = Ok (fga s) /\
  stat E te "FTA" 0 = Ok (fta s) /\
  stat E te "OREB" 0 = Ok (oreb s) /\
  stat E te "TOV" 0 = Ok (tov s) /\
  stat E oe "PTS" 0 = Ok (opp_pts s) /\
  stat E oe "FGA" 0 = Ok (opp_fga s) /\
  stat E oe "FTA" 0 = Ok (opp_fta s) /\
  stat E oe "OREB" 0 = Ok (opp_oreb s) /\
  stat E oe "TOV" 0 = Ok (opp_tov s).
Proof.
  unfold read_locals.
  destruct (stat E te "PTS" 0) as [x1|]; cbn [bind]; [|discriminate].
  destruct (stat E te "FGM" 0); cbn [bind]; [|discriminate].
  destruct (stat E te "FGA" 0) as [x2|]; cbn [bind]; [|discriminate].
  destruct (stat E te "FG3M" 0); cbn [bind]; [|discriminate].
  destruct (stat E te "FG3A" 0); cbn [bind]; [|discriminate].
  destruct (stat E te "FTM" 0); cbn [bind]; [|discriminate].
  destruct (stat E te "FTA" 0) as [x3|]; cbn [bind]; [|discriminate].
  destruct (stat E te "AST" 0); cbn [bind]; [|discriminate].
  destruct (stat E te "TOV" 0) as [x5|]; cbn [bind]; [|discriminate].
  destruct (stat E te "OREB" 0) as [x4|]; cbn [bind]; [|discriminate].
  destruct (stat E te "DREB" 0); cbn [bind]; [|discriminate].
  destruct (stat E te "REB" 0); cbn [bind]; [|discriminate].
  destruct (stat E te "STL" 0); cbn [bind]; [|discriminate].
  destruct (stat E te "BLK" 0); cbn [bind]; [|discriminate].
  destruct (stat E te "PF" 0); cbn [bind]; [|discriminate].
  destruct (stat E te "PLUS_MINUS" 0); cbn [bind]; [|discriminate].
  destruct (stat E oe "FGM" 0); cbn [bind]; [|discriminate].
  destruct (stat E oe "FGA" 0) as [y2|]; cbn [bind]; [|discriminate].
  destruct (stat E oe "FTA" 0) as [y3|]; cbn [bind]; [|discriminate].
  destruct (stat E oe "OREB" 0) as [y4|]; cbn [bind]; [|discriminate].
  destruct (stat E oe "TOV" 0) as [y5|]; cbn [bind]; [|discriminate].
  destruct (stat E oe "PTS" 0) as [y1|]; cbn [bind]; [|discriminate].
  destruct (stat E te "MIN" 48); cbn [bind]; [|discriminate].
  intros [= <-]. cbn. repeat split; reflexivity.
Qed.

(** Among two items, the call for the other side finds the same two
    records with their roles exchanged. *)
Lemma find_entries_exchanged (E : externals) (a b : value) (t o : Z)
    (te oe te' oe' : value) :
  find_entries E [a; b] t o None None = Ok (Some te, Some oe) ->
  find_entries E [a; b] o t None None = Ok (Some te', Some oe') ->
  te' = oe /\ oe' = te.
Proof.
  simpl.
  destruct (entry_team_id E a) as [za|]; cbn [bind]; [|discriminate].
  destruct (entry_team_id E b) as [zb|]; cbn [bind];
    [|destruct (za =? t); [|destruct (za =? o)]; discriminate].
  destruct (Z.eqb_spec za t), (Z.eqb_spec za o), (Z.eqb_spec zb t),
    (Z.eqb_spec zb o); subst;
    try rewrite Z.eqb_refl; cbn [bind];
    intros H1 H2; try discriminate; try congruence;
    injection H1 as <- <-; injection H2 as <- <-; now split.
Qed.

(** X15.  The two calls that [extract_all_features] makes for one game agree
    wherever they read the same numbers: each side's own points are the
    other side's opponent points, and the possession estimate, entry 17 of
    the vector, is the same for both. *)
Theorem two_sides_agree (E : externals) (raw : json_text) (t o : Z)
    (r1 r2 : extracted) :
  extract_features_from_raw_json E raw t o = Some r1 ->
  extract_features_from_raw_json E raw o t = Some r2 ->
  x_pts r1 = x_opp_pts r2 /\
  x_opp_pts r1 = x_pts r2 /\
  nth_error (feature_vector r1) 17 = nth_error (feature_vector r2) 17.
Proof.
  intros H1 H2. apply extract_some in H1, H2.
  destruct H1 as (entries & items & te & oe & s1 & -> & Hlen & Hit & Hf1 &
                  Hs1 & ->).
  destruct H2 as (entries' & items' & te' & oe' & s2 & [= <-] & _ & Hit' &
                  Hf2 & Hs2 & ->).
  rewrite Hit in Hit'. injection Hit' as <-.
  destruct (two_items entries items Hlen Hit) as (a & b & ->).
  destruct (find_entries_exchanged E a b t o te oe te' oe' Hf1 Hf2)
    as [-> ->].
  apply read_locals_stats in Hs1, Hs2.
  destruct Hs1 as (Hp1 & Ha1 & Hb1 & Hc1 & Hd1 & Hq1 & He1 & Hf1' & Hg1 & Hh1).
  destruct Hs2 as (Hp2 & Ha2 & Hb2 & Hc2 & Hd2 & Hq2 & He2 & Hf2' & Hg2 & Hh2).
  assert (pts s1 = opp_pts s2) as Hpts by congruence.
  assert (opp_pts s1 = pts s2) as Hopp by congruence.
  cbn [x_pts x_opp_pts feature_vector].
  split; [exact Hpts|]. split; [exact Hopp|].
  unfold feature_vector_of. cbn [map nth_error]. do 2 f_equal.
  unfold poss, team_poss, opp_poss.
  replace (fga s2) with (opp_fga s1) by congruence.
  replace (fta s2) with (opp_fta s1) by congruence.
  replace (oreb s2) with (opp_oreb s1) by congruence.
  replace (tov s2) with (opp_tov s1) by congruence.
  replace (opp_fga s2) with (fga s1) by congruence.
  replace (opp_fta s2) with (fta s1) by congruence.
  replace (opp_oreb s2) with (oreb s1) by congruence.
  replace (opp_tov s2) with (tov s1) by congruence.
  f_equal. apply float_add_comm.
Qed.

Definition rival_features : extracted :=
  {| feature_vector :=
       [2; 0.5; 0; 0; 0.5; 0.5; 2; 0; 0; 0; 0; 0; 0; 0; 0; 0; 0; 1.5; 1.5; 0]%float;
     x_pts := 2; x_opp_pts := 3 |}.

Lemma two_sides_agree_witness :
  x_pts shooter_features = x_opp_pts rival_features /\
  x_opp_pts shooter_features = x_pts rival_features /\
  nth_error (feature_vector shooter_features) 17
  = nth_error (feature_vector rival_features) 17.
Proof.
  apply (two_sides_agree plain_externals (Some (VList [shooter; rival]))
           1610612747 1610612743 shooter_features rival_features).
  - vm_compute. reflexivity.
  - vm_compute. reflexivity.
Defined.

(** X16.  The result does not depend on the order of the two records in the
    raw JSON. *)
Theorem entry_order_irrelevant (E : externals) (a b : value) (t o : Z) :
  extract_features_from_raw_json E (Some (VList [a; b])) t o
  = extract_features_from_raw_json E (Some (VList [b; a])) t o.
Proof.
  unfold extract_features_from_raw_json, extract_body, json_loads.
  cbn [len iter List.length Z.of_nat bind].
  change (negb (Z.of_nat 2 =? 2)) with false. cbv iota.
  cbn [find_entries].
  destruct (entry_team_id E a) as [za|]; cbn [bind];
    destruct (entry_team_id E b) as [zb|]; cbn [bind];
    try reflexivity.
  - destruct (Z.eqb_spec za t), (Z.eqb_spec za o), (Z.eqb_spec zb t),
      (Z.eqb_spec zb o); subst; cbn [bind]; try reflexivity; try congruence.
  - destruct (za =? t); [|destruct (za =? o)]; reflexivity.
  - destruct (zb =? t); [|destruct (zb =? o)]; reflexivity.
Qed.

End TwoSidesFacts.

(** ** The order and the count of the samples *)

Module SampleOrderFacts.
Import Py db dataset_builder DatasetBuilderFacts.
Local Open Scope string_scope.
Local Open Scope list_scope.
Local Open Scope Z_scope.

Lemma compare_refl (a : string) : String.compare a a = Eq.
Proof.
  pose proof (String.compare_antisym a a) as H.
  destruct (String.compare a a); [reflexivity|discriminate|discriminate].
Qed.

Lemma compare_lt_trans (a b c : string) :
  String.compare a b = Lt -> String.compare b c = Lt ->
  String.compare a c = Lt.
Proof.
  intros H1 H2. apply OrderedTypeEx.String_as_OT.cmp_lt.
  apply OrderedTypeEx.String_as_OT.cmp_lt in H1, H2.
  eapply OrderedTypeEx.String_as_OT.lt_trans; eassumption.
Qed.

Lemma string_leb_trans (a b c : string) :
  String.leb a b = true -> String.leb b c = true -> String.leb a c = true.
Proof.
  unfold String.leb.
  destruct (String.compare a b) eqn:Hab; [| |discriminate];
    destruct (String.compare b c) eqn:Hbc; try discriminate; intros _ _.
  - apply String.compare_eq_iff in Hab, Hbc. subst. now rewrite compare_refl.
  - apply String.compare_eq_iff in Hab. subst. now rewrite Hbc.
  - apply String.compare_eq_iff in Hbc. subst. now rewrite Hab.
  - now rewrite (compare_lt_trans a b c Hab Hbc).
Qed.

Lemma date_id_leb_trans (a b c : string * string) :
  date_id_leb a b = true -> date_id_leb b c = true -> date_id_leb a c = true.
Proof.
  unfold date_id_leb.
  destruct (String.compare (fst a) (fst b)) eqn:Hab; [| |discriminate];
    destruct (String.compare (fst b) (fst c)) eqn:Hbc; try discriminate.
  - apply String.compare_eq_iff in Hab, Hbc. rewrite Hab, Hbc, compare_refl.
    apply string_leb_trans.
  - apply String.compare_eq_iff in Hab. now rewrite Hab, Hbc.
  - apply String.compare_eq_iff in Hbc. now rewrite <- Hbc, Hab.
  - now rewrite (compare_lt_trans _ _ _ Hab Hbc).
Qed.

(** The columns the games are ordered by, as a sample carries them. *)
Definition sample_key (s : sample) : string * string :=
  (sample_game_date s, sample_game_id s).

Definition in_order (s1 s2 : sample) : Prop :=
  date_id_leb (sample_key s1) (sample_key s2) = true.

Lemma assemble_appends (E : externals) (d : database) (b : batch)
    (g : game_row) :
  samples (assemble E d b g) = samples b \/
  exists s, samples (assemble E d b g) = samples b ++ [s] /\
            sample_key s = game_key g.
Proof.
  unfold assemble.
  destruct (load_sequence E d (home_team_id g) (game_id g)); [|now left].
  destruct (load_sequence E d (away_team_id g) (game_id g)); [|now left].
  destruct (negb _ || negb _); [now left|].
  destruct (negb _); [now left|].
  right. eexists. split; reflexivity.
Qed.

Lemma StronglySorted_snoc {A : Type} (R : A -> A -> Prop) (l : list A)
    (x : A) :
  StronglySorted R l -> Forall (fun y => R y x) l ->
  StronglySorted R (l ++ [x]).
Proof.
  induction 1 as [|a l Hl IH Ha]; intro Hx; simpl.
  - constructor; constructor.
  - inversion Hx as [|? ? Hax Hlx]; subst. constructor.
    + now apply IH.
    + apply Forall_app. split; [exact Ha|]. now constructor.
Qed.

Lemma assemble_in_order (E : externals) (d : database) (l : list game_row) :
  StronglySorted (OrderByFacts.ascending game_key date_id_leb) l ->
  forall b,
    StronglySorted in_order (samples b) ->
    (forall s g, In s (samples b) -> In g l ->
                 date_id_leb (sample_key s) (game_key g) = true) ->
    StronglySorted in_order (samples (fold_left (assemble E d) l b)).
Proof.
  induction 1 as [|g l Hl IH Hg]; intros b Hb Hbefore; simpl; [exact Hb|].
  rewrite Forall_forall in Hg.
  apply IH.
  - destruct (assemble_appends E d b g) as [->|(s & -> & Hs)]; [exact Hb|].
    apply StronglySorted_snoc; [exact Hb|].
    apply Forall_forall. intros s' Hs'. unfold in_order. rewrite Hs.
    apply Hbefore; [exact Hs'|now left].
  - intros s g' Hs Hg'.
    destruct (assemble_appends E d b g) as [Heq|(s' & Heq & Hs')];
      rewrite Heq in Hs.
    + apply Hbefore; [exact Hs|now right].
    + apply in_app_or in Hs. destruct Hs as [Hs|[<-|[]]].
      * apply Hbefore; [exact Hs|now right].
      * rewrite Hs'. now apply Hg.
Qed.

(** X17.  The samples come out in the order of the query: ascending game date,
    then ascending game id, whatever the order of the rows in the table. *)
Theorem samples_in_date_order (E : externals) (d : database) :
  StronglySorted in_order (samples (build_matchup_samples E d)).
Proof.
  unfold build_matchup_samples. apply assemble_in_order.
  - apply Sorted_StronglySorted.
    + intros a b c. unfold OrderByFacts.ascending. apply date_id_leb_trans.
    + apply OrderByFacts.order_by_sorted, OrderByFacts.date_id_leb_total.
  - constructor.
  - intros s g [].
Qed.

(** *** The physical order of the rows *)

Lemma date_id_leb_antisym (a b : string * string) :
  date_id_leb a b = true -> date_id_leb b a = true -> a = b.
Proof.
  unfold date_id_leb. destruct a as [a1 a2], b as [b1 b2]; cbn [fst snd].
  rewrite (String.compare_antisym b1 a1).
  destruct (String.compare a1 b1) eqn:H1; cbn [CompOpp]; try discriminate.
  apply String.compare_eq_iff in H1. subst b1.
  unfold String.leb. rewrite (String.compare_antisym b2 a2).
  destruct (String.compare a2 b2) eqn:H2; cbn [CompOpp]; try discriminate.
  apply String.compare_eq_iff in H2. now subst b2.
Qed.

Lemma NoDup_map_unique {A B : Type} (f : A -> B) (l : list A) (x y : A) :
  NoDup (map f l) -> In x l -> In y l -> f x = f y -> x = y.
Proof.
  induction l as [|a l IH]; [intros _ []|].
  simpl. intros Hnd [<-|Hx] [<-|Hy] Heq;
    inversion Hnd as [|? ? Hnot Hrest]; subst.
  - reflexivity.
  - elim Hnot. rewrite Heq. now apply in_map.
  - elim Hnot. rewrite <- Heq. now apply in_map.
  - now apply IH.
Qed.

(** Two sorted lists with the same elements are the same list, when no two
    elements are interchangeable in the order. *)
Lemma sorted_permutation_eq {A : Type} (R : A -> A -> Prop) (l1 : list A) :
  forall l2,
    StronglySorted R l1 -> StronglySorted R l2 -> Permutation l1 l2 ->
    (forall x y, In x l1 -> In y l1 -> R x y -> R y x -> x = y) ->
    l1 = l2.
Proof.
  induction l1 as [|a l1 IH]; intros l2 H1 H2 Hp Hanti.
  - apply Permutation_nil in Hp. now subst.
  - destruct l2 as [|b l2];
      [apply Permutation_sym, Permutation_nil in Hp; discriminate|].
    apply StronglySorted_inv in H1, H2.
    destruct H1 as [H1 Ha], H2 as [H2 Hb].
    rewrite Forall_forall in Ha, Hb.
    assert (a = b) as <-.
    { assert (In a (b :: l2)) as Hab
        by (eapply Permutation_in; [exact Hp|now left]).
      assert (In b (a :: l1)) as Hba
        by (eapply Permutation_in; [apply Permutation_sym, Hp|now left]).
      destruct Hab as [Hab|Hab]; [now symmetry|].
      destruct Hba as [Hba|Hba]; [exact Hba|].
      apply Hanti; [now left|now right|now apply Ha|now apply Hb]. }
    f_equal. apply Permutation_cons_inv in Hp.
    apply IH; try assumption.
    intros x y Hx Hy. apply Hanti; now right.
Qed.

(** The query of lines 61-67 returns the same list whatever the order of
    the rows in the table, when game ids are unique. *)
Lemma select_games_permutation (d1 d2 : database) :
  NoDup (map game_id (games d1)) ->
  Permutation (games d1) (games d2) ->
  select_games d1 = select_games d2.
Proof.
  intros Hnd Hp.
  assert (forall d, StronglySorted
                      (OrderByFacts.ascending game_key date_id_leb)
                      (select_games d)) as Hsorted.
  { intro d. apply Sorted_StronglySorted.
    - intros a b c. unfold OrderByFacts.ascending. apply date_id_leb_trans.
    - apply OrderByFacts.order_by_sorted, OrderByFacts.date_id_leb_total. }
  apply (sorted_permutation_eq
           (OrderByFacts.ascending game_key date_id_leb));
    try apply Hsorted.
  - unfold select_games.
    eapply Permutation_trans;
      [apply Permutation_sym, OrderByFacts.order_by_perm|].
    eapply Permutation_trans; [exact Hp|apply OrderByFacts.order_by_perm].
  - intros x y Hx Hy Hxy Hyx.
    apply OrderByFacts.select_games_In in Hx, Hy.
    apply (NoDup_map_unique game_id (games d1)); try assumption.
    pose proof (date_id_leb_antisym _ _ Hxy Hyx) as Hk.
    unfold game_key in Hk. congruence.
Qed.

(** The lookup of [load_sequence] returns the same row whatever the order
    of the rows in the table, when (team, game) keys are unique. *)
Lemma select_sequence_permutation (d1 d2 : database) (t : Z) (gid : string) :
  NoDup (map (fun r => (s_team_id r, s_game_id r)) (team_sequences d1)) ->
  Permutation (team_sequences d1) (team_sequences d2) ->
  select_sequence d1 t gid = select_sequence d2 t gid.
Proof.
  intros Hnd Hp. unfold select_sequence.
  assert (forall x, same_sequence_key t gid x = true ->
                    (s_team_id x, s_game_id x) = (t, gid)) as Hkey.
  { intros x Hx. unfold same_sequence_key in Hx.
    apply andb_true_iff in Hx. destruct Hx as [Ht Hg].
    apply Z.eqb_eq in Ht. apply String.eqb_eq in Hg. congruence. }
  destruct (find (same_sequence_key t gid) (team_sequences d1)) as [x|] eqn:H1;
    destruct (find (same_sequence_key t gid) (team_sequences d2)) as [y|] eqn:H2;
    try reflexivity.
  - apply find_some in H1, H2. destruct H1 as [Hx Hpx], H2 as [Hy Hpy].
    f_equal.
    apply (NoDup_map_unique (fun r => (s_team_id r, s_game_id r))
             (team_sequences d1)); try assumption.
    + eapply Permutation_in; [apply Permutation_sym, Hp|exact Hy].
    + now rewrite (Hkey x Hpx), (Hkey y Hpy).
  - apply find_some in H1. destruct H1 as [Hx Hpx].
    pose proof (find_none _ _ H2 x (Permutation_in x Hp Hx)) as Habs.
    congruence.
  - apply find_some in H2. destruct H2 as [Hy Hpy].
    pose proof (find_none _ _ H1 y
                  (Permutation_in y (Permutation_sym Hp) Hy)) as Habs.
    congruence.
Qed.

(** C8.  Two runs over the same stored games and sequences give the same
    sample list and the same skip counters, also when the two runs find
    the rows of the tables in a different physical order: the store has no
    other way to differ between two runs over the same rows, and the
    embedding has no clock and no random source.  Game ids and the
    (team, game) keys of the sequences are unique, as the store keeps
    them.  The feature table is not read. *)
Theorem build_matchup_samples_deterministic (E : externals) (d1 d2 : database) :
  NoDup (map game_id (games d1)) ->
  NoDup (map (fun r => (s_team_id r, s_game_id r)) (team_sequences d1)) ->
  Permutation (games d1) (games d2) ->
  Permutation (team_sequences d1) (team_sequences d2) ->
  build_matchup_samples E d1 = build_matchup_samples E d2.
Proof.
  intros Hg Hs Hpg Hps. apply build_agree.
  - now apply select_games_permutation.
  - intros t gid. now apply select_sequence_permutation.
Qed.

(** Three games, of which the last has no stored sequence, and the same
    rows in the opposite order. *)
Definition game_101_99 : game_row :=
  {| game_id := "0022300002"; game_date := "2023-10-25"; season := "22023";
     home_team_id := 1610612743; away_team_id := 1610612747;
     home_team_abbr := "DEN"; away_team_abbr := "LAL";
     home_score := 99; away_score := 101;
     raw_json := None |}.

Definition game_without_sequences : game_row :=
  {| game_id := "0022300003"; game_date := "2023-10-26"; season := "22023";
     home_team_id := 1610612747; away_team_id := 1610612743;
     home_team_abbr := "LAL"; away_team_abbr := "DEN";
     home_score := 90; away_score := 95;
     raw_json := None |}.

Definition store_two_samples : database :=
  {| games := [game_without_sequences; game_110_108; game_101_99];
     team_features := [];
     team_sequences :=
       team_sequences store_110_108 ++
       [ {| s_team_id := 1610612743; s_game_id := "0022300002";
            sequence_json := one_step |};
         {| s_team_id := 1610612747; s_game_id := "0022300002";
            sequence_json := one_step |} ] |}.

Definition store_two_samples_reversed : database :=
  {| games := rev (games store_two_samples);
     team_features :=
       [ {| f_team_id := 1610612747; f_game_id := "0022300001";
            f_game_date := "2023-10-24"; feature_vector_json := None |} ];
     team_sequences := rev (team_sequences store_two_samples) |}.

Lemma build_matchup_samples_deterministic_witness :
  build_matchup_samples plain_externals store_two_samples
  = build_matchup_samples plain_externals store_two_samples_reversed /\
  map sample_game_id
    (samples (build_matchup_samples plain_externals store_two_samples))
  = ["0022300001"; "0022300002"] /\
  no_home_sequence
    (reasons (build_matchup_samples plain_externals store_two_samples)) = 1.
Proof.
  split; [|split; vm_compute; reflexivity].
  apply (build_matchup_samples_deterministic plain_externals
           store_two_samples store_two_samples_reversed).
  - repeat constructor; cbn; intros H; decompose [or] H;
      first [discriminate|contradiction].
  - repeat constructor; cbn; intros H; decompose [or] H;
      first [discriminate|contradiction].
  - apply Permutation_rev.
  - apply Permutation_rev.
Defined.

(** X18.  Every game of the store is either sampled or skipped, and every skip
    is counted under exactly one of the three reasons. *)
Theorem games_sampled_or_skipped (E : externals) (d : database) :
  let b := build_matchup_samples E d in
  Z.of_nat (List.length (samples b)) + skipped b
  = Z.of_nat (List.length (games d)) /\
  skipped b = no_home_sequence (reasons b) + no_away_sequence (reasons b)
              + invalid_sequence (reasons b) /\
  0 <= skipped b.
Proof.
  cbv zeta. destruct (batch_accounting E d) as [Hreasons Hsum].
  split; [exact Hsum|]. split; [exact Hreasons|].
  unfold build_matchup_samples.
  apply (fold_left_preserves (assemble E d) (fun b => 0 <= skipped b)).
  - simpl. lia.
  - intros b g _ Hb. unfold assemble.
    destruct (load_sequence E d (home_team_id g) (game_id g)); [|simpl; lia].
    destruct (load_sequence E d (away_team_id g) (game_id g)); [|simpl; lia].
    destruct (negb _ || negb _); [simpl; lia|].
    destruct (negb _); [simpl; lia|exact Hb].
Qed.

End SampleOrderFacts.
